(** * code_analyzer: endpoint detection and progress tracking

    A shallow embedding of [code_analyzer/code_reader.py] and
    [code_analyzer/progress_manager.py].

    Python [str] values are modelled as [string]; a character is one
    [ascii] (the text is taken to be ASCII, or UTF-8 bytes, whose
    lexicographic order agrees with the order of code points Python uses to
    compare strings).  Python [int] is [Z]; line numbers, offsets and
    lengths, which are never negative, are [nat].  [None] is [option]'s
    [None].
    A [dict] is an association list in insertion order, which is the order
    Python iterates it in. *)

From Stdlib Require Import String Ascii List ZArith Bool Arith Lia.
From Stdlib Require Import Sorting.Sorted Sorting.Permutation.
From Stdlib Require Import OrdersEx DecimalString.
Import ListNotations.

Open Scope string_scope.
Open Scope list_scope.
Open Scope nat_scope.

(* ===================================================================== *)
(** ** Python built-ins the code relies on *)
(* ===================================================================== *)

Module Py.

Definition nl : ascii := "010"%char.

(** [s.replace(old, new)] for a non-empty [old]: occurrences are replaced
    left to right, without overlap.  [skip] counts the characters of the
    occurrence just replaced that are still to be passed over. *)
Fixpoint replace_from (old new : string) (s : string) (skip : nat) : string :=
  match s with
  | EmptyString => EmptyString
  | String c s' =>
      match skip with
      | S k => replace_from old new s' k
      | O =>
          if String.prefix old s
          then (new ++ replace_from old new s' (String.length old - 1))%string
          else String c (replace_from old new s' 0)
      end
  end.

Definition replace (old new : string) (s : string) : string :=
  replace_from old new s 0.

(** [s.startswith(p)] *)
Definition startswith (s p : string) : bool := String.prefix p s.

(** [s.count('\n')] *)
Fixpoint count (c : ascii) (s : string) : nat :=
  match s with
  | EmptyString => 0
  | String a s' => (if Ascii.eqb a c then 1 else 0) + count c s'
  end.

(** [s[:k]] for [0 <= k] *)
Definition slice_to (k : nat) (s : string) : string := substring 0 k s.

(** [s.split(sep)] for a one-character [sep]: never the empty list. *)
Fixpoint split (sep : ascii) (s : string) : list string :=
  match s with
  | EmptyString => [EmptyString]
  | String c s' =>
      if Ascii.eqb c sep then EmptyString :: split sep s'
      else match split sep s' with
           | [] => [String c EmptyString]
           | w :: ws => String c w :: ws
           end
  end.

Definition is_lower (c : ascii) : bool :=
  (97 <=? nat_of_ascii c) && (nat_of_ascii c <=? 122).
Definition is_upper (c : ascii) : bool :=
  (65 <=? nat_of_ascii c) && (nat_of_ascii c <=? 90).
Definition is_digit (c : ascii) : bool :=
  (48 <=? nat_of_ascii c) && (nat_of_ascii c <=? 57).

(** [s.upper()] on ASCII text *)
Fixpoint upper (s : string) : string :=
  match s with
  | EmptyString => EmptyString
  | String c s' =>
      String (if is_lower c then ascii_of_nat (nat_of_ascii c - 32) else c)
             (upper s')
  end.

(** What an f-string makes of an [Optional[str]] field. *)
Definition fmt (o : option string) : string :=
  match o with Some s => s | None => "None" end.

(** Truth value of an [Optional[str]]: [None] and [''] are false. *)
Definition truthy (o : option string) : bool :=
  match o with
  | Some (String _ _) => true
  | _ => false
  end.

(** [l[:n]] on a list, for any Python int [n]. *)
Definition take {A} (n : Z) (l : list A) : list A :=
  if (0 <=? n)%Z then firstn (Z.to_nat n) l
  else firstn (length l - Z.to_nat (- n)) l.

(** [range(a, b)] *)
Definition range (a b : nat) : list nat := seq a (b - a).

(** The outcome of a call: the value returned, or the exception raised. *)
Inductive result (A : Type) : Type :=
| Ok (a : A)
| Raise (exn : string).
Arguments Ok {A} a.
Arguments Raise {A} exn.

End Py.

(* ===================================================================== *)
(** ** The fragment of Python's [re] the pattern tables use

    A backtracking matcher: alternatives are tried left to right, [*] is
    greedy, a match is the first one found this way, and groups report the
    text of their last successful match.  None of the patterns of the
    tables uses anchors, lazy quantifiers or back-references. *)
(* ===================================================================== *)

Module Re.

Inductive regex : Type :=
| Eps
| Chr (p : ascii -> bool)
| Seq (a b : regex)
| Alt (a b : regex)
| Star (a : regex)
| Group (i : nat) (a : regex).

Definition captures := list (nat * string).

Fixpoint group (c : captures) (i : nat) : option string :=
  match c with
  | [] => None
  | (j, s) :: c' => if Nat.eqb i j then Some s else group c' i
  end.

(** [run r s c k]: match [r] at the head of [s] in every way Python
    would try, in its order, until continuation [k] accepts. *)
Fixpoint run (r : regex) (s : string) (c : captures)
         (k : string -> captures -> option (string * captures))
  : option (string * captures) :=
  match r with
  | Eps => k s c
  | Chr p =>
      match s with
      | String a s' => if p a then k s' c else None
      | EmptyString => None
      end
  | Seq a b => run a s c (fun s1 c1 => run b s1 c1 k)
  | Alt a b =>
      match run a s c k with
      | Some x => Some x
      | None => run b s c k
      end
  | Star a =>
      (fix loop (n : nat) (s : string) (c : captures) {struct n} :=
         match n with
         | O => k s c
         | S n' =>
             match run a s c
                     (fun s1 c1 =>
                        if String.length s1 <? String.length s
                        then loop n' s1 c1 else None) with
             | Some x => Some x
             | None => k s c
             end
         end) (String.length s) s c
  | Group i a =>
      run a s c
          (fun s1 c1 =>
             k s1 ((i, substring 0 (String.length s - String.length s1) s) :: c1))
  end.

(** [pattern.match(s)] at the head of [s]: the rest and the groups. *)
Definition match_here (r : regex) (s : string) : option (string * captures) :=
  run r s [] (fun s1 c1 => Some (s1, c1)).

Record Match := mkMatch
  { m_start : nat;          (* match.start() *)
    m_len : nat;            (* match.end() - match.start() *)
    m_caps : captures }.

(** Number of capturing groups of a pattern. *)
Fixpoint ngroups (r : regex) : nat :=
  match r with
  | Eps | Chr _ => 0
  | Seq a b | Alt a b => ngroups a + ngroups b
  | Star a => ngroups a
  | Group _ a => S (ngroups a)
  end.

(** [match.groups()] for a match of [r]. *)
Definition groups (r : regex) (m : Match) : list (option string) :=
  map (group (m_caps m)) (seq 1 (ngroups r)).

(** [match.group(i)] *)
Definition mgroup (m : Match) (i : nat) : option string := group (m_caps m) i.

(** [re.finditer(r, s)]: all non-overlapping matches, left to right.
    [skip] is the number of characters still covered by the previous
    match, [pos] the offset of [s] in the whole text. *)
Fixpoint scan (r : regex) (s : string) (pos skip : nat) : list Match :=
  let here :=
    match skip with
    | O => match match_here r s with
           | Some (rest, c) => Some (mkMatch pos (String.length s - String.length rest) c)
           | None => None
           end
    | S _ => None
    end in
  let skip' :=
    match here with
    | Some m => Nat.pred (m_len m)
    | None => Nat.pred skip
    end in
  let later :=
    match s with
    | EmptyString => []
    | String _ s' => scan r s' (S pos) skip'
    end in
  match here with
  | Some m => m :: later
  | None => later
  end.

Definition finditer (r : regex) (s : string) : list Match := scan r s 0 0.

(** [re.search(r, s)] *)
Definition search (r : regex) (s : string) : option Match :=
  match finditer r s with
  | [] => None
  | m :: _ => Some m
  end.

(** *** Pattern syntax *)

Definition chr (a : ascii) : regex := Chr (Ascii.eqb a).

(** a literal string *)
Fixpoint lit (s : string) : regex :=
  match s with
  | EmptyString => Eps
  | String a EmptyString => chr a
  | String a s' => Seq (chr a) (lit s')
  end.

Definition plus (r : regex) : regex := Seq r (Star r).
Definition opt (r : regex) : regex := Alt r Eps.

Fixpoint seqs (l : list regex) : regex :=
  match l with
  | [] => Eps
  | [r] => r
  | r :: l' => Seq r (seqs l')
  end.

Fixpoint alts (l : list regex) : regex :=
  match l with
  | [] => Chr (fun _ => false)
  | [r] => r
  | r :: l' => Alt r (alts l')
  end.

(** [\w] on ASCII text *)
Definition is_word (c : ascii) : bool :=
  Py.is_lower c || Py.is_upper c || Py.is_digit c || Ascii.eqb c "_"%char.

(** [\s]: space, [\t\n\v\f\r] and the separators 28..31 *)
Definition is_space (c : ascii) : bool :=
  let n := nat_of_ascii c in
  (n =? 32) || ((9 <=? n) && (n <=? 13)) || ((28 <=? n) && (n <=? 31)).

Definition w : regex := Chr is_word.
Definition sp : regex := Chr is_space.
(** [.] without DOTALL *)
Definition dot : regex := Chr (fun c => negb (Ascii.eqb c Py.nl)).
(** [[abc]] and [[^abc]] *)
Definition one_of (l : list ascii) : regex :=
  Chr (fun c => existsb (Ascii.eqb c) l).
Definition none_of (l : list ascii) : regex :=
  Chr (fun c => negb (existsb (Ascii.eqb c) l)).
Definition none_of_or_space (l : list ascii) : regex :=
  Chr (fun c => negb (existsb (Ascii.eqb c) l || is_space c)).

(** the double quote character *)
Definition dquote : ascii := "034"%char.

Definition quote : regex := one_of ["'"%char; dquote].
Definition not_quote : regex := none_of ["'"%char; dquote].

End Re.

(* ===================================================================== *)
(** ** [posixpath]: the path functions [read_file] calls

    Paths are resolved lexically, as [os.path.abspath] does; symbolic
    links are not modelled. *)
(* ===================================================================== *)

Module PosixPath.

Definition sep : ascii := "/"%char.

Definition isabs (p : string) : bool := Py.startswith p "/".

Definition endswith_sep (p : string) : bool :=
  match String.length p with
  | O => false
  | S n => match String.get n p with
           | Some c => Ascii.eqb c sep
           | None => false
           end
  end.

(** [os.path.join(a, b)] *)
Definition join (a b : string) : string :=
  if isabs b then b
  else if (String.length a =? 0) || endswith_sep a then (a ++ b)%string
  else (a ++ "/" ++ b)%string.

(** The component stack of [normpath]; [rev_comps] holds [new_comps]
    with its last element first. *)
Fixpoint norm_comps (initial_slashes : nat) (comps : list string)
         (rev_comps : list string) : list string :=
  match comps with
  | [] => rev rev_comps
  | comp :: rest =>
      if String.eqb comp "" || String.eqb comp "." then
        norm_comps initial_slashes rest rev_comps
      else if negb (String.eqb comp "..")
              || ((initial_slashes =? 0) && (length rev_comps =? 0))
              || match rev_comps with
                 | last :: _ => String.eqb last ".."
                 | [] => false
                 end
      then norm_comps initial_slashes rest (comp :: rev_comps)
      else norm_comps initial_slashes rest (tl rev_comps)
  end.

(** [os.path.normpath(path)] *)
Definition normpath (path : string) : string :=
  if String.eqb path "" then "."
  else
    let initial_slashes :=
      if Py.startswith path "/" then
        if Py.startswith path "//" && negb (Py.startswith path "///")
        then 2 else 1
      else 0 in
    let comps := norm_comps initial_slashes (Py.split sep path) [] in
    let body := String.concat "/" comps in
    let out :=
      match initial_slashes with
      | 0 => body
      | 1 => ("/" ++ body)%string
      | _ => ("//" ++ body)%string
      end in
    if String.eqb out "" then "." else out.

(** [os.path.abspath(path)] in working directory [cwd] *)
Definition abspath (cwd path : string) : string :=
  if isabs path then normpath path else normpath (join cwd path).

(** Index of the last occurrence of [c] in [s], if any. *)
Fixpoint rfind (c : ascii) (s : string) : option nat :=
  match s with
  | EmptyString => None
  | String a s' =>
      match rfind c s' with
      | Some i => Some (S i)
      | None => if Ascii.eqb a c then Some 0 else None
      end
  end.

(** Is [s] made of dots only? *)
Fixpoint all_dots (s : string) : bool :=
  match s with
  | EmptyString => true
  | String a s' => Ascii.eqb a "."%char && all_dots s'
  end.

(** [os.path.splitext(p)[1]]: the extension starts at the last dot of the
    last component, unless that component has only leading dots before
    it. *)
Definition splitext_ext (p : string) : string :=
  let base_start := match rfind sep p with Some i => S i | None => 0 end in
  let base := substring base_start (String.length p - base_start) p in
  match rfind "."%char base with
  | None => ""
  | Some d =>
      if all_dots (substring 0 d base) then ""
      else substring d (String.length base - d) base
  end.

Definition nonempty_comps (p : string) : list string :=
  filter (fun x => negb (String.eqb x "")) (Py.split sep p).

Fixpoint common_prefix_len (a b : list string) : nat :=
  match a, b with
  | x :: a', y :: b' => if String.eqb x y then S (common_prefix_len a' b') else 0
  | _, _ => 0
  end.

(** [os.path.basename(p)] *)
Definition basename (p : string) : string :=
  let i := match rfind sep p with Some i => S i | None => 0 end in
  substring i (String.length p - i) p.

(** [os.path.relpath(path, start)] *)
Definition relpath (cwd path start : string) : string :=
  let start_list := nonempty_comps (abspath cwd start) in
  let path_list := nonempty_comps (abspath cwd path) in
  let i := common_prefix_len start_list path_list in
  let rel_list := repeat ".." (length start_list - i) ++ skipn i path_list in
  match rel_list with
  | [] => "."
  | x :: xs => fold_left join xs x
  end.

End PosixPath.

(* ===================================================================== *)
(** ** [config.py] *)
(* ===================================================================== *)

Module Config.

(** The fields of [AnalyzerConfig] that the reader and the progress
    manager use. *)
Record AnalyzerConfig := mkConfig
  { code_dir : string;
    output_dir : string;
    progress_file : string }.

(** [AnalyzerConfig(code_dir, output_dir)] with [__post_init__], run in
    working directory [cwd]. *)
Definition make (cwd code_dir output_dir : string) : AnalyzerConfig :=
  {| code_dir := PosixPath.abspath cwd code_dir;
     output_dir := PosixPath.abspath cwd output_dir;
     progress_file := "analysis_progress.json" |}.

(** [AnalyzerConfig.progress_file_path] *)
Definition progress_file_path (self : AnalyzerConfig) : string :=
  PosixPath.join (output_dir self) (progress_file self).

End Config.

(* ===================================================================== *)
(** ** [code_reader.py] *)
(* ===================================================================== *)

Module CodeReader.

Import Re.

Record EndpointInfo := mkEndpointInfo
  { name : string;
    type : string;
    method : option string;
    path : option string;
    file_path : string;
    line_number : nat;
    function_name : string;
    service_name : option string;
    description : option string }.

(** [EndpointInfo.unique_id] *)
Definition unique_id (self : EndpointInfo) : string :=
  if String.eqb (type self) "grpc" then
    ("grpc_" ++ Py.fmt (service_name self) ++ "_" ++ name self)%string
  else
    Py.replace "}" ""
      (Py.replace "{" ""
         (Py.replace "/" "_"
            ("http_" ++ Py.fmt (method self) ++ "_" ++ Py.fmt (path self))%string)).

Record CodeFile := mkCodeFile
  { cf_path : string;
    relative_path : string;
    content : string;
    language : string;
    size : nat }.

(** [dict.get(key, default)] on a table written as a list of pairs *)
Fixpoint lookup {A} (key : string) (table : list (string * A)) : option A :=
  match table with
  | [] => None
  | (k, v) :: t => if String.eqb key k then Some v else lookup key t
  end.

Definition LANG_MAP : list (string * string) :=
  [ (".py", "python"); (".go", "go"); (".java", "java");
    (".js", "javascript"); (".ts", "typescript"); (".rs", "rust");
    (".cpp", "cpp"); (".c", "c"); (".h", "c"); (".proto", "protobuf");
    (".yaml", "yaml"); (".yml", "yaml"); (".json", "json") ].

(** *** The pattern tables

    In the comments [Q] stands for the class of the two quote characters,
    single and double. *)

Definition quoted_path (i : nat) : regex :=
  seqs [quote; Group i (plus not_quote); quote].

(** [(\w+)\.(V1|V2|...)\s*\(\s*Q([^Q]+)Q] *)
Definition go_route (verbs : list string) : regex :=
  seqs [Group 1 (plus w); chr "."; Group 2 (alts (map lit verbs));
        Star sp; chr "("; Star sp; quoted_path 3].

(** [@NAME\.route\(Q([^Q]+)Q(?:.*methods=\[([^\]]+)\])?] *)
Definition flask_route (obj : string) : regex :=
  seqs [lit "@"; lit obj; lit ".route("; quoted_path 1;
        opt (seqs [Star dot; lit "methods=[";
                   Group 2 (plus (none_of ["]"%char])); chr "]"])].

Definition lower_verbs : list string := ["get"; "post"; "put"; "delete"; "patch"].
Definition title_verbs : list string := ["Get"; "Post"; "Put"; "Delete"; "Patch"].

(** [(?:app|router)\.(get|post|put|delete|patch)\(Q([^Q]+)Q] *)
Definition express_route : regex :=
  seqs [alts [lit "app"; lit "router"]; chr ".";
        Group 1 (alts (map lit lower_verbs)); chr "("; quoted_path 2].

(** [@(N1|N2|...)\(Q?([^Q)\s]+)?] *)
Definition annotation (names : list string) : regex :=
  seqs [chr "@"; Group 1 (alts (map lit names)); chr "("; opt quote;
        opt (Group 2 (plus (none_of_or_space ["'"%char; dquote; ")"%char])))].

Definition HTTP_PATTERNS : list (string * list (regex * string)) :=
  [ ("python",
      [ (flask_route "app", "flask");
        (flask_route "bp", "flask_bp");
        (seqs [chr "@"; express_route], "fastapi");
        (seqs [lit "path("; quoted_path 1], "django") ]);
    ("go",
      [ (go_route ["GET"; "POST"; "PUT"; "DELETE"; "PATCH"; "HEAD"; "OPTIONS"], "gin");
        (go_route ["GET"; "POST"; "PUT"; "DELETE"; "PATCH"], "echo");
        (go_route title_verbs, "chi");
        (seqs [lit "http.HandleFunc"; Star sp; chr "("; Star sp; quoted_path 1],
          "net_http");
        (go_route title_verbs, "fiber") ]);
    ("java",
      [ (annotation ["GetMapping"; "PostMapping"; "PutMapping";
                     "DeleteMapping"; "PatchMapping"], "spring");
        (seqs [lit "@RequestMapping(";
               opt (seqs [lit "value"; Star sp; chr "="; Star sp]);
               quoted_path 1;
               opt (seqs [Star dot; lit "method"; Star sp; chr "="; Star sp;
                          lit "RequestMethod."; Group 2 (plus w)])],
          "spring_rm") ]);
    ("javascript", [ (express_route, "express") ]);
    ("typescript",
      [ (express_route, "express");
        (annotation title_verbs, "nestjs") ]) ].

Definition not_rparen : regex := none_of [")"%char].

(** [service\s+(\w+)\s*\{] *)
Definition service_decl : regex :=
  seqs [lit "service"; plus sp; Group 1 (plus w); Star sp; chr "{"].

(** [rpc\s+(\w+)\s*\(] *)
Definition rpc_decl : regex :=
  seqs [lit "rpc"; plus sp; Group 1 (plus w); Star sp; chr "("].

Definition GRPC_PATTERNS : list (string * list (regex * string)) :=
  [ ("protobuf", [ (service_decl, "service"); (rpc_decl, "rpc") ]);
    ("go",
      [ (seqs [lit "func"; Star sp; chr "("; plus not_rparen; chr ")"; Star sp;
               Group 1 (plus w); Star sp; chr "("; Star not_rparen;
               lit "pb."; plus w], "grpc_impl");
        (seqs [lit "Register"; Group 1 (plus w); lit "Server"; Star sp; chr "("],
          "grpc_register") ]);
    ("python",
      [ (seqs [lit "class"; plus sp; Group 1 (plus w); lit "Servicer"; Star sp;
               chr "("], "grpc_servicer");
        (seqs [lit "def"; plus sp; Group 1 (plus w); Star sp; lit "(self,";
               Star sp; lit "request"], "grpc_method") ]);
    ("java",
      [ (seqs [lit "class"; plus sp; Group 1 (plus w); plus sp; lit "extends";
               plus sp; plus w; lit "Grpc."; plus w; lit "ImplBase"], "grpc_impl");
        (seqs [lit "public"; plus sp; plus w; plus sp; Group 1 (plus w); Star sp;
               chr "("; Star not_rparen; plus w; lit "Request"], "grpc_method") ]) ].

(** [(?:function\s+(\w+)|(\w+)\s*[=:]\s*(?:async\s+)?(?:function|\([^)]*\)\s*=>))] *)
Definition js_function : regex :=
  Alt (seqs [lit "function"; plus sp; Group 1 (plus w)])
      (seqs [Group 2 (plus w); Star sp; one_of ["="%char; ":"%char]; Star sp;
             opt (seqs [lit "async"; plus sp]);
             Alt (lit "function")
                 (seqs [chr "("; Star not_rparen; chr ")"; Star sp; lit "=>"])]).

Definition func_patterns : list (string * regex) :=
  [ ("python", seqs [lit "def"; plus sp; Group 1 (plus w); Star sp; chr "("]);
    ("go", seqs [lit "func"; plus sp;
                 opt (seqs [chr "("; plus not_rparen; chr ")"; plus sp]);
                 Group 1 (plus w); Star sp; chr "("]);
    ("java", seqs [opt (alts [lit "public"; lit "private"; lit "protected"]);
                   Star sp; plus w; plus sp; Group 1 (plus w); Star sp; chr "("]);
    ("javascript", js_function);
    ("typescript", js_function) ].

(** *** Detection *)

(** Text of a group that takes part in every match of its pattern, where
    Python never reports [None]. *)
Definition text (g : option string) : string :=
  match g with Some s => s | None => "" end.

(** [groups[i]] *)
Definition item (groups : list (option string)) (i : nat) : option string :=
  nth i groups None.

(** [x if x else default] *)
Definition or_else (g : option string) (default : string) : string :=
  if Py.truthy g then text g else default.

(** The inner [for g in match.groups(): if g: return g]. *)
Fixpoint first_truthy (gs : list (option string)) : option string :=
  match gs with
  | [] => None
  | g :: gs' => if Py.truthy g then g else first_truthy gs'
  end.

(** The loop of [_find_function_at_line] over the line indices. *)
Fixpoint function_in (pattern : regex) (lines : list string) (idxs : list nat)
  : option string :=
  match idxs with
  | [] => None
  | i :: rest =>
      match search pattern (nth i lines "") with
      | Some m =>
          match first_truthy (groups pattern m) with
          | Some g => Some g
          | None => function_in pattern lines rest
          end
      | None => function_in pattern lines rest
      end
  end.

(** [CodeReader._find_function_at_line] *)
Definition _find_function_at_line (lines : list string) (line_num : nat)
           (language : string) : option string :=
  match lookup language func_patterns with
  | None => None
  | Some pattern =>
      function_in pattern lines
        (Py.range (line_num - 1) (Nat.min (line_num + 5) (length lines)))
  end.

Definition mem (x : string) (l : list string) : bool := existsb (String.eqb x) l.

(** The branch on [framework]: the method and the path of one match. *)
Definition method_and_path (framework : string) (groups : list (option string))
  : string * option string :=
  if mem framework ["gin"; "echo"; "chi"; "fiber"] then
    ( (if 1 <? length groups then Py.upper (text (item groups 1)) else "GET"),
      Some (if (2 <? length groups) && Py.truthy (item groups 2)
            then text (item groups 2) else "/") )
  else if mem framework ["fastapi"; "express"; "nestjs"] then
    ( Py.upper (text (item groups 0)),
      Some (if (1 <? length groups) && Py.truthy (item groups 1)
            then text (item groups 1) else "/") )
  else if mem framework ["flask"; "flask_bp"] then
    ( (if (1 <? length groups) && Py.truthy (item groups 1) then
         match map (fun m => text (mgroup m 1))
                   (finditer (seqs [chr "'"; Group 1 (plus w); chr "'"])
                             (text (item groups 1))) with
         | first :: _ => Py.upper first
         | [] => "GET"
         end
       else "GET"),
      item groups 0 )
  else if String.eqb framework "spring" then
    ( Py.upper (Py.replace "Mapping" "" (text (item groups 0))),
      Some (or_else (item groups 1) "/") )
  else if String.eqb framework "spring_rm" then
    ( (if (1 <? length groups) && Py.truthy (item groups 1)
       then text (item groups 1) else "GET"),
      item groups 0 )
  else
    ( "GET",
      match groups with
      | [] => Some "/"
      | g :: _ => g
      end ).

(** One [EndpointInfo] per match of one rule of the HTTP table. *)
Definition http_endpoint (code_file : CodeFile) (lines : list string)
           (pattern : regex) (framework : string) (m : Match) : EndpointInfo :=
  let line_num := Py.count Py.nl (Py.slice_to (m_start m) (content code_file)) + 1 in
  let '(method, path) := method_and_path framework (groups pattern m) in
  let func_name := _find_function_at_line lines line_num (language code_file) in
  {| name := if Py.truthy func_name then text func_name
             else (method ++ "_" ++ Py.fmt path)%string;
     type := "http";
     method := Some method;
     path := path;
     file_path := relative_path code_file;
     line_number := line_num;
     function_name := or_else func_name "";
     service_name := None;
     description := None |}.

(** [CodeReader._find_http_endpoints]: rule by rule, and for each rule
    match by match. *)
Definition _find_http_endpoints (code_file : CodeFile) : list EndpointInfo :=
  let patterns :=
    match lookup (language code_file) HTTP_PATTERNS with
    | Some l => l
    | None => []
    end in
  let lines := Py.split Py.nl (content code_file) in
  flat_map
    (fun '(pattern, framework) =>
       map (http_endpoint code_file lines pattern framework)
           (finditer pattern (content code_file)))
    patterns.

(** The body of the inner loop of [_find_grpc_endpoints]: the state is
    [current_service] and the list [endpoints]. *)
Definition grpc_step (code_file : CodeFile) (pattern_type : string)
           (st : option string * list EndpointInfo) (m : Match)
  : option string * list EndpointInfo :=
  let '(current_service, endpoints) := st in
  let line_num := Py.count Py.nl (Py.slice_to (m_start m) (content code_file)) + 1 in
  let name := text (mgroup m 1) in
  if String.eqb pattern_type "service" then (Some name, endpoints)
  else if mem pattern_type ["rpc"; "grpc_method"; "grpc_impl"] then
    (current_service,
     endpoints ++
       [ {| name := name;
            type := "grpc";
            method := None;
            path := None;
            file_path := relative_path code_file;
            line_number := line_num;
            function_name := name;
            service_name := current_service;
            description := None |} ])
  else (current_service, endpoints).

(** The two nested loops: the outer one runs over the rules of the
    language's table, the inner one over all matches of that rule. *)
Definition grpc_loops (code_file : CodeFile) (patterns : list (regex * string))
  : option string * list EndpointInfo :=
  fold_left
    (fun st '(pattern, pattern_type) =>
       fold_left (grpc_step code_file pattern_type)
                 (finditer pattern (content code_file)) st)
    patterns (None, []).

(** [CodeReader._find_grpc_endpoints] *)
Definition _find_grpc_endpoints (code_file : CodeFile) : list EndpointInfo :=
  let patterns :=
    match lookup (language code_file) GRPC_PATTERNS with
    | Some l => l
    | None => []
    end in
  snd (grpc_loops code_file patterns).

(** The two [for ep in ...: if ep.unique_id not in seen_ids] loops of
    [find_endpoints]; [seen_ids] is the set of identities of
    [endpoints]. *)
Definition add_unseen (found : list EndpointInfo)
           (st : list string * list EndpointInfo)
  : list string * list EndpointInfo :=
  fold_left
    (fun '(seen_ids, endpoints) ep =>
       if mem (unique_id ep) seen_ids then (seen_ids, endpoints)
       else (seen_ids ++ [unique_id ep], endpoints ++ [ep]))
    found st.

(** [CodeReader.find_endpoints], given the files that the directory walk
    reads, in the order of the walk. *)
Definition find_endpoints (files : list CodeFile) : list EndpointInfo :=
  snd (fold_left
         (fun st code_file =>
            add_unseen (_find_grpc_endpoints code_file)
                       (add_unseen (_find_http_endpoints code_file) st))
         files ([], [])).

(** *** Reading files *)

(** The part of the world [read_file] looks at: the working directory
    and the regular files, by absolute normal path. *)
Record FileSystem := mkFS
  { cwd : string;
    files : list (string * string) }.

Definition fs_read (fs : FileSystem) (p : string) : option string :=
  lookup (PosixPath.abspath (cwd fs) p) (files fs).

(** [self._file_cache] *)
Definition Cache := list (string * CodeFile).

(** [CodeReader.read_file]: the value returned (or the exception) and
    the cache afterwards. *)
Definition read_file (config : Config.AnalyzerConfig) (fs : FileSystem)
           (_file_cache : Cache) (file_path : string)
  : Py.result (option CodeFile) * Cache :=
  match lookup file_path _file_cache with
  | Some code_file => (Py.Ok (Some code_file), _file_cache)
  | None =>
      let full_path :=
        if negb (PosixPath.isabs file_path)
        then PosixPath.join (Config.code_dir config) file_path
        else file_path in
      if negb (Py.startswith (PosixPath.abspath (cwd fs) full_path)
                             (PosixPath.abspath (cwd fs) (Config.code_dir config)))
      then (Py.Raise "PermissionError", _file_cache)
      else
        match fs_read fs full_path with
        | None => (Py.Ok None, _file_cache)
        | Some content =>
            let ext := PosixPath.splitext_ext full_path in
            let code_file :=
              {| cf_path := full_path;
                 relative_path :=
                   PosixPath.relpath (cwd fs) full_path (Config.code_dir config);
                 content := content;
                 language := match lookup ext LANG_MAP with
                             | Some l => l
                             | None => "unknown"
                             end;
                 size := String.length content |} in
            (Py.Ok (Some code_file), _file_cache ++ [(file_path, code_file)])
        end
  end.

End CodeReader.

(* ===================================================================== *)
(** ** [json.dump(obj, f, indent=2, ensure_ascii=False)] on the values the
       progress document is made of *)
(* ===================================================================== *)

Module Json.

#[warnings="-register-all"]
Inductive value : Type :=
| Null
| Int (z : Z)
| Str (s : string)
| Obj (items : list (string * value)).

Definition backslash : ascii := "092"%char.

Definition hex (n : nat) : ascii :=
  nth n ["0"; "1"; "2"; "3"; "4"; "5"; "6"; "7"; "8"; "9";
         "a"; "b"; "c"; "d"; "e"; "f"]%char "0"%char.

Definition escape_char (c : ascii) : string :=
  let n := nat_of_ascii c in
  if Ascii.eqb c Re.dquote then String backslash (String Re.dquote EmptyString)
  else if Ascii.eqb c backslash then String backslash (String backslash EmptyString)
  else if n =? 10 then "\n"
  else if n =? 13 then "\r"
  else if n =? 9 then "\t"
  else if n =? 8 then "\b"
  else if n =? 12 then "\f"
  else if n <? 32 then
    ("\u00" ++ String (hex (n / 16)) (String (hex (n mod 16)) EmptyString))%string
  else String c EmptyString.

Fixpoint escape (s : string) : string :=
  match s with
  | EmptyString => EmptyString
  | String c s' => (escape_char c ++ escape s')%string
  end.

Definition encode_str (s : string) : string :=
  String Re.dquote (escape s ++ String Re.dquote EmptyString).

Definition encode_int (z : Z) : string := NilZero.string_of_int (Z.to_int z).

Fixpoint spaces (n : nat) : string :=
  match n with
  | O => EmptyString
  | S n' => String " " (spaces n')
  end.

Definition newline_indent (level : nat) : string :=
  String Py.nl (spaces (2 * level)).

Fixpoint dumps_at (level : nat) (v : value) : string :=
  match v with
  | Null => "null"
  | Int z => encode_int z
  | Str s => encode_str s
  | Obj [] => "{}"
  | Obj items =>
      ("{" ++ newline_indent (S level)
           ++ String.concat ("," ++ newline_indent (S level))
                (map (fun kv => encode_str (fst kv) ++ ": " ++ dumps_at (S level) (snd kv))
                     items)
           ++ newline_indent level ++ "}")%string
  end.

Definition dumps (v : value) : string := dumps_at 0 v.

Definition opt_str (o : option string) : value :=
  match o with Some s => Str s | None => Null end.

End Json.

(* ===================================================================== *)
(** ** [progress_manager.py] *)
(* ===================================================================== *)

Module ProgressManager.

Import Py.

Record EndpointProgress := mkEndpointProgress
  { endpoint_id : string;
    endpoint_name : string;
    endpoint_type : string;
    file_path : string;
    status : string;
    doc_file : option string;
    started_at : option string;
    completed_at : option string;
    error_message : option string;
    retry_count : Z }.

(** [Dict[str, EndpointProgress]], in insertion order *)
Definition Endpoints := list (string * EndpointProgress).

Record AnalysisProgress := mkAnalysisProgress
  { project_name : string;
    code_dir : string;
    output_dir : string;
    total_endpoints : Z;
    completed_count : Z;
    failed_count : Z;
    pending_count : Z;
    last_run : option string;
    created_at : string;
    endpoints : Endpoints }.

(** *** The dictionary operations the manager uses *)

(** [k in d] *)
Definition contains (k : string) (d : Endpoints) : bool :=
  existsb (fun kv => String.eqb k (fst kv)) d.

(** [d[k]] *)
Fixpoint getitem (k : string) (d : Endpoints) : option EndpointProgress :=
  match d with
  | [] => None
  | (k', v) :: d' => if String.eqb k k' then Some v else getitem k d'
  end.

(** [d.values()] *)
Definition values (d : Endpoints) : list EndpointProgress := map snd d.

(** The object [d[k]] mutated in place by [f]; other entries and the
    order of the dictionary are as before. *)
Fixpoint mutate (k : string) (f : EndpointProgress -> EndpointProgress)
         (d : Endpoints) : Endpoints :=
  match d with
  | [] => []
  | (k', v) :: d' =>
      if String.eqb k k' then (k', f v) :: d' else (k', v) :: mutate k f d'
  end.

(** [d[k] = v]: a new key goes last, an old one keeps its place. *)
Definition setitem (k : string) (v : EndpointProgress) (d : Endpoints) : Endpoints :=
  if contains k d then mutate k (fun _ => v) d else d ++ [(k, v)].

(** *** Record updates *)

Definition set_endpoints (p : AnalysisProgress) (e : Endpoints) : AnalysisProgress :=
  {| project_name := project_name p; code_dir := code_dir p;
     output_dir := output_dir p; total_endpoints := total_endpoints p;
     completed_count := completed_count p; failed_count := failed_count p;
     pending_count := pending_count p; last_run := last_run p;
     created_at := created_at p; endpoints := e |}.

Definition set_last_run (p : AnalysisProgress) (t : option string) : AnalysisProgress :=
  {| project_name := project_name p; code_dir := code_dir p;
     output_dir := output_dir p; total_endpoints := total_endpoints p;
     completed_count := completed_count p; failed_count := failed_count p;
     pending_count := pending_count p; last_run := t;
     created_at := created_at p; endpoints := endpoints p |}.

(** [sum(1 for ep in self.endpoints.values() if ep.status == s)] *)
Definition count_status (s : string) (d : Endpoints) : Z :=
  Z.of_nat (length (filter (fun ep => String.eqb (status ep) s) (values d))).

(** [AnalysisProgress.update_counts] *)
Definition update_counts (self : AnalysisProgress) : AnalysisProgress :=
  {| project_name := project_name self; code_dir := code_dir self;
     output_dir := output_dir self;
     total_endpoints := Z.of_nat (length (endpoints self));
     completed_count := count_status "completed" (endpoints self);
     failed_count := count_status "failed" (endpoints self);
     pending_count := count_status "pending" (endpoints self);
     last_run := last_run self;
     created_at := created_at self; endpoints := endpoints self |}.

(** *** [to_dict] *)

Definition EndpointProgress_to_dict (ep : EndpointProgress) : Json.value :=
  Json.Obj
    [ ("endpoint_id", Json.Str (endpoint_id ep));
      ("endpoint_name", Json.Str (endpoint_name ep));
      ("endpoint_type", Json.Str (endpoint_type ep));
      ("file_path", Json.Str (file_path ep));
      ("status", Json.Str (status ep));
      ("doc_file", Json.opt_str (doc_file ep));
      ("started_at", Json.opt_str (started_at ep));
      ("completed_at", Json.opt_str (completed_at ep));
      ("error_message", Json.opt_str (error_message ep));
      ("retry_count", Json.Int (retry_count ep)) ].

Definition to_dict (self : AnalysisProgress) : Json.value :=
  Json.Obj
    [ ("project_name", Json.Str (project_name self));
      ("code_dir", Json.Str (code_dir self));
      ("output_dir", Json.Str (output_dir self));
      ("total_endpoints", Json.Int (total_endpoints self));
      ("completed_count", Json.Int (completed_count self));
      ("failed_count", Json.Int (failed_count self));
      ("pending_count", Json.Int (pending_count self));
      ("last_run", Json.opt_str (last_run self));
      ("created_at", Json.Str (created_at self));
      ("endpoints",
        Json.Obj (map (fun kv => (fst kv, EndpointProgress_to_dict (snd kv)))
                      (endpoints self))) ].

(** *** The manager and the world around it

    [_progress] is the manager's field.  [file] is the content found at
    [config.progress_file_path] ([None]: no such file).  The other fields
    are bookkeeping: [reads] counts how often the file was opened for
    reading, [contents] lists every content the file was given by the
    manager, oldest first, and [ticks] counts the calls of
    [datetime.now()]. *)

Record State := mkState
  { _progress : option AnalysisProgress;
    file : option string;
    reads : nat;
    contents : list string;
    ticks : nat }.

(** A method call: from a state to what it returns (or raises) and the
    state it leaves. *)
Definition M (A : Type) : Type := State -> result A * State.

Definition ret {A} (a : A) : M A := fun st => (Ok a, st).

Definition bind {A B} (m : M A) (f : A -> M B) : M B :=
  fun st =>
    match m st with
    | (Ok a, st') => f a st'
    | (Raise e, st') => (Raise e, st')
    end.

Notation "x <- m ;; f" := (bind m (fun x => f))
  (at level 61, m at next level, right associativity).
Notation "m ;;; f" := (bind m (fun _ => f))
  (at level 61, right associativity).

(** In-place mutation of the loaded [AnalysisProgress] object. *)
Definition modify (f : AnalysisProgress -> AnalysisProgress) : M unit :=
  fun st =>
    (Ok tt, {| _progress := option_map f (_progress st); file := file st;
               reads := reads st; contents := contents st; ticks := ticks st |}).

Section Manager.

(** [self.config] *)
Variable config : Config.AnalyzerConfig.

(** [clock n]: what the [n]-th call of [datetime.now().isoformat()]
    gives. *)
Variable clock : nat -> string.

(** [from_json text t]: [json.load] followed by
    [AnalysisProgress.from_dict], [None] when either raises.  [from_dict]
    evaluates [datetime.now().isoformat()] as the default of [created_at],
    whether the document has one or not; [t] is what that gives.  Whatever
    can raise in [from_dict] is evaluated before that default: a document
    that is refused has not read the clock. *)
Variable from_json : string -> string -> option AnalysisProgress.

(** [datetime.now().isoformat()] *)
Definition now : M string :=
  fun st =>
    (Ok (clock (ticks st)),
     {| _progress := _progress st; file := file st; reads := reads st;
        contents := contents st; ticks := S (ticks st) |}).

(** [ProgressManager._create_new_progress] *)
Definition _create_new_progress : M AnalysisProgress :=
  t <- now ;;
  ret {| project_name := PosixPath.basename (Config.code_dir config);
         code_dir := Config.code_dir config;
         output_dir := Config.output_dir config;
         total_endpoints := 0; completed_count := 0; failed_count := 0;
         pending_count := 0; last_run := None; created_at := t;
         endpoints := [] |}.

(** [self._progress = p] *)
Definition set_progress (p : AnalysisProgress) : M unit :=
  fun st =>
    (Ok tt, {| _progress := Some p; file := file st; reads := reads st;
               contents := contents st; ticks := ticks st |}).

(** [with open(progress_file, 'r') as f: data = json.load(f)] and
    [from_dict], inside the [try]. *)
Definition read_document (text : string) : M (option AnalysisProgress) :=
  fun st =>
    let data := from_json text (clock (ticks st)) in
    (Ok data,
     {| _progress := _progress st; file := file st; reads := S (reads st);
        contents := contents st;
        ticks := match data with
                 | Some _ => S (ticks st)
                 | None => ticks st
                 end |}).

(** [ProgressManager.load_progress].  An [AnalysisProgress] object is
    always true in [if self._progress], so only [None] leads to a load. *)
Definition load_progress : M AnalysisProgress :=
  fun st =>
    match _progress st with
    | Some p => (Ok p, st)
    | None =>
        (p <- match file st with
              | Some text =>
                  d <- read_document text ;;
                  match d with
                  | Some p => ret p
                  | None => _create_new_progress
                  end
              | None => _create_new_progress
              end ;;
         set_progress p ;;;
         ret p) st
    end.

(** [open(progress_file, 'w')] empties the file; the text goes into
    the emptied file. *)
Definition write_document (text : string) : M unit :=
  fun st =>
    (Ok tt, {| _progress := _progress st; file := Some text; reads := reads st;
               contents := contents st ++ [EmptyString; text];
               ticks := ticks st |}).

(** [ProgressManager.save_progress] *)
Definition save_progress : M unit :=
  fun st =>
    match _progress st with
    | None => (Ok tt, st)
    | Some p =>
        (modify update_counts ;;;
         write_document (Json.dumps (to_dict (update_counts p)))) st
    end.

(** The body of the first loop of [sync_endpoints]. *)
Definition add_new (d : Endpoints) (ep : CodeReader.EndpointInfo) : Endpoints :=
  let ep_id := CodeReader.unique_id ep in
  if negb (contains ep_id d) then
    setitem ep_id
      {| endpoint_id := ep_id;
         endpoint_name := CodeReader.name ep;
         endpoint_type := CodeReader.type ep;
         file_path := CodeReader.file_path ep;
         status := "pending";
         doc_file := None; started_at := None; completed_at := None;
         error_message := None; retry_count := 0 |} d
  else d.

(** [ProgressManager.sync_endpoints]; its second loop only passes. *)
Definition sync_endpoints (eps : list CodeReader.EndpointInfo) : M unit :=
  _ <- load_progress ;;
  modify (fun progress =>
            set_endpoints progress (fold_left add_new eps (endpoints progress))) ;;;
  modify update_counts ;;;
  save_progress.

(** The sort key [(x.file_path, x.endpoint_name)] and Python's [<] on
    such pairs. *)
Definition key (x : EndpointProgress) : string * string :=
  (file_path x, endpoint_name x).

Definition key_lt (a b : string * string) : bool :=
  match String_as_OT.compare (fst a) (fst b) with
  | Lt => true
  | Gt => false
  | Eq => match String_as_OT.compare (snd a) (snd b) with
          | Lt => true
          | _ => false
          end
  end.

(** [list.sort(key=...)] is stable: an element is put before the first
    of the later elements that is not smaller. *)
Fixpoint insert (x : EndpointProgress) (l : list EndpointProgress)
  : list EndpointProgress :=
  match l with
  | [] => [x]
  | y :: l' => if key_lt (key y) (key x) then y :: insert x l' else x :: l
  end.

Fixpoint sort (l : list EndpointProgress) : list EndpointProgress :=
  match l with
  | [] => []
  | x :: l' => insert x (sort l')
  end.

Definition is_pending (ep : EndpointProgress) : bool :=
  String.eqb (status ep) "pending".

(** The selection made by [get_next_endpoints] from a loaded store. *)
Definition next_batch (batch_size : Z) (progress : AnalysisProgress)
  : list EndpointProgress :=
  take batch_size (sort (filter is_pending (values (endpoints progress)))).

(** [ProgressManager.get_next_endpoints] *)
Definition get_next_endpoints (batch_size : Z) : M (list EndpointProgress) :=
  progress <- load_progress ;;
  ret (next_batch batch_size progress).

(** [ep.status = "in_progress"; ep.started_at = t] *)
Definition claim (t : string) (ep : EndpointProgress) : EndpointProgress :=
  {| endpoint_id := endpoint_id ep; endpoint_name := endpoint_name ep;
     endpoint_type := endpoint_type ep; file_path := file_path ep;
     status := "in_progress"; doc_file := doc_file ep; started_at := Some t;
     completed_at := completed_at ep; error_message := error_message ep;
     retry_count := retry_count ep |}.

(** [ep.status = "completed"; ep.doc_file = doc; ep.completed_at = t] *)
Definition complete (doc t : string) (ep : EndpointProgress) : EndpointProgress :=
  {| endpoint_id := endpoint_id ep; endpoint_name := endpoint_name ep;
     endpoint_type := endpoint_type ep; file_path := file_path ep;
     status := "completed"; doc_file := Some doc; started_at := started_at ep;
     completed_at := Some t; error_message := error_message ep;
     retry_count := retry_count ep |}.

(** [ep.status = "failed"; ep.error_message = msg; ep.retry_count += 1] *)
Definition fail (msg : string) (ep : EndpointProgress) : EndpointProgress :=
  {| endpoint_id := endpoint_id ep; endpoint_name := endpoint_name ep;
     endpoint_type := endpoint_type ep; file_path := file_path ep;
     status := "failed"; doc_file := doc_file ep; started_at := started_at ep;
     completed_at := completed_at ep; error_message := Some msg;
     retry_count := (retry_count ep + 1)%Z |}.

(** The body of the loop of [reset_failed]. *)
Definition reset (ep : EndpointProgress) : EndpointProgress :=
  if String.eqb (status ep) "failed" then
    {| endpoint_id := endpoint_id ep; endpoint_name := endpoint_name ep;
       endpoint_type := endpoint_type ep; file_path := file_path ep;
       status := "pending"; doc_file := doc_file ep; started_at := started_at ep;
       completed_at := completed_at ep; error_message := None;
       retry_count := retry_count ep |}
  else ep.

(** Apply [f] to the record stored under [endpoint_id]. *)
Definition on_endpoint (endpoint_id : string)
           (f : EndpointProgress -> EndpointProgress) : M unit :=
  modify (fun progress =>
            set_endpoints progress (mutate endpoint_id f (endpoints progress))).

(** [ProgressManager.mark_in_progress] *)
Definition mark_in_progress (endpoint_id : string) : M unit :=
  progress <- load_progress ;;
  if contains endpoint_id (endpoints progress) then
    t1 <- now ;;
    on_endpoint endpoint_id (claim t1) ;;;
    t2 <- now ;;
    modify (fun progress => set_last_run progress (Some t2)) ;;;
    save_progress
  else ret tt.

(** [ProgressManager.mark_completed] *)
Definition mark_completed (endpoint_id doc_file : string) : M unit :=
  progress <- load_progress ;;
  if contains endpoint_id (endpoints progress) then
    t <- now ;;
    on_endpoint endpoint_id (complete doc_file t) ;;;
    modify update_counts ;;;
    save_progress
  else ret tt.

(** [ProgressManager.mark_failed] *)
Definition mark_failed (endpoint_id error_message : string) : M unit :=
  progress <- load_progress ;;
  if contains endpoint_id (endpoints progress) then
    on_endpoint endpoint_id (fail error_message) ;;;
    modify update_counts ;;;
    save_progress
  else ret tt.

(** [ProgressManager.reset_failed] *)
Definition reset_failed : M unit :=
  _ <- load_progress ;;
  modify (fun progress =>
            set_endpoints progress
              (map (fun kv => (fst kv, reset (snd kv))) (endpoints progress))) ;;;
  modify update_counts ;;;
  save_progress.

(** [ProgressManager.get_completed_docs] *)
Definition get_completed_docs : M (list string) :=
  progress <- load_progress ;;
  ret (flat_map
         (fun ep =>
            if String.eqb (status ep) "completed" && truthy (doc_file ep)
            then [CodeReader.text (doc_file ep)] else [])
         (values (endpoints progress))).

(** What [get_summary] returns, without [progress_percent], which is a
    floating-point number. *)
Record Summary := mkSummary
  { s_project_name : string;
    s_total_endpoints : Z;
    s_completed : Z;
    s_pending : Z;
    s_failed : Z;
    s_last_run : option string }.

(** [ProgressManager.get_summary] *)
Definition get_summary : M Summary :=
  progress <- load_progress ;;
  modify update_counts ;;;
  let progress := update_counts progress in
  ret {| s_project_name := project_name progress;
         s_total_endpoints := total_endpoints progress;
         s_completed := completed_count progress;
         s_pending := pending_count progress;
         s_failed := failed_count progress;
         s_last_run := last_run progress |}.

(** *** Sequences of calls on one manager *)

Inductive Call : Type :=
| Sync (eps : list CodeReader.EndpointInfo)
| NextBatch (batch_size : Z)
| Claim (endpoint_id : string)
| Complete (endpoint_id doc_file : string)
| Fail (endpoint_id error_message : string)
| ResetFailed
| CompletedDocs
| GetSummary.

Inductive Reply : Type :=
| Nothing
| Batch (l : list EndpointProgress)
| Docs (l : list string)
| Counts (s : Summary).

Definition call (c : Call) : M Reply :=
  match c with
  | Sync eps => sync_endpoints eps ;;; ret Nothing
  | NextBatch n => l <- get_next_endpoints n ;; ret (Batch l)
  | Claim i => mark_in_progress i ;;; ret Nothing
  | Complete i d => mark_completed i d ;;; ret Nothing
  | Fail i e => mark_failed i e ;;; ret Nothing
  | ResetFailed => reset_failed ;;; ret Nothing
  | CompletedDocs => l <- get_completed_docs ;; ret (Docs l)
  | GetSummary => s <- get_summary ;; ret (Counts s)
  end.

(** Something else replaces the content of the progress file. *)
Definition overwritten (text : option string) (st : State) : State :=
  {| _progress := _progress st; file := text; reads := reads st;
     contents := contents st; ticks := ticks st |}.

(** A run of the manager: its calls, and between them what other
    writers do to the file. *)
Inductive Event : Type :=
| Does (c : Call)
| Elsewhere (text : option string).

Fixpoint run (evs : list Event) (st : State) : list (result Reply) * State :=
  match evs with
  | [] => ([], st)
  | Does c :: evs' =>
      let '(r, st') := call c st in
      let '(rs, st'') := run evs' st' in
      (r :: rs, st'')
  | Elsewhere text :: evs' => run evs' (overwritten text st)
  end.

End Manager.

End ProgressManager.

(* ===================================================================== *)
(** ** Notions the statements about the manager use *)
(* ===================================================================== *)

Module ManagerSpec.

Import ProgressManager.

(** The document [save_progress] writes for store [p]. *)
Definition document (p : AnalysisProgress) : string :=
  Json.dumps (to_dict (update_counts p)).

(** The state a save of store [p] leaves, [n] clock readings after
    [st]: the file was emptied, then given the document. *)
Definition persisted (st : State) (n : nat) (p : AnalysisProgress) : State :=
  {| _progress := Some (update_counts p);
     file := Some (document p);
     reads := reads st;
     contents := contents st ++ [EmptyString; document p];
     ticks := n + ticks st |}.

(** Is [s] one of the three statuses [update_counts] counts? *)
Definition counted (s : string) : bool :=
  String.eqb s "completed" || String.eqb s "failed" || String.eqb s "pending".

(** The number of records [update_counts] puts in none of its three
    counters: those in progress (and any with a status unknown to it). *)
Definition uncounted (d : Endpoints) : Z :=
  Z.of_nat (length (filter (fun ep => negb (counted (status ep))) (values d))).

(** The status stored under [id] in the manager's store. *)
Definition status_of (id : string) (st : State) : option string :=
  match _progress st with
  | Some p => option_map status (getitem id (endpoints p))
  | None => None
  end.

(** The record stored under [id] in the manager's store. *)
Definition record_of (id : string) (st : State) : option EndpointProgress :=
  match _progress st with
  | Some p => getitem id (endpoints p)
  | None => None
  end.

(** Ascending order of the pairs (owning file path, display name). *)
Definition key_le (a b : EndpointProgress) : Prop :=
  String_as_OT.lt (file_path a) (file_path b)
  \/ (file_path a = file_path b
      /\ (String_as_OT.lt (endpoint_name a) (endpoint_name b)
          \/ endpoint_name a = endpoint_name b)).

(** Does call [c] change store [p]?  Sync and reset always end in a
    save; claiming, completing and failing act on a record that is in
    the store and pass over an identity that is not. *)
Definition mutates (c : Call) (p : AnalysisProgress) : bool :=
  match c with
  | Sync _ | ResetFailed => true
  | Claim i | Complete i _ | Fail i _ => contains i (endpoints p)
  | NextBatch _ | CompletedDocs | GetSummary => false
  end.

(** The calls of a run, without what happens elsewhere. *)
Definition calls_only (evs : list Event) : list Event :=
  filter (fun e => match e with Does _ => true | Elsewhere _ => false end) evs.

(** Two states that differ at most in the content of the file. *)
Definition same_manager (st st' : State) : Prop :=
  _progress st = _progress st' /\ reads st = reads st'
  /\ contents st = contents st' /\ ticks st = ticks st'.

End ManagerSpec.

(* ===================================================================== *)
(** ** Concrete inputs used by the examples *)
(* ===================================================================== *)

Module Examples.

Import ProgressManager.

Definition dq : string := String Re.dquote EmptyString.
Definition newline : string := String Py.nl EmptyString.

(** A configuration made in [/work] for [proj] and [out]. *)
Definition cfg : Config.AnalyzerConfig := Config.make "/work" "proj" "out".

(** A clock whose [n]-th reading is [T] followed by [n]. *)
Definition clk (n : nat) : string :=
  ("T" ++ NilZero.string_of_uint (Nat.to_uint n))%string.

(** A reader that finds every document malformed. *)
Definition unreadable (text t : string) : option AnalysisProgress := None.

Definition record (id nm file st : string) (doc : option string) : EndpointProgress :=
  {| endpoint_id := id; endpoint_name := nm; endpoint_type := "http";
     file_path := file; status := st; doc_file := doc; started_at := None;
     completed_at := None; error_message := None; retry_count := 0 |}.

Definition store_of (d : Endpoints) : AnalysisProgress :=
  {| project_name := "proj"; code_dir := "/work/proj"; output_dir := "/work/out";
     total_endpoints := 0; completed_count := 0; failed_count := 0;
     pending_count := 0; last_run := None; created_at := "T0"; endpoints := d |}.

(** A manager that has loaded store [p]; the file holds [text]. *)
Definition loaded (p : AnalysisProgress) (text : option string) : State :=
  {| _progress := Some p; file := text; reads := 0; contents := []; ticks := 1 |}.

(** A manager just constructed, with no progress file yet. *)
Definition fresh : State :=
  {| _progress := None; file := None; reads := 0; contents := []; ticks := 0 |}.

(** One pending record [X]. *)
Definition one_pending : AnalysisProgress :=
  store_of [("X", record "X" "getX" "a.go" "pending" None)].

(** One completed and one in-progress record. *)
Definition claimed : AnalysisProgress :=
  store_of [("D", record "D" "getD" "a.go" "completed" (Some "d.md"));
            ("W", record "W" "getW" "a.go" "in_progress" None)].

(** Four more records, in three files; [B] is not pending. *)
Definition backlog : AnalysisProgress :=
  store_of [("A", record "A" "list" "b.go" "pending" None);
            ("B", record "B" "get" "a.go" "failed" None);
            ("C", record "C" "put" "a.go" "pending" None);
            ("E", record "E" "del" "a.go" "pending" None);
            ("F", record "F" "add" "c.go" "pending" None)].

(** *** Source files *)

Fixpoint unlines (ls : list string) : string :=
  match ls with
  | [] => EmptyString
  | l :: ls' => (l ++ newline ++ unlines ls')%string
  end.

Definition source (rel lang : string) (ls : list string) : CodeReader.CodeFile :=
  {| CodeReader.cf_path := PosixPath.join "/work/proj" rel;
     CodeReader.relative_path := rel;
     CodeReader.content := unlines ls;
     CodeReader.language := lang;
     CodeReader.size := String.length (unlines ls) |}.

(** The route registration of the scenario. *)
Definition route_line : string :=
  ("    r.GET(" ++ dq ++ "/users/:id" ++ dq ++ ", getUser)")%string.

(** A Go file with the registration on line 10 and the handler declared
    on line 14. *)
Definition main_go : CodeReader.CodeFile :=
  source "main.go" "go"
    [ "package main";
      "";
      ("import " ++ dq ++ "github.com/gin-gonic/gin" ++ dq)%string;
      "";
      "func main() {";
      "    r := gin.Default()";
      "";
      "    // routes";
      "";
      route_line;
      "    r.Run()";
      "}";
      "";
      "func getUser(c *gin.Context) {";
      "}" ].

(** A Go file with the registration on line 10 and the handler declared
    in another file. *)
Definition routes_go : CodeReader.CodeFile :=
  source "routes.go" "go"
    [ "package main";
      "";
      "func routes(r *gin.Engine) {";
      "";
      "";
      "";
      "";
      "";
      "";
      route_line;
      "}" ].

(** The candidate the scenario's registration gives, up to the owning
    function, the display name and the file. *)
Definition users_route (fn nm file : string) : CodeReader.EndpointInfo :=
  {| CodeReader.name := nm; CodeReader.type := "http";
     CodeReader.method := Some "GET"; CodeReader.path := Some "/users/:id";
     CodeReader.file_path := file; CodeReader.line_number := 10;
     CodeReader.function_name := fn; CodeReader.service_name := None;
     CodeReader.description := None |}.

(** A service declaration, and three lines below it a method. *)
Definition users_proto : CodeReader.CodeFile :=
  source "users.proto" "protobuf"
    [ "service Users {";
      "  // lookups";
      "";
      "  rpc GetUser(GetUserRequest) returns (User);";
      "}" ].

(** The same, followed by a second service. *)
Definition shop_proto : CodeReader.CodeFile :=
  source "shop.proto" "protobuf"
    [ "service Users {";
      "  // lookups";
      "";
      "  rpc GetUser(GetUserRequest) returns (User);";
      "}";
      "service Orders {";
      "  rpc GetOrder(GetOrderRequest) returns (Order);";
      "}" ].

(** A method before any service declaration. *)
Definition early_proto : CodeReader.CodeFile :=
  source "early.proto" "protobuf"
    [ "rpc Ping(Empty) returns (Empty);";
      "service Health {";
      "}" ].

(** The project and, beside it, a directory whose name starts with the
    project's. *)
Definition disk : CodeReader.FileSystem :=
  {| CodeReader.cwd := "/work";
     CodeReader.files :=
       [ ("/work/proj/main.go", "package main");
         ("/work/proj-secrets/key.py", "TOKEN = 1");
         ("/etc/passwd", "root") ] |}.

End Examples.

(* ===================================================================== *)
(** ** What the detection and the reader are measured against *)
(* ===================================================================== *)

Module DetectionSpec.

Import CodeReader.

(** A candidate whose line is that of a match in the file. *)
Definition placed_in (code_file : CodeFile) (ep : EndpointInfo) : Prop :=
  1 <= line_number ep <= length (Py.split Py.nl (content code_file))
  /\ file_path ep = relative_path code_file.

(** Every candidate of the files, in the order of detection. *)
Definition detected (files : list CodeFile) : list EndpointInfo :=
  flat_map (fun cf => _find_http_endpoints cf ++ _find_grpc_endpoints cf) files.

(** Two texts that agree on the six lines from [line_num] on. *)
Definition same_window (line_num : nat) (lines lines' : list string) : Prop :=
  forall i, line_num - 1 <= i < line_num + 5 -> nth_error lines i = nth_error lines' i.

(** The caches a reader can hold: empty at first, then whatever its reads
    leave, whatever the disk looks like at each read. *)
Inductive built (config : Config.AnalyzerConfig) : Cache -> Prop :=
| built_empty : built config []
| built_read c fs file_path :
    built config c -> built config (snd (read_file config fs c file_path)).

(** The test of [read_file], for a code directory given by an absolute
    path: the normal form of [path] starts with that of the directory. *)
Definition under_root (config : Config.AnalyzerConfig) (path : string) : Prop :=
  Py.startswith (PosixPath.normpath path)
                (PosixPath.normpath (Config.code_dir config)) = true.

(** *** The texts a pattern matches, and calls on a string literal *)

(** [matches r s]: [s], the whole of it, is a text that pattern [r]
    matches. *)
Inductive matches : Re.regex -> string -> Prop :=
| matches_eps : matches Re.Eps EmptyString
| matches_chr p a : p a = true -> matches (Re.Chr p) (String a EmptyString)
| matches_seq a b s t : matches a s -> matches b t -> matches (Re.Seq a b) (s ++ t)
| matches_alt_l a b s : matches a s -> matches (Re.Alt a b) s
| matches_alt_r a b s : matches b s -> matches (Re.Alt a b) s
| matches_star_nil a : matches (Re.Star a) EmptyString
| matches_star_more a s t :
    matches a s -> matches (Re.Star a) t -> matches (Re.Star a) (s ++ t)
| matches_group i a s : matches a s -> matches (Re.Group i a) s.

(** Every character of [s] is in class [p]. *)
Fixpoint all (p : ascii -> bool) (s : string) : bool :=
  match s with
  | EmptyString => true
  | String a s' => p a && all p s'
  end.

(** One of the two quote characters. *)
Definition is_quote (a : ascii) : bool :=
  existsb (Ascii.eqb a) ["'"%char; Re.dquote].

(** Does [s] start, after optional white space, with a quote character? *)
Fixpoint starts_literal (s : string) : bool :=
  match s with
  | EmptyString => false
  | String a s' =>
      if is_quote a then true
      else if Re.is_space a then starts_literal s' else false
  end.

(** The offsets in [s], counted from [pos], of the opening parentheses that
    are followed, after optional white space, by a quote character: the
    calls whose first argument starts as a string literal. *)
Fixpoint literal_calls_from (pos : nat) (s : string) : list nat :=
  match s with
  | EmptyString => []
  | String a s' =>
      (if Ascii.eqb a "("%char && starts_literal s' then [pos] else [])
        ++ literal_calls_from (S pos) s'
  end.

Definition literal_calls (s : string) : list nat := literal_calls_from 0 s.

(** Does [needle] occur in [hay]? *)
Fixpoint contains_text (needle hay : string) : bool :=
  String.prefix needle hay
  || match hay with
     | EmptyString => false
     | String _ hay' => contains_text needle hay'
     end.

(** The verbs of the route rules of the Go table. *)
Definition go_verbs : list string :=
  ["GET"; "POST"; "PUT"; "DELETE"; "PATCH"; "HEAD"; "OPTIONS";
   "Get"; "Post"; "Put"; "Delete"; "Patch"].

(** The part of the registration of the scenario that a route rule
    matches, the groups of that match, and the match in a text where
    [before] and four blanks precede it. *)
Definition route_call : string :=
  ("r.GET(" ++ Examples.dq ++ "/users/:id" ++ Examples.dq)%string.

Definition route_groups : Re.captures :=
  [(3, "/users/:id"); (2, "GET"); (1, "r")].

Definition route_match (before : string) : Re.Match :=
  Re.mkMatch (String.length (before ++ "    ")) (String.length route_call)
             route_groups.

End DetectionSpec.

(* ===================================================================== *)
(** ** What the store of the manager is measured against *)
(* ===================================================================== *)

Module StoreSpec.

Import ProgressManager.

(** The keys of the dictionary are distinct, and each record is stored
    under its own [endpoint_id]. *)
Definition keyed_by_id (d : Endpoints) : Prop :=
  NoDup (map fst d) /\ Forall (fun kv => endpoint_id (snd kv) = fst kv) d.

(** The four statuses the code writes. *)
Definition known (s : string) : Prop :=
  s = "pending" \/ s = "in_progress" \/ s = "completed" \/ s = "failed".

Definition statuses_known (d : Endpoints) : Prop :=
  Forall (fun ep => known (status ep)) (values d).

(** What one method call can make of the dictionary. *)
Inductive evolves (d : Endpoints) : Endpoints -> Prop :=
| evolves_same : evolves d d
| evolves_sync eps : evolves d (fold_left add_new eps d)
| evolves_claim id t : evolves d (mutate id (claim t) d)
| evolves_complete id doc t : evolves d (mutate id (complete doc t) d)
| evolves_fail id msg : evolves d (mutate id (fail msg) d)
| evolves_reset : evolves d (map (fun kv => (fst kv, reset (snd kv))) d).

(** The sort key of a record is [k]. *)
Definition has_key (k : string * string) (ep : EndpointProgress) : bool :=
  String.eqb (file_path ep) (fst k) && String.eqb (endpoint_name ep) (snd k).

(** The three calls that take a record out of the pending ones. *)
Definition takes_up (c : Call) (id : string) : Prop :=
  c = Claim id \/ (exists doc, c = Complete id doc) \/ (exists msg, c = Fail id msg).

(** The pending records of a store, in the order of its dictionary. *)
Definition pending_of (p : AnalysisProgress) : list EndpointProgress :=
  filter is_pending (values (endpoints p)).

End StoreSpec.

(* ===================================================================== *)
(** ** [analyzer.py]: the driver of one batch *)
(* ===================================================================== *)

Module Analyzer.

Import Py.

(** The objects a [CodeAnalyzerAgent] holds and the world it writes: its
    progress manager (with the progress file), the cache of its code
    reader, the documents written so far, oldest first, each with its
    path, the number of calls of [agent.run] so far, and the number of
    files written so far. *)
Record World := mkWorld
  { progress_manager : ProgressManager.State;
    code_reader : CodeReader.Cache;
    documents : list (string * string);
    runs : nat;
    writes : nat }.

(** How a call ends: it returns; or it raises an [Exception], which
    [except Exception] catches; or it raises another [BaseException]
    ([KeyboardInterrupt], [SystemExit]), which [except Exception] lets
    through.  The string is [str(e)]. *)
Inductive outcome (A : Type) : Type :=
| Returns (a : A)
| Fails (msg : string)
| Exits (msg : string).
Arguments Returns {A} a.
Arguments Fails {A} msg.
Arguments Exits {A} msg.

(** What [run_batch] returns: [results] and [summary] are absent from the
    dictionary of an empty batch. *)
Record BatchResult := mkBatchResult
  { b_status : string;
    b_analyzed : nat;
    b_results : option (list (string * bool * option string));
    b_summary : option ProgressManager.Summary }.

Definition W (A : Type) : Type := World -> outcome A * World.

Definition ret {A} (a : A) : W A := fun w => (Returns a, w).

Definition bind {A B} (m : W A) (f : A -> W B) : W B :=
  fun w =>
    match m w with
    | (Returns a, w') => f a w'
    | (Fails msg, w') => (Fails msg, w')
    | (Exits msg, w') => (Exits msg, w')
    end.

Local Notation "x <- m ;; f" := (bind m (fun x => f))
  (at level 61, m at next level, right associativity).
Local Notation "m ;;; f" := (bind m (fun _ => f))
  (at level 61, right associativity).

(** [try: body except Exception as e: handler(str(e))] *)
Definition try_except {A} (body : W A) (handler : string -> W A) : W A :=
  fun w =>
    match body w with
    | (Fails msg, w') => handler msg w'
    | out => out
    end.

(** [raise Exception(msg)] *)
Definition raise {A} (msg : string) : W A := fun w => (Fails msg, w).

Section Agent.

Variable config : Config.AnalyzerConfig.
Variable clock : nat -> string.
Variable from_json : string -> string -> option ProgressManager.AnalysisProgress.

(** [stamp n]: what the [n]-th call of [datetime.now()] gives when
    formatted by [strftime("%Y%m%d_%H%M%S")]. *)
Variable stamp : nat -> string.

(** The source tree. *)
Variable fs : CodeReader.FileSystem.

(** [agent n name type details path cache]: the [n]-th call of
    [agent.run], on the prompt that [ANALYSIS_PROMPT.format] makes of these
    four: how it ends, with the text of the reply if it returns, and the
    cache of the code reader after it, which the tools of the agent share.
    The agent is no function of its prompt, and it has no access to the
    progress manager.  An interrupt is one that arrives while the agent
    runs, which is where the time of an analysis goes. *)
Variable agent :
  nat -> string -> string -> string -> string -> CodeReader.Cache ->
  outcome string * CodeReader.Cache.

(** [write_error n path]: when the [n]-th writing of a file, which is
    that of the file [path], raises an [OSError]: its message, and what it
    leaves of the file, which is [None] when the file could not be opened
    and is as it was, or the text that was written when the error came. *)
Variable write_error : nat -> string -> option (string * option string).

(** What a method of the manager returns or raises; a method raises no
    [BaseException] of its own. *)
Definition of_result {A} (r : result A) : outcome A :=
  match r with
  | Ok a => Returns a
  | Raise msg => Fails msg
  end.

(** Did the method that led from [st] to [st'] write the progress file? *)
Definition saved (st st' : ProgressManager.State) : bool :=
  negb (length (ProgressManager.contents st')
        =? length (ProgressManager.contents st)).

(** A call of a method of [self.progress_manager].  The save of a method
    that saves is its last statement, after the store is changed and its
    counters are recomputed: when the writing of the progress file fails
    the method raises there, the store in memory is as the method made it,
    and the file is what the failed writing left. *)
Definition manager {A} (m : ProgressManager.M A) : W A :=
  fun w =>
    let st := progress_manager w in
    let '(r, st') := m st in
    let out := of_result r in
    if saved st st' then
      match write_error (writes w) (Config.progress_file_path config) with
      | Some (msg, partial) =>
          (Fails msg,
           {| progress_manager :=
                {| ProgressManager._progress := ProgressManager._progress st';
                   ProgressManager.file :=
                     match partial with
                     | Some text => Some text
                     | None => ProgressManager.file st
                     end;
                   ProgressManager.reads := ProgressManager.reads st';
                   ProgressManager.contents :=
                     ProgressManager.contents st
                       ++ match partial with
                          | Some text => [EmptyString; text]
                          | None => []
                          end;
                   ProgressManager.ticks := ProgressManager.ticks st' |};
              code_reader := code_reader w; documents := documents w;
              runs := runs w; writes := S (writes w) |})
      | None =>
          (out,
           {| progress_manager := st'; code_reader := code_reader w;
              documents := documents w; runs := runs w; writes := S (writes w) |})
      end
    else
      (out,
       {| progress_manager := st'; code_reader := code_reader w;
          documents := documents w; runs := runs w; writes := writes w |}).

(** [self.code_reader.read_file(file_path)] *)
Definition read_file (file_path : string) : W (option CodeReader.CodeFile) :=
  fun w =>
    let '(r, cache) := CodeReader.read_file config fs (code_reader w) file_path in
    (match r with
     | Ok code_file => Returns code_file
     | Raise _ =>
         Fails ("Access denied: " ++ file_path ++ " is outside code directory")%string
     end,
     {| progress_manager := progress_manager w; code_reader := cache;
        documents := documents w; runs := runs w; writes := writes w |}).

(** [self.agent.run(prompt)] and the text of the response. *)
Definition run_agent (endpoint_name endpoint_type endpoint_details file_path : string)
  : W string :=
  fun w =>
    let '(response, cache) :=
      agent (runs w) endpoint_name endpoint_type endpoint_details file_path
            (code_reader w) in
    (response,
     {| progress_manager := progress_manager w; code_reader := cache;
        documents := documents w; runs := S (runs w); writes := writes w |}).

(** [CodeAnalyzerAgent._save_document]: two readings of the clock, one
    for the file name and one for the header, then the file is written. *)
Definition _save_document (endpoint : ProgressManager.EndpointProgress)
           (content : string) : W string :=
  fun w =>
    let st := progress_manager w in
    let safe_name :=
      Py.replace "}" ""
        (Py.replace "{" ""
           (Py.replace ":" "_"
              (Py.replace "/" "_" (ProgressManager.endpoint_name endpoint)))) in
    let timestamp := stamp (ProgressManager.ticks st) in
    let filename :=
      (ProgressManager.endpoint_type endpoint ++ "_" ++ safe_name ++ "_"
         ++ timestamp ++ ".md")%string in
    let doc_path := PosixPath.join (Config.output_dir config) filename in
    let nl := String Py.nl EmptyString in
    let header :=
      ("---" ++ nl
         ++ "endpoint_id: " ++ ProgressManager.endpoint_id endpoint ++ nl
         ++ "endpoint_name: " ++ ProgressManager.endpoint_name endpoint ++ nl
         ++ "endpoint_type: " ++ ProgressManager.endpoint_type endpoint ++ nl
         ++ "file_path: " ++ ProgressManager.file_path endpoint ++ nl
         ++ "generated_at: " ++ clock (S (ProgressManager.ticks st)) ++ nl
         ++ "---" ++ nl ++ nl)%string in
    let st' :=
      {| ProgressManager._progress := ProgressManager._progress st;
         ProgressManager.file := ProgressManager.file st;
         ProgressManager.reads := ProgressManager.reads st;
         ProgressManager.contents := ProgressManager.contents st;
         ProgressManager.ticks := S (S (ProgressManager.ticks st)) |} in
    match write_error (writes w) doc_path with
    | Some (msg, partial) =>
        (Fails msg,
         {| progress_manager := st'; code_reader := code_reader w;
            documents :=
              documents w ++ match partial with
                             | Some text => [(doc_path, text)]
                             | None => []
                             end;
            runs := runs w; writes := S (writes w) |})
    | None =>
        (Returns filename,
         {| progress_manager := st'; code_reader := code_reader w;
            documents := documents w ++ [(doc_path, (header ++ content)%string)];
            runs := runs w; writes := S (writes w) |})
    end.

(** The body of the [try] of [analyze_endpoint]. *)
Definition analysis (endpoint : ProgressManager.EndpointProgress)
  : W (option string) :=
  let file_path := ProgressManager.file_path endpoint in
  code_file <- read_file file_path ;;
  match code_file with
  | None => raise ("无法读取文件: " ++ file_path)%string
  | Some _ =>
      let endpoint_details :=
        if String.eqb (ProgressManager.endpoint_type endpoint) "http"
        then "HTTP接口" else "gRPC服务方法" in
      analysis_result <-
        run_agent (ProgressManager.endpoint_name endpoint)
                  (ProgressManager.endpoint_type endpoint)
                  endpoint_details file_path ;;
      doc_file <- _save_document endpoint analysis_result ;;
      manager (ProgressManager.mark_completed config clock from_json
                 (ProgressManager.endpoint_id endpoint) doc_file) ;;;
      ret (Some doc_file)
  end.

(** The body of its [except Exception as e], with [error_msg = str(e)]. *)
Definition on_error (endpoint : ProgressManager.EndpointProgress)
           (error_msg : string) : W (option string) :=
  manager (ProgressManager.mark_failed config clock from_json
             (ProgressManager.endpoint_id endpoint) error_msg) ;;;
  ret None.

(** [CodeAnalyzerAgent.analyze_endpoint]: the claim is made before the
    [try]. *)
Definition analyze_endpoint (endpoint : ProgressManager.EndpointProgress)
  : W (option string) :=
  manager (ProgressManager.mark_in_progress config clock from_json
             (ProgressManager.endpoint_id endpoint)) ;;;
  try_except (analysis endpoint) (on_error endpoint).

(** The loop of [run_batch] over the batch. *)
Fixpoint analyze_all (batch : list ProgressManager.EndpointProgress)
         (results : list (string * bool * option string))
  : W (list (string * bool * option string)) :=
  match batch with
  | [] => ret results
  | endpoint :: rest =>
      doc_file <- analyze_endpoint endpoint ;;
      analyze_all rest
        (results ++ [(ProgressManager.endpoint_name endpoint,
                      match doc_file with Some _ => true | None => false end,
                      doc_file)])
  end.

(** [CodeAnalyzerAgent.run_batch], for a batch size that is given. *)
Definition run_batch (batch_size : Z) : W BatchResult :=
  next_batch <-
    manager (ProgressManager.get_next_endpoints config clock from_json batch_size) ;;
  match next_batch with
  | [] => ret {| b_status := "completed"; b_analyzed := 0;
                 b_results := None; b_summary := None |}
  | _ :: _ =>
      results <- analyze_all next_batch [] ;;
      summary <- manager (ProgressManager.get_summary config clock from_json) ;;
      ret {| b_status := "in_progress"; b_analyzed := length results;
             b_results := Some results; b_summary := Some summary |}
  end.

End Agent.

End Analyzer.

(* ===================================================================== *)
(** ** More values for the scenarios *)
(* ===================================================================== *)

Module Samples.

Import ProgressManager Examples.

(** A Python servicer with one method. *)
Definition users_py : CodeReader.CodeFile :=
  source "users.py" "python"
    [ "class UsersServicer(object):";
      "    def GetUser(self, request, context):";
      "        pass" ].

(** The lines of [main.go], and the same with another first line. *)
Definition main_lines : list string :=
  Py.split Py.nl (CodeReader.content main_go).

Definition main_lines' : list string := "package server" :: tl main_lines.

(** A route whose path has a parameter in braces. *)
Definition item_route : CodeReader.EndpointInfo :=
  {| CodeReader.name := "getItem"; CodeReader.type := "http";
     CodeReader.method := Some "GET"; CodeReader.path := Some "/items/{id}";
     CodeReader.file_path := "main.go"; CodeReader.line_number := 3;
     CodeReader.function_name := "getItem"; CodeReader.service_name := None;
     CodeReader.description := None |}.

(** A new manager beside a progress file that holds half a document. *)
Definition beside_torn_file : State :=
  {| _progress := None; file := Some "{"; reads := 0; contents := []; ticks := 0 |}.

(** Two pending records: the file of [M] is on the disk of the examples,
    the file of [N] is not. *)
Definition two_pending : AnalysisProgress :=
  store_of [("M", record "M" "main" "main.go" "pending" None);
            ("N", record "N" "getN" "gone.go" "pending" None)].

(** An agent that answers every prompt with the same text and reads
    nothing, and a disk on which every file can be written. *)
Definition laconic (n : nat) (name type details path : string) (c : CodeReader.Cache)
  : Analyzer.outcome string * CodeReader.Cache := (Analyzer.Returns "# Analysis", c).

Definition writable (n : nat) (path : string) : option (string * option string) :=
  None.

(** An agent that is interrupted at its first call. *)
Definition interrupted (n : nat) (name type details path : string)
           (c : CodeReader.Cache)
  : Analyzer.outcome string * CodeReader.Cache :=
  match n with
  | 0 => (Analyzer.Exits "KeyboardInterrupt", c)
  | _ => (Analyzer.Returns "# Analysis", c)
  end.

(** A disk that is full when the second file is written, if that is the
    progress file: an opening brace is all that gets written. *)
Definition full_once (n : nat) (path : string) : option (string * option string) :=
  match n with
  | 1 => if String.eqb path (Config.progress_file_path cfg)
         then Some ("No space left on device", Some "{") else None
  | _ => None
  end.

(** The agent's objects around a manager. *)
Definition world (st : State) : Analyzer.World :=
  {| Analyzer.progress_manager := st; Analyzer.code_reader := [];
     Analyzer.documents := []; Analyzer.runs := 0; Analyzer.writes := 0 |}.

(** The first nine lines of [main.go], and what follows line 10. *)
Definition main_before : string :=
  unlines [ "package main";
            "";
            ("import " ++ dq ++ "github.com/gin-gonic/gin" ++ dq)%string;
            "";
            "func main() {";
            "    r := gin.Default()";
            "";
            "    // routes";
            "" ].

Definition main_after : string :=
  (newline ++ unlines [ "    r.Run()";
                        "}";
                        "";
                        "func getUser(c *gin.Context) {";
                        "}" ])%string.

End Samples.

(* ===================================================================== *)
(** ** The progress manager: basic facts *)
(* ===================================================================== *)

Section ManagerFacts.

Import ProgressManager.
Import ManagerSpec.
Import Py.

Variable config : Config.AnalyzerConfig.
Variable clock : nat -> string.
Variable from_json : string -> string -> option AnalysisProgress.

Local Abbreviation load_progress := (load_progress config clock from_json).
Local Abbreviation call := (call config clock from_json).
Local Abbreviation run := (run config clock from_json).

(** Unfold the plumbing of a method down to states and results. *)
Ltac plumbing :=
  cbv beta iota zeta delta
    [bind ret modify now set_progress read_document write_document
     _create_new_progress on_endpoint
     _progress file reads contents ticks option_map].

Lemma update_counts_idem (p : AnalysisProgress) :
  update_counts (update_counts p) = update_counts p.
Proof. reflexivity. Qed.

Lemma load_progress_loaded (st : State) (p : AnalysisProgress) :
  _progress st = Some p -> load_progress st = (Ok p, st).
Proof. intros H. unfold ProgressManager.load_progress. now rewrite H. Qed.

(** Loading always succeeds and leaves the store in the manager; it
    touches neither the file nor the log, and opens the file at most
    once, and only if nothing was loaded before. *)
Lemma load_progress_spec (st : State) :
  exists p st1,
    load_progress st = (Ok p, st1)
    /\ _progress st1 = Some p
    /\ file st1 = file st
    /\ contents st1 = contents st
    /\ reads st <= reads st1
    /\ reads st1 <= reads st + match _progress st with Some _ => 0 | None => 1 end.
Proof.
  destruct st as [pr f r c t]; unfold ProgressManager.load_progress; simpl.
  destruct pr as [p|].
  - exists p; eexists; split; [reflexivity|]; repeat split; simpl; lia.
  - destruct f as [text|]; plumbing.
    + destruct (from_json text (clock t)) as [p|];
        eexists; eexists; (split; [reflexivity|]); repeat split; simpl; lia.
    + eexists; eexists; (split; [reflexivity|]); repeat split; simpl; lia.
Qed.

(** Every method starts by loading, so it behaves as it does on the
    state the load leaves. *)
Lemma load_absorbed {B} (k : AnalysisProgress -> M B) (st : State) :
  bind load_progress k st = bind load_progress k (snd (load_progress st)).
Proof.
  destruct (load_progress_spec st) as (p & st1 & E & Hp & _).
  unfold bind at 1 2. rewrite E; simpl.
  now rewrite (load_progress_loaded st1 p Hp).
Qed.

Lemma save_progress_loaded (st : State) (p : AnalysisProgress) :
  _progress st = Some p -> save_progress st = (Ok tt, persisted st 0 p).
Proof.
  destruct st as [pr f r c t]; simpl; intros ->. reflexivity.
Qed.

(** *** The methods on a manager that has loaded its store *)

Ltac on_loaded st H :=
  destruct st as [pr f r c t]; simpl in H; subst pr;
  cbv beta iota zeta delta
    [ProgressManager.sync_endpoints ProgressManager.mark_in_progress
     ProgressManager.mark_completed ProgressManager.mark_failed
     ProgressManager.reset_failed ProgressManager.get_next_endpoints
     ProgressManager.get_summary ProgressManager.get_completed_docs
     ProgressManager.load_progress ProgressManager.save_progress
     persisted document];
  plumbing.

Lemma sync_endpoints_loaded st p eps :
  _progress st = Some p ->
  sync_endpoints config clock from_json eps st =
    (Ok tt,
     persisted st 0 (set_endpoints p (fold_left add_new eps (endpoints p)))).
Proof. intros H. on_loaded st H. reflexivity. Qed.

Lemma mark_in_progress_loaded st p id :
  _progress st = Some p ->
  mark_in_progress config clock from_json id st =
    if contains id (endpoints p) then
      (Ok tt,
       persisted st 2
         (set_last_run
            (set_endpoints p (mutate id (claim (clock (ticks st))) (endpoints p)))
            (Some (clock (S (ticks st))))))
    else (Ok tt, st).
Proof.
  intros H. on_loaded st H. destruct (contains id (endpoints p)); reflexivity.
Qed.

Lemma mark_completed_loaded st p id doc :
  _progress st = Some p ->
  mark_completed config clock from_json id doc st =
    if contains id (endpoints p) then
      (Ok tt,
       persisted st 1
         (set_endpoints p (mutate id (complete doc (clock (ticks st))) (endpoints p))))
    else (Ok tt, st).
Proof.
  intros H. on_loaded st H. destruct (contains id (endpoints p)); reflexivity.
Qed.

Lemma mark_failed_loaded st p id msg :
  _progress st = Some p ->
  mark_failed config clock from_json id msg st =
    if contains id (endpoints p) then
      (Ok tt, persisted st 0 (set_endpoints p (mutate id (fail msg) (endpoints p))))
    else (Ok tt, st).
Proof.
  intros H. on_loaded st H. destruct (contains id (endpoints p)); reflexivity.
Qed.

Lemma reset_failed_loaded st p :
  _progress st = Some p ->
  reset_failed config clock from_json st =
    (Ok tt,
     persisted st 0
       (set_endpoints p (map (fun kv => (fst kv, reset (snd kv))) (endpoints p)))).
Proof. intros H. on_loaded st H. reflexivity. Qed.

Lemma get_next_endpoints_loaded st p n :
  _progress st = Some p ->
  get_next_endpoints config clock from_json n st = (Ok (next_batch n p), st).
Proof. intros H. on_loaded st H. reflexivity. Qed.

(** *** Dictionary facts *)

Lemma contains_getitem k d :
  contains k d = match getitem k d with Some _ => true | None => false end.
Proof.
  induction d as [|[k' v] d IH]; simpl; [reflexivity|].
  destruct (String.eqb k k'); simpl; auto.
Qed.

Lemma getitem_mutate_same k f d :
  getitem k (mutate k f d) = option_map f (getitem k d).
Proof.
  induction d as [|[k' v] d IH]; simpl; [reflexivity|].
  destruct (String.eqb k k') eqn:E; simpl; rewrite E; auto.
Qed.

Lemma getitem_mutate_other k k' f d :
  k' <> k -> getitem k' (mutate k f d) = getitem k' d.
Proof.
  intros N. induction d as [|[k0 v] d IH]; simpl; [reflexivity|].
  destruct (String.eqb k k0) eqn:E; simpl.
  - apply String.eqb_eq in E; subst k0.
    destruct (String.eqb k' k) eqn:E'; [apply String.eqb_eq in E'; contradiction|reflexivity].
  - destruct (String.eqb k' k0); auto.
Qed.

Lemma getitem_app_l k d d' v :
  getitem k d = Some v -> getitem k (d ++ d') = Some v.
Proof.
  induction d as [|[k0 v0] d IH]; simpl; [discriminate|].
  destruct (String.eqb k k0); auto.
Qed.

Lemma mutate_length k f d : length (mutate k f d) = length d.
Proof.
  induction d as [|[k0 v] d IH]; simpl; [reflexivity|].
  destruct (String.eqb k k0); simpl; auto.
Qed.

Lemma bind_assoc {A B C} (m : M A) (f : A -> M B) (g : B -> M C) st :
  bind (bind m f) g st = bind m (fun x => bind (f x) g) st.
Proof. unfold bind. destruct (m st) as [[a|e] st1]; reflexivity. Qed.

(** A call on any state is the call on the state its load leaves. *)
Lemma call_absorbs_load c st :
  call c st = call c (snd (load_progress st)).
Proof.
  destruct c; unfold ProgressManager.call;
    unfold ProgressManager.sync_endpoints, ProgressManager.get_next_endpoints,
      ProgressManager.mark_in_progress, ProgressManager.mark_completed,
      ProgressManager.mark_failed, ProgressManager.reset_failed,
      ProgressManager.get_completed_docs, ProgressManager.get_summary;
    rewrite !bind_assoc; apply load_absorbed.
Qed.

(** What a call does to a manager that has loaded store [p]: it
    returns, and either it saved some store, or it left the file and
    the log alone and the store with at most its counters recomputed. *)
Lemma call_effect c st p :
  _progress st = Some p ->
  exists r st',
    call c st = (Ok r, st')
    /\ ((exists n p', st' = persisted st n p')
        \/ (contents st' = contents st /\ file st' = file st
            /\ reads st' = reads st
            /\ (_progress st' = Some p \/ _progress st' = Some (update_counts p)))).
Proof.
  intros H.
  destruct c as [eps|n|id|id doc|id msg| | |]; unfold ProgressManager.call, bind at 1.
  - rewrite (sync_endpoints_loaded _ _ _ H). eexists; eexists; split; [reflexivity|].
    left; eauto.
  - rewrite (get_next_endpoints_loaded _ _ _ H).
    eexists; eexists; split; [reflexivity|]. right; auto.
  - rewrite (mark_in_progress_loaded _ _ _ H).
    destruct (contains id (endpoints p));
      eexists; eexists; (split; [reflexivity|]); [left; eauto | right; auto].
  - rewrite (mark_completed_loaded _ _ _ _ H).
    destruct (contains id (endpoints p));
      eexists; eexists; (split; [reflexivity|]); [left; eauto | right; auto].
  - rewrite (mark_failed_loaded _ _ _ _ H).
    destruct (contains id (endpoints p));
      eexists; eexists; (split; [reflexivity|]); [left; eauto | right; auto].
  - rewrite (reset_failed_loaded _ _ H). eexists; eexists; split; [reflexivity|].
    left; eauto.
  - on_loaded st H. eexists; eexists; split; [reflexivity|]. right; auto.
  - on_loaded st H. eexists; eexists; split; [reflexivity|]. right; simpl; auto.
Qed.

(** *** Counters *)

Lemma counts_partition (d : Endpoints) :
  (count_status "completed" d + count_status "failed" d
   + count_status "pending" d + uncounted d = Z.of_nat (length d))%Z.
Proof.
  unfold count_status, uncounted, values.
  induction d as [|[k ep] d IH]; [reflexivity|].
  cbn [map snd filter counted].
  unfold counted at 1.
  destruct (String.eqb_spec (status ep) "completed") as [E|_];
    [rewrite E; cbn [String.eqb Ascii.eqb Bool.eqb orb negb length]; lia|].
  destruct (String.eqb_spec (status ep) "failed") as [E|_];
    [rewrite E; cbn [String.eqb Ascii.eqb Bool.eqb orb negb length]; lia|].
  destruct (String.eqb_spec (status ep) "pending") as [E|_];
    cbn [orb negb length]; lia.
Qed.

Lemma uncounted_nonneg d : (0 <= uncounted d)%Z.
Proof. unfold uncounted. lia. Qed.

Lemma loaded_after_load st :
  exists p, _progress (snd (load_progress st)) = Some p
            /\ contents (snd (load_progress st)) = contents st
            /\ file (snd (load_progress st)) = file st.
Proof.
  destruct (load_progress_spec st) as (p & st1 & E & Hp & Hf & Hc & _).
  rewrite E; simpl; eauto.
Qed.

Lemma mark_in_progress_absorbs_load id st :
  mark_in_progress config clock from_json id st =
  mark_in_progress config clock from_json id (snd (load_progress st)).
Proof. unfold ProgressManager.mark_in_progress. apply load_absorbed. Qed.

(** *** Claiming *)


(** *** Counters and persisting *)

Lemma persisted_grows st n p : contents (persisted st n p) <> contents st.
Proof.
  unfold persisted; simpl. intros E.
  apply (f_equal (@length string)) in E. rewrite length_app in E. simpl in E. lia.
Qed.

(** A call that changes the store saves it. *)
Lemma mutation_persists c st p :
  _progress st = Some p -> mutates c p = true ->
  exists n p', snd (call c st) = persisted st n p'.
Proof.
  intros H Mu.
  destruct c as [eps|n|i|i doc|i msg| | |]; simpl in Mu; try discriminate;
    unfold ProgressManager.call, bind at 1.
  - rewrite (sync_endpoints_loaded _ _ _ H). do 2 eexists; reflexivity.
  - rewrite (mark_in_progress_loaded _ _ _ H), Mu. do 2 eexists; reflexivity.
  - rewrite (mark_completed_loaded _ _ _ _ H), Mu. do 2 eexists; reflexivity.
  - rewrite (mark_failed_loaded _ _ _ _ H), Mu. do 2 eexists; reflexivity.
  - rewrite (reset_failed_loaded _ _ H). do 2 eexists; reflexivity.
Qed.

(** C2, as the code has it: after every call that changes the store
    (sync, reset, and claim, complete or fail of a record that is in the
    store) the store is saved, and the store left, which is the one the
    document shows, has [total_endpoints] equal to the number of records,
    and [completed_count + failed_count + pending_count] plus the number of
    records that are in none of these three statuses (the records in
    progress) equal to [total_endpoints]; the three counters add up to the
    total exactly when no record is in progress. *)
Theorem counters_after_mutation (c : Call) (st : State) (p : AnalysisProgress) :
  _progress (snd (load_progress st)) = Some p ->
  mutates c p = true ->
  let st' := snd (call c st) in
  exists p',
    _progress st' = Some p'
    /\ file st' = Some (Json.dumps (to_dict p'))
    /\ contents st' = contents st ++ [EmptyString; Json.dumps (to_dict p')]
    /\ total_endpoints p' = Z.of_nat (length (endpoints p'))
    /\ (completed_count p' + failed_count p' + pending_count p'
        + uncounted (endpoints p') = total_endpoints p')%Z
    /\ ((completed_count p' + failed_count p' + pending_count p'
         = total_endpoints p')%Z <-> uncounted (endpoints p') = 0%Z).
Proof.
  intros Hp Mu st'. subst st'. rewrite call_absorbs_load.
  destruct (loaded_after_load st) as (q & Hq & Hc & _).
  destruct (mutation_persists c _ p Hp Mu) as (n & p' & ->).
  exists (update_counts p').
  pose proof (counts_partition (endpoints p')) as P.
  cbn [persisted _progress file contents update_counts total_endpoints
       completed_count failed_count pending_count endpoints document].
  rewrite Hc. repeat split; try assumption; lia.
Qed.

Lemma document_not_empty p : document p <> EmptyString.
Proof. unfold document, to_dict, Json.dumps. cbn. discriminate. Qed.

(** C3, as the code has it: a save of a loaded store recomputes the
    counters and then writes the document of the store into the progress
    file itself: the file is first emptied and then given the full text,
    which is never empty.  Nothing is written elsewhere and moved into
    place. *)
Theorem save_progress_empties_then_writes (st : State) (p : AnalysisProgress) :
  _progress st = Some p ->
  let text := Json.dumps (to_dict (update_counts p)) in
  text <> EmptyString
  /\ save_progress st =
       (Ok tt,
        {| _progress := Some (update_counts p);
           file := Some text;
           reads := reads st;
           contents := contents st ++ [EmptyString; text];
           ticks := ticks st |}).
Proof.
  intros H text. split.
  - apply document_not_empty.
  - now rewrite (save_progress_loaded st p H).
Qed.

(** *** Sync *)

Lemma contains_app k d d' : contains k (d ++ d') = contains k d || contains k d'.
Proof. unfold contains. apply existsb_app. Qed.

Lemma add_new_cases d ep :
  (contains (CodeReader.unique_id ep) d = true /\ add_new d ep = d)
  \/ (contains (CodeReader.unique_id ep) d = false
      /\ exists v, add_new d ep = d ++ [(CodeReader.unique_id ep, v)]).
Proof.
  unfold add_new, setitem.
  destruct (contains (CodeReader.unique_id ep) d) eqn:E; simpl; [left|right]; eauto.
Qed.

Lemma contains_self k v d : contains k (d ++ [(k, v)]) = true.
Proof.
  rewrite contains_app. unfold contains at 2. simpl.
  rewrite String.eqb_refl. apply orb_true_r.
Qed.

(** The first loop of [sync_endpoints] only appends. *)
Lemma sync_appends eps d : exists added, fold_left add_new eps d = d ++ added.
Proof.
  revert d. induction eps as [|ep eps IH]; intros d; simpl.
  - exists []. now rewrite app_nil_r.
  - destruct (add_new_cases d ep) as [[_ ->]|[_ [v ->]]].
    + apply IH.
    + destruct (IH (d ++ [(CodeReader.unique_id ep, v)])) as [added ->].
      exists ((CodeReader.unique_id ep, v) :: added). now rewrite <- app_assoc.
Qed.

Lemma sync_covers eps d ep :
  (In ep eps \/ contains (CodeReader.unique_id ep) d = true) ->
  contains (CodeReader.unique_id ep) (fold_left add_new eps d) = true.
Proof.
  revert d. induction eps as [|e eps IH]; intros d [HI|HC]; simpl.
  - destruct HI.
  - exact HC.
  - destruct HI as [->|HI]; [|apply IH; now left].
    apply IH; right.
    destruct (add_new_cases d ep) as [[C ->]|[_ [v ->]]];
      [exact C | apply contains_self].
  - apply IH; right.
    destruct (add_new_cases d e) as [[_ ->]|[_ [v ->]]]; [exact HC|].
    rewrite contains_app, HC. reflexivity.
Qed.

Lemma sync_nothing_new eps d :
  (forall ep, In ep eps -> contains (CodeReader.unique_id ep) d = true) ->
  fold_left add_new eps d = d.
Proof.
  induction eps as [|e eps IH]; intros H; simpl; [reflexivity|].
  destruct (add_new_cases d e) as [[_ ->]|[C _]].
  - apply IH. intros ep HI. apply H. now right.
  - rewrite (H e (or_introl eq_refl)) in C. discriminate.
Qed.

Lemma sync_endpoints_absorbs_load eps st :
  sync_endpoints config clock from_json eps st =
  sync_endpoints config clock from_json eps (snd (load_progress st)).
Proof. unfold ProgressManager.sync_endpoints. apply load_absorbed. Qed.

(** C4: [sync_endpoints] keeps the dictionary it finds as a prefix of
    the one it leaves, so every record already present is left as it was,
    field by field, and none is removed, whatever the candidates are; every
    candidate identity is present afterwards; a completed record keeps its
    status and its document; and a second sync with the same candidates
    changes neither the store nor the document. *)
Theorem sync_endpoints_keeps_records_and_is_idempotent
        (eps : list CodeReader.EndpointInfo) (st : State) :
  let st0 := snd (load_progress st) in
  let st1 := snd (sync_endpoints config clock from_json eps st) in
  let st2 := snd (sync_endpoints config clock from_json eps st1) in
  exists p0 p1,
    _progress st0 = Some p0
    /\ _progress st1 = Some p1
    /\ (exists added, endpoints p1 = endpoints p0 ++ added)
    /\ (forall id ep,
          getitem id (endpoints p0) = Some ep -> getitem id (endpoints p1) = Some ep)
    /\ (forall id ep,
          getitem id (endpoints p0) = Some ep -> status ep = "completed" ->
          status_of id st1 = Some "completed"
          /\ option_map doc_file (record_of id st1) = Some (doc_file ep))
    /\ (forall ep, In ep eps ->
          contains (CodeReader.unique_id ep) (endpoints p1) = true)
    /\ _progress st2 = Some p1
    /\ file st2 = file st1.
Proof.
  intros st0 st1 st2.
  destruct (loaded_after_load st) as (p0 & Hp0 & _). fold st0 in Hp0.
  assert (E1 : st1 = persisted st0 0
                 (set_endpoints p0 (fold_left add_new eps (endpoints p0)))).
  { subst st1. rewrite sync_endpoints_absorbs_load. fold st0.
    now rewrite (sync_endpoints_loaded st0 p0 eps Hp0). }
  set (d1 := fold_left add_new eps (endpoints p0)) in *.
  assert (E2 : st2 = persisted st1 0 (set_endpoints (update_counts (set_endpoints p0 d1)) d1)).
  { subst st2.
    rewrite (sync_endpoints_loaded st1 (update_counts (set_endpoints p0 d1)) eps)
      by (rewrite E1; reflexivity).
    cbn [snd update_counts set_endpoints endpoints].
    rewrite sync_nothing_new; [reflexivity|].
    intros ep HI. apply sync_covers. now left. }
  destruct (sync_appends eps (endpoints p0)) as [added Hadd]. fold d1 in Hadd.
  assert (K : forall id ep,
             getitem id (endpoints p0) = Some ep -> getitem id d1 = Some ep).
  { intros id ep G. rewrite Hadd. now apply getitem_app_l. }
  exists p0, (update_counts (set_endpoints p0 d1)).
  split; [exact Hp0|]. split; [rewrite E1; reflexivity|].
  split; [exists added; exact Hadd|]. split; [exact K|].
  split.
  { intros id ep G S. unfold status_of, record_of. rewrite E1.
    cbn [persisted _progress update_counts set_endpoints endpoints].
    rewrite (K id ep G). simpl. now rewrite S. }
  split; [intros ep HI; apply sync_covers; now left|].
  rewrite E2, E1. split; reflexivity.
Qed.

(** *** Batch selection *)

Lemma key_lt_false_le x y : key_lt (key y) (key x) = false -> key_le x y.
Proof.
  unfold key_lt, key, key_le; simpl.
  destruct (String_as_OT.compare_spec (file_path y) (file_path x)) as [E|L|G];
    [|discriminate|intros _; now left].
  destruct (String_as_OT.compare_spec (endpoint_name y) (endpoint_name x))
    as [E'|L'|G']; [|discriminate|]; intros _; right; split; auto.
Qed.

Lemma key_lt_true_le x y : key_lt (key y) (key x) = true -> key_le y x.
Proof.
  unfold key_lt, key, key_le; simpl.
  destruct (String_as_OT.compare_spec (file_path y) (file_path x)) as [E|L|G];
    [|intros _; now left|discriminate].
  destruct (String_as_OT.compare_spec (endpoint_name y) (endpoint_name x))
    as [E'|L'|G']; [discriminate| |discriminate]; intros _; right; split; auto.
Qed.

Lemma key_le_trans : Relations_1.Transitive key_le.
Proof.
  intros a b c [L1|[E1 N1]] [L2|[E2 N2]]; unfold key_le.
  - left. etransitivity; eassumption.
  - left. now rewrite <- E2.
  - left. now rewrite E1.
  - right. split; [congruence|].
    destruct N1 as [N1|N1], N2 as [N2|N2].
    + left. etransitivity; eassumption.
    + left. now rewrite <- N2.
    + left. now rewrite N1.
    + right. congruence.
Qed.

Lemma insert_perm x l : Permutation (insert x l) (x :: l).
Proof.
  induction l as [|y l IH]; simpl; [reflexivity|].
  destruct (key_lt (key y) (key x)); [|reflexivity].
  rewrite IH. apply perm_swap.
Qed.

Lemma sort_perm l : Permutation (sort l) l.
Proof.
  induction l as [|x l IH]; simpl; [reflexivity|].
  rewrite insert_perm. now constructor.
Qed.

Lemma insert_hd y x l :
  key_le y x -> HdRel key_le y l -> HdRel key_le y (insert x l).
Proof.
  intros Hx Hl. destruct l as [|z l]; simpl; [now constructor|].
  destruct (key_lt (key z) (key x)); constructor; [now inversion Hl|exact Hx].
Qed.

Lemma insert_sorted x l : Sorted key_le l -> Sorted key_le (insert x l).
Proof.
  induction 1 as [|y l S IH H]; simpl; [repeat constructor|].
  destruct (key_lt (key y) (key x)) eqn:E.
  - constructor; [exact IH|]. apply insert_hd; [now apply key_lt_true_le|exact H].
  - constructor; [now constructor|]. constructor. now apply key_lt_false_le.
Qed.

Lemma sort_sorted l : StronglySorted key_le (sort l).
Proof.
  apply Sorted_StronglySorted; [exact key_le_trans|].
  induction l as [|x l IH]; simpl; [constructor|now apply insert_sorted].
Qed.

Lemma Forall_firstn {A} (P : A -> Prop) n (l : list A) :
  Forall P l -> Forall P (firstn n l).
Proof.
  intros H. rewrite <- (firstn_skipn n l) in H. now apply Forall_app in H.
Qed.

Lemma is_pending_status ep : is_pending ep = true <-> status ep = "pending".
Proof. unfold is_pending. apply String.eqb_eq. Qed.

(** A list is its elements that pass a test, followed by those that do
    not, up to order. *)
Lemma filter_rest_perm {A} (f : A -> bool) (l : list A) :
  Permutation (filter f l ++ filter (fun x => negb (f x)) l) l.
Proof.
  induction l as [|x l IH]; [constructor|]. cbn [filter].
  destruct (f x); cbn [negb app].
  - now constructor.
  - apply Permutation_sym, Permutation_cons_app, Permutation_sym, IH.
Qed.

(** C5: for a size [0 <= n], [get_next_endpoints] returns the first
    [n] elements of a list [sorted] that is ascending in (file path,
    display name) and holds exactly the pending records of the store: the
    records of the store are those of [sorted], all of status pending,
    and those of a list [rest], none of status pending.  So it returns at
    most [n] records, all pending, and none when nothing is pending; the
    store is left as loaded, and a second call returns the same list. *)
Theorem get_next_endpoints_selects_sorted_pending (n : Z) (st : State) :
  (0 <= n)%Z ->
  let st0 := snd (load_progress st) in
  exists p sorted rest,
    _progress st0 = Some p
    /\ Permutation (sorted ++ rest) (values (endpoints p))
    /\ Forall (fun ep => status ep = "pending") sorted
    /\ Forall (fun ep => status ep <> "pending") rest
    /\ Permutation sorted (filter is_pending (values (endpoints p)))
    /\ StronglySorted key_le sorted
    /\ get_next_endpoints config clock from_json n st
       = (Ok (firstn (Z.to_nat n) sorted), st0)
    /\ (Z.of_nat (length (firstn (Z.to_nat n) sorted)) <= n)%Z
    /\ Forall (fun ep => status ep = "pending") (firstn (Z.to_nat n) sorted)
    /\ (filter is_pending (values (endpoints p)) = [] ->
        firstn (Z.to_nat n) sorted = [])
    /\ ((forall ep, In ep (values (endpoints p)) -> status ep <> "pending") ->
        firstn (Z.to_nat n) sorted = [])
    /\ get_next_endpoints config clock from_json n st0
       = (Ok (firstn (Z.to_nat n) sorted), st0).
Proof.
  intros Hn st0.
  destruct (loaded_after_load st) as (p & Hp & _). fold st0 in Hp.
  set (pending := filter is_pending (values (endpoints p))).
  exists p, (sort pending),
    (filter (fun ep => negb (is_pending ep)) (values (endpoints p))).
  assert (B : next_batch n p = firstn (Z.to_nat n) (sort pending)).
  { unfold next_batch, take. fold pending.
    destruct (Z.leb_spec 0 n); [reflexivity|lia]. }
  assert (P : Forall (fun ep => status ep = "pending") (sort pending)).
  { apply (Permutation_Forall (Permutation_sym (sort_perm pending))).
    unfold pending. apply Forall_forall. intros ep HI.
    apply filter_In in HI. now apply is_pending_status. }
  split; [exact Hp|]. split.
  { apply (Permutation_trans
             (Permutation_app_tail _ (sort_perm pending))).
    apply filter_rest_perm. }
  split; [exact P|]. split.
  { apply Forall_forall. intros ep HI. apply filter_In in HI. destruct HI as [_ N].
    intros E. apply is_pending_status in E. rewrite E in N. discriminate. }
  split; [apply sort_perm|]. split; [apply sort_sorted|].
  split.
  { unfold ProgressManager.get_next_endpoints. rewrite load_absorbed. fold st0.
    fold (ProgressManager.get_next_endpoints config clock from_json n).
    now rewrite (get_next_endpoints_loaded st0 p n Hp), B. }
  split.
  { pose proof (firstn_le_length (Z.to_nat n) (sort pending)).
    rewrite length_firstn. lia. }
  split; [now apply Forall_firstn|].
  split.
  { intros E. unfold pending in *. rewrite E. simpl. apply firstn_nil. }
  split.
  { intros N. destruct (sort pending) as [|x l] eqn:S; [apply firstn_nil|].
    exfalso. apply (N x).
    - assert (I : In x pending).
      { apply (Permutation_in x (sort_perm pending)). rewrite S. now left. }
      unfold pending in I. now apply filter_In in I.
    - inversion P; assumption. }
  now rewrite (get_next_endpoints_loaded st0 p n Hp), B.
Qed.

(** *** Failing and resetting *)

Lemma getitem_reset id d :
  getitem id (map (fun kv => (fst kv, reset (snd kv))) d)
  = option_map reset (getitem id d).
Proof.
  induction d as [|[k v] d IH]; simpl; [reflexivity|].
  destruct (String.eqb id k); auto.
Qed.

Lemma getitem_mutate_cases id id' f d ep :
  getitem id' d = Some ep ->
  getitem id' (mutate id f d) = Some ep \/ getitem id' (mutate id f d) = Some (f ep).
Proof.
  intros G. destruct (string_dec id' id) as [->|N].
  - right. now rewrite getitem_mutate_same, G.
  - left. now rewrite getitem_mutate_other.
Qed.

Lemma reset_retry ep : retry_count (reset ep) = retry_count ep.
Proof. unfold reset. destruct (String.eqb (status ep) "failed"); reflexivity. Qed.

(** On a loaded store no call lowers a retry count or drops a record. *)
Lemma call_keeps_retries c st p id ep :
  _progress st = Some p ->
  getitem id (endpoints p) = Some ep ->
  exists ep', record_of id (snd (call c st)) = Some ep'
              /\ (retry_count ep <= retry_count ep')%Z.
Proof.
  intros H G. unfold record_of.
  destruct c as [eps|n|i|i doc|i msg| | |]; unfold ProgressManager.call, bind at 1.
  - rewrite (sync_endpoints_loaded _ _ _ H); cbn.
    destruct (sync_appends eps (endpoints p)) as [added ->].
    rewrite (getitem_app_l _ _ _ _ G). eexists; split; [reflexivity|lia].
  - rewrite (get_next_endpoints_loaded _ _ _ H); cbn. rewrite H, G.
    eexists; split; [reflexivity|lia].
  - rewrite (mark_in_progress_loaded _ _ _ H).
    destruct (contains i (endpoints p)); cbn.
    + destruct (getitem_mutate_cases i id (claim (clock (ticks st))) _ _ G) as [->| ->];
        eexists; (split; [reflexivity|simpl; lia]).
    + rewrite H, G. eexists; split; [reflexivity|lia].
  - rewrite (mark_completed_loaded _ _ _ _ H).
    destruct (contains i (endpoints p)); cbn.
    + destruct (getitem_mutate_cases i id (complete doc (clock (ticks st))) _ _ G)
        as [->| ->]; eexists; (split; [reflexivity|simpl; lia]).
    + rewrite H, G. eexists; split; [reflexivity|lia].
  - rewrite (mark_failed_loaded _ _ _ _ H).
    destruct (contains i (endpoints p)); cbn.
    + destruct (getitem_mutate_cases i id (fail msg) _ _ G) as [->| ->];
        eexists; (split; [reflexivity|simpl; lia]).
    + rewrite H, G. eexists; split; [reflexivity|lia].
  - rewrite (reset_failed_loaded _ _ H); cbn.
    rewrite getitem_reset, G. eexists; split; [reflexivity|rewrite reset_retry; lia].
  - on_loaded st H. cbn. rewrite G. eexists; split; [reflexivity|lia].
  - on_loaded st H. cbn. rewrite G. eexists; split; [reflexivity|lia].
Qed.

Lemma mark_failed_absorbs_load id msg st :
  mark_failed config clock from_json id msg st =
  mark_failed config clock from_json id msg (snd (load_progress st)).
Proof. unfold ProgressManager.mark_failed. apply load_absorbed. Qed.

(** C6: failing a record with message [msg] leaves it failed, with
    that message and its retry count raised by one; a following
    [reset_failed] leaves it pending, with no message and the raised retry
    count; [reset_failed] does this to every failed record; and no call
    ever lowers a retry count. *)
Theorem fail_then_reset_bookkeeping
        (id msg : string) (st : State) (ep : EndpointProgress) :
  record_of id (snd (load_progress st)) = Some ep ->
  let st1 := snd (mark_failed config clock from_json id msg st) in
  let st2 := snd (reset_failed config clock from_json st1) in
  (exists ep1, record_of id st1 = Some ep1
               /\ status ep1 = "failed"
               /\ error_message ep1 = Some msg
               /\ retry_count ep1 = (retry_count ep + 1)%Z)
  /\ (exists ep2, record_of id st2 = Some ep2
                  /\ status ep2 = "pending"
                  /\ error_message ep2 = None
                  /\ retry_count ep2 = (retry_count ep + 1)%Z)
  /\ (forall id' ep', record_of id' st1 = Some ep' -> status ep' = "failed" ->
        exists ep'', record_of id' st2 = Some ep''
                     /\ status ep'' = "pending"
                     /\ error_message ep'' = None
                     /\ retry_count ep'' = retry_count ep')
  /\ (forall c s id' ep', record_of id' (snd (load_progress s)) = Some ep' ->
        exists ep'', record_of id' (snd (call c s)) = Some ep''
                     /\ (retry_count ep' <= retry_count ep'')%Z).
Proof.
  intros G st1 st2.
  destruct (loaded_after_load st) as (p & Hp & _).
  unfold record_of in G. rewrite Hp in G.
  assert (C : contains id (endpoints p) = true) by (now rewrite contains_getitem, G).
  assert (E1 : st1 = persisted (snd (load_progress st)) 0
                 (set_endpoints p (mutate id (fail msg) (endpoints p)))).
  { subst st1. rewrite mark_failed_absorbs_load.
    now rewrite (mark_failed_loaded _ p id msg Hp), C. }
  set (d1 := mutate id (fail msg) (endpoints p)) in *.
  assert (R : forall id', record_of id' st2
                          = option_map reset (getitem id' d1)).
  { intros id'. subst st2.
    rewrite (reset_failed_loaded st1 (update_counts (set_endpoints p d1)))
      by (rewrite E1; reflexivity).
    unfold record_of; cbn. apply getitem_reset. }
  assert (G1 : getitem id d1 = Some (fail msg ep))
    by (unfold d1; now rewrite getitem_mutate_same, G).
  split; [|split; [|split]].
  - exists (fail msg ep). unfold record_of. rewrite E1; cbn. fold d1.
    rewrite G1. repeat split.
  - exists (reset (fail msg ep)). rewrite R, G1. repeat split.
  - intros id' ep' G' S. exists (reset ep').
    assert (G'' : getitem id' d1 = Some ep').
    { unfold record_of in G'. rewrite E1 in G'. exact G'. }
    rewrite R, G''. cbn [option_map]. unfold reset. rewrite S. cbn. repeat split.
  - intros c s id' ep' G'.
    destruct (loaded_after_load s) as (q & Hq & _).
    unfold record_of in G'. rewrite Hq in G'.
    rewrite call_absorbs_load. now apply (call_keeps_retries c _ q).
Qed.

(** *** The cached store *)

Lemma persisted_overwritten text st n p :
  persisted (overwritten text st) n p = persisted st n p.
Proof. reflexivity. Qed.

(** With its store loaded, a call pays no attention to the file: it
    replies the same whatever the file holds, and either it saves, which
    replaces the content, or it leaves the content alone. *)
Lemma call_ignores_file c st p text :
  _progress st = Some p ->
  exists r st1,
    call c st = (Ok r, st1)
    /\ ((contents st1 <> contents st
         /\ call c (overwritten text st) = (Ok r, st1))
        \/ (contents st1 = contents st
            /\ call c (overwritten text st) = (Ok r, overwritten text st1))).
Proof.
  intros H.
  assert (H' : _progress (overwritten text st) = Some p) by exact H.
  destruct c as [eps|n|i|i doc|i msg| | |]; unfold ProgressManager.call, bind.
  - rewrite (sync_endpoints_loaded _ _ _ H), (sync_endpoints_loaded _ _ _ H').
    eexists; eexists; split; [reflexivity|]. left. split; [apply persisted_grows|reflexivity].
  - rewrite (get_next_endpoints_loaded _ _ _ H), (get_next_endpoints_loaded _ _ _ H').
    eexists; eexists; split; [reflexivity|]. right. split; reflexivity.
  - rewrite (mark_in_progress_loaded _ _ _ H), (mark_in_progress_loaded _ _ _ H').
    destruct (contains i (endpoints p)); eexists; eexists; (split; [reflexivity|]);
      [left; split; [apply persisted_grows|reflexivity] | right; split; reflexivity].
  - rewrite (mark_completed_loaded _ _ _ _ H), (mark_completed_loaded _ _ _ _ H').
    destruct (contains i (endpoints p)); eexists; eexists; (split; [reflexivity|]);
      [left; split; [apply persisted_grows|reflexivity] | right; split; reflexivity].
  - rewrite (mark_failed_loaded _ _ _ _ H), (mark_failed_loaded _ _ _ _ H').
    destruct (contains i (endpoints p)); eexists; eexists; (split; [reflexivity|]);
      [left; split; [apply persisted_grows|reflexivity] | right; split; reflexivity].
  - rewrite (reset_failed_loaded _ _ H), (reset_failed_loaded _ _ H').
    eexists; eexists; split; [reflexivity|]. left. split; [apply persisted_grows|reflexivity].
  - on_loaded st H. eexists; eexists; split; [reflexivity|]. right. split; reflexivity.
  - on_loaded st H. eexists; eexists; split; [reflexivity|]. right. split; reflexivity.
Qed.

Lemma call_loads_and_reads c st :
  (exists q, _progress (snd (call c st)) = Some q)
  /\ reads st <= reads (snd (call c st))
  /\ reads (snd (call c st))
     <= reads st + match _progress st with Some _ => 0 | None => 1 end.
Proof.
  rewrite call_absorbs_load.
  destruct (load_progress_spec st) as (p & st1 & E & Hp & _ & _ & R1 & R2).
  rewrite E; simpl snd.
  destruct (call_effect c st1 p Hp)
    as (r & st' & E' & [(n & p' & ->)|(_ & _ & HR & HP)]); rewrite E'; simpl snd.
  - split; [eexists; reflexivity|]. simpl; lia.
  - split; [destruct HP as [-> | ->]; eexists; reflexivity|]. lia.
Qed.

Lemma run_does c evs st :
  run (Does c :: evs) st
  = (fst (call c st) :: fst (run evs (snd (call c st))),
     snd (run evs (snd (call c st)))).
Proof.
  simpl. destruct (call c st) as [r st']; simpl.
  now destruct (ProgressManager.run config clock from_json evs st').
Qed.

Lemma run_reads evs st :
  reads st <= reads (snd (run evs st))
  /\ reads (snd (run evs st))
     <= reads st + match _progress st with Some _ => 0 | None => 1 end.
Proof.
  revert st. induction evs as [|[c|text] evs IH]; intros st.
  - simpl. lia.
  - rewrite run_does; simpl snd.
    destruct (call_loads_and_reads c st) as ([q Hq] & R1 & R2).
    specialize (IH (snd (call c st))). rewrite Hq in IH. lia.
  - simpl. specialize (IH (overwritten text st)). simpl in IH. exact IH.
Qed.

Lemma same_manager_overwritten st st' :
  same_manager st st' -> st = overwritten (file st) st'.
Proof.
  destruct st, st'; unfold same_manager, overwritten; simpl.
  intros (-> & -> & -> & ->). reflexivity.
Qed.

Lemma same_manager_refl st : same_manager st st.
Proof. repeat split. Qed.

Lemma run_ignores_file evs st st' :
  same_manager st st' ->
  (exists p, _progress st' = Some p) ->
  fst (run evs st) = fst (run (calls_only evs) st')
  /\ same_manager (snd (run evs st)) (snd (run (calls_only evs) st')).
Proof.
  revert st st'. induction evs as [|[c|text] evs IH]; intros st st' HS [p Hp].
  - simpl. split; [reflexivity|exact HS].
  - cbn [calls_only filter]. fold (calls_only evs). rewrite !run_does.
    cbn [fst snd].
    destruct (call_ignores_file c st' p (file st) Hp)
      as (r & st1 & E & [[_ E']|[_ E']]);
      rewrite (same_manager_overwritten _ _ HS), E, E'; cbn [fst snd];
      (destruct (IH (snd (call c (overwritten (file st) st'))) st1) as [F SM];
       [ rewrite E'; try apply same_manager_refl; repeat split
       | destruct (call_loads_and_reads c st') as [Q _]; now rewrite E in Q
       | rewrite E' in F, SM; cbn [snd] in F, SM; split; [now rewrite F|exact SM] ]).
  - cbn [calls_only filter]. fold (calls_only evs). simpl.
    apply IH; [|eauto].
    destruct HS as (A & B & C & D). repeat split; assumption.
Qed.


End ManagerFacts.

(* ===================================================================== *)
(** ** The progress manager on concrete runs *)
(* ===================================================================== *)

Section ManagerRuns.

Import ProgressManager ManagerSpec Examples.

Local Abbreviation mark_in_progress := (mark_in_progress cfg clk unreadable).
Local Abbreviation mark_failed := (mark_failed cfg clk unreadable).
Local Abbreviation reset_failed := (reset_failed cfg clk unreadable).
Local Abbreviation get_next_endpoints := (get_next_endpoints cfg clk unreadable).
Local Abbreviation call := (call cfg clk unreadable).


(** C2 does not hold as stated: after the one pending record of a
    store is claimed and the store saved, the store has one record and
    [total_endpoints] is 1, while the three counters add up to 0. *)
Lemma counters_leave_out_in_progress :
  let st' := snd (mark_in_progress "X" (loaded one_pending None)) in
  exists p,
    _progress st' = Some p
    /\ status_of "X" st' = Some "in_progress"
    /\ length (endpoints p) = 1
    /\ total_endpoints p = 1%Z
    /\ (completed_count p + failed_count p + pending_count p)%Z = 0%Z.
Proof. vm_compute. eexists. repeat split. Qed.

(** The counters after claiming the one pending record. *)
Lemma counters_after_mutation_witness :
  let st := loaded one_pending None in
  let st' := snd (call (Claim "X") st) in
  (_progress (snd (load_progress cfg clk unreadable st)) = Some one_pending
   /\ mutates (Claim "X") one_pending = true)
  /\ exists p',
      _progress st' = Some p'
      /\ file st' = Some (Json.dumps (to_dict p'))
      /\ contents st' = contents st ++ [EmptyString; Json.dumps (to_dict p')]
      /\ total_endpoints p' = Z.of_nat (length (endpoints p'))
      /\ (completed_count p' + failed_count p' + pending_count p'
          + uncounted (endpoints p') = total_endpoints p')%Z
      /\ ((completed_count p' + failed_count p' + pending_count p'
           = total_endpoints p')%Z <-> uncounted (endpoints p') = 0%Z).
Proof.
  split.
  - split; reflexivity.
  - apply (counters_after_mutation cfg clk unreadable (Claim "X")
             (loaded one_pending None) one_pending); reflexivity.
Defined.

(** C3 does not hold as stated: while a loaded store is saved over an
    earlier document, the progress file holds, in this order, the earlier
    document, nothing at all, and the new document; the empty content is
    neither of the two documents. *)
Lemma save_progress_passes_through_the_empty_file :
  let earlier := document (store_of []) in
  let st := loaded one_pending (Some earlier) in
  let st' := snd (save_progress st) in
  file st = Some earlier
  /\ contents st' = [EmptyString; document one_pending]
  /\ file st' = Some (document one_pending)
  /\ earlier <> EmptyString
  /\ document one_pending <> EmptyString.
Proof. vm_compute. repeat split; discriminate. Qed.

(** Saving the store with one pending record. *)
Lemma save_progress_empties_then_writes_witness :
  let st := loaded one_pending None in
  let text := Json.dumps (to_dict (update_counts one_pending)) in
  _progress st = Some one_pending
  /\ text <> EmptyString
  /\ save_progress st =
       (Py.Ok tt,
        {| _progress := Some (update_counts one_pending);
           file := Some text;
           reads := reads st;
           contents := contents st ++ [EmptyString; text];
           ticks := ticks st |}).
Proof.
  split.
  - reflexivity.
  - apply (save_progress_empties_then_writes (loaded one_pending None) one_pending).
    reflexivity.
Defined.

(** A batch of two from the backlog. *)
Lemma get_next_endpoints_selects_sorted_pending_witness :
  let st0 := snd (load_progress cfg clk unreadable (loaded backlog None)) in
  (0 <= 2)%Z
  /\ exists p sorted rest,
      _progress st0 = Some p
      /\ Permutation (sorted ++ rest) (values (endpoints p))
      /\ Forall (fun ep => status ep = "pending") sorted
      /\ Forall (fun ep => status ep <> "pending") rest
      /\ Permutation sorted (filter is_pending (values (endpoints p)))
      /\ StronglySorted key_le sorted
      /\ get_next_endpoints 2 (loaded backlog None)
         = (Py.Ok (firstn (Z.to_nat 2) sorted), st0)
      /\ (Z.of_nat (length (firstn (Z.to_nat 2) sorted)) <= 2)%Z
      /\ Forall (fun ep => status ep = "pending") (firstn (Z.to_nat 2) sorted)
      /\ (filter is_pending (values (endpoints p)) = [] ->
          firstn (Z.to_nat 2) sorted = [])
      /\ ((forall ep, In ep (values (endpoints p)) -> status ep <> "pending") ->
          firstn (Z.to_nat 2) sorted = [])
      /\ get_next_endpoints 2 st0 = (Py.Ok (firstn (Z.to_nat 2) sorted), st0).
Proof.
  split.
  - lia.
  - apply (get_next_endpoints_selects_sorted_pending cfg clk unreadable 2
             (loaded backlog None)).
    lia.
Defined.

(** Scenario 4: of the four pending records of the backlog, a batch of
    two is the two of [a.go], [del] before [put]; asking again gives the
    same two. *)
Example batch_of_two_from_backlog :
  let first := get_next_endpoints 2 (loaded backlog None) in
  fst first = Py.Ok [record "E" "del" "a.go" "pending" None;
                     record "C" "put" "a.go" "pending" None]
  /\ get_next_endpoints 2 (snd first) = first.
Proof. vm_compute. split; reflexivity. Qed.

(** Scenario 3: claim [X], fail it with [timeout], reset. *)
Lemma fail_then_reset_bookkeeping_witness :
  let st := snd (mark_in_progress "X" (loaded one_pending None)) in
  let ep := claim "T1" (record "X" "getX" "a.go" "pending" None) in
  let st1 := snd (mark_failed "X" "timeout" st) in
  let st2 := snd (reset_failed st1) in
  record_of "X" (snd (load_progress cfg clk unreadable st)) = Some ep
  /\ (exists ep1, record_of "X" st1 = Some ep1
                  /\ status ep1 = "failed"
                  /\ error_message ep1 = Some "timeout"
                  /\ retry_count ep1 = (retry_count ep + 1)%Z)
  /\ (exists ep2, record_of "X" st2 = Some ep2
                  /\ status ep2 = "pending"
                  /\ error_message ep2 = None
                  /\ retry_count ep2 = (retry_count ep + 1)%Z)
  /\ (forall id' ep', record_of id' st1 = Some ep' -> status ep' = "failed" ->
        exists ep'', record_of id' st2 = Some ep''
                     /\ status ep'' = "pending"
                     /\ error_message ep'' = None
                     /\ retry_count ep'' = retry_count ep')
  /\ (forall c s id' ep',
        record_of id' (snd (load_progress cfg clk unreadable s)) = Some ep' ->
        exists ep'', record_of id' (snd (call c s)) = Some ep''
                     /\ (retry_count ep' <= retry_count ep'')%Z).
Proof.
  split.
  - reflexivity.
  - apply (fail_then_reset_bookkeeping cfg clk unreadable "X" "timeout"
             (snd (mark_in_progress "X" (loaded one_pending None)))).
    reflexivity.
Defined.

(** A negative size is a slice that stops short of the end: of the four
    pending records, size [-1] selects three. *)
Example negative_size_drops_from_the_end :
  option_map (map endpoint_id)
    match fst (get_next_endpoints (-1) (loaded backlog None)) with
    | Py.Ok l => Some l
    | Py.Raise _ => None
    end
  = Some ["E"; "C"; "A"].
Proof. vm_compute. reflexivity. Qed.

(** Scenario 2: two syncs of the same detections into a store that starts
    empty leave one record per identity; the file is read by neither. *)
Example two_scans_one_record_each :
  let found := CodeReader.find_endpoints [main_go; users_proto] in
  let once := snd (sync_endpoints cfg clk unreadable found fresh) in
  let twice := snd (sync_endpoints cfg clk unreadable found once) in
  option_map (fun p => map fst (endpoints p)) (_progress twice)
  = Some ["http_GET__users_:id"; "grpc_Users_GetUser"]
  /\ _progress twice = _progress once
  /\ reads twice = 0.
Proof. vm_compute. repeat split. Qed.

Example scenario_claim_fail_reset :
  let st := snd (mark_in_progress "X" (loaded one_pending None)) in
  let st1 := snd (mark_failed "X" "timeout" st) in
  let st2 := snd (reset_failed st1) in
  option_map (fun ep => (status ep, error_message ep, retry_count ep)) (record_of "X" st1)
  = Some ("failed", Some "timeout", 1%Z)
  /\ option_map (fun ep => (status ep, error_message ep, retry_count ep)) (record_of "X" st2)
     = Some ("pending", None, 1%Z).
Proof. vm_compute. split; reflexivity. Qed.


End ManagerRuns.

(* ===================================================================== *)
(** ** Detection and file access *)
(* ===================================================================== *)

Section DetectionFacts.

Import CodeReader Re Examples.

(** An HTTP identity depends on the method and the path only. *)
Lemma http_identity_of_method_and_path (a b : EndpointInfo) :
type a = "http" -> type b = "http" ->
method a = method b -> path a = path b ->
unique_id a = unique_id b.
Proof. unfold unique_id. intros -> -> -> ->. reflexivity. Qed.


(** *** RPC detection *)

Lemma last_cons {A} (x : A) l d : last (x :: l) d = last l x.
Proof.
revert x d. induction l as [|y l IH]; intros x d; [reflexivity|].
change (last (x :: y :: l) d) with (last (y :: l) d). now rewrite !IH.
Qed.

(** The service-declaration loop only moves [current_service]. *)
Lemma service_loop cf ms cur eps :
fold_left (grpc_step cf "service") ms (cur, eps)
= (last (map (fun m => Some (text (mgroup m 1))) ms) cur, eps).
Proof.
revert cur. induction ms as [|m ms IH]; intros cur; [reflexivity|].
cbn [fold_left]. unfold grpc_step at 2. cbn [String.eqb Ascii.eqb Bool.eqb].
rewrite IH. cbn [map]. now rewrite last_cons.
Qed.

(** The method-declaration loop gives every candidate the service name it
    starts with. *)
Lemma rpc_loop cf ms cur eps :
exists new,
  fold_left (grpc_step cf "rpc") ms (cur, eps) = (cur, eps ++ new)
  /\ length new = length ms
  /\ Forall (fun ep => service_name ep = cur) new.
Proof.
revert eps. induction ms as [|m ms IH]; intros eps.
- exists []. rewrite app_nil_r. repeat split. constructor.
- cbn [fold_left]. unfold grpc_step at 2.
  cbn [String.eqb Ascii.eqb Bool.eqb mem existsb orb].
  match goal with
  | |- context [fold_left _ ms (cur, eps ++ [?e])] =>
      destruct (IH (eps ++ [e])) as (new & E & L & F); exists (e :: new)
  end.
  rewrite E, <- app_assoc. repeat split.
  + simpl. now rewrite L.
  + constructor; [reflexivity|exact F].
Qed.

(** In a protobuf file every candidate carries the name of the last
    service declared in the file, wherever its own declaration stands;
    there are as many candidates as method declarations. *)
Lemma protobuf_candidates_carry_the_last_service (cf : CodeFile) :
language cf = "protobuf" ->
let last_service :=
  last (map (fun m => Some (text (mgroup m 1))) (finditer service_decl (content cf)))
       None in
length (_find_grpc_endpoints cf) = length (finditer rpc_decl (content cf))
/\ Forall (fun ep => service_name ep = last_service) (_find_grpc_endpoints cf).
Proof.
intros L last_service. unfold _find_grpc_endpoints. rewrite L.
change (lookup "protobuf" GRPC_PATTERNS)
  with (Some [(service_decl, "service"); (rpc_decl, "rpc")]).
unfold grpc_loops. cbn [fold_left]. rewrite service_loop. fold last_service.
destruct (rpc_loop cf (finditer rpc_decl (content cf)) last_service [])
  as (new & E & Len & F).
rewrite E. cbn [snd app]. split; assumption.
Qed.

(** C8 on the code: with one service in the file, the method declared
    three lines below it is a candidate [GetUser] of service [Users]; with
    a second service declared further down, the same method is reported
    for that second service; and a method declared before the first
    service is reported for the service that follows it. *)
Theorem rpc_methods_are_given_the_last_service :
map (fun ep => (name ep, service_name ep, line_number ep))
    (_find_grpc_endpoints users_proto)
= [("GetUser", Some "Users", 4)]
/\ map (fun ep => (name ep, service_name ep, line_number ep))
       (_find_grpc_endpoints shop_proto)
   = [("GetUser", Some "Orders", 4); ("GetOrder", Some "Orders", 7)]
/\ map (fun ep => (name ep, service_name ep, line_number ep))
       (_find_grpc_endpoints early_proto)
   = [("Ping", Some "Health", 1)].
Proof. vm_compute. repeat split. Qed.

(** *** Reading files *)

(** With nothing cached, [read_file] refuses a path exactly when the
    text of its absolute form does not start with the text of the code
    directory's. *)
Lemma read_file_refuses_by_prefix config fs file_path :
let full_path :=
  if PosixPath.isabs file_path then file_path
  else PosixPath.join (Config.code_dir config) file_path in
fst (read_file config fs [] file_path) = Py.Raise "PermissionError"
<-> Py.startswith (PosixPath.abspath (cwd fs) full_path)
                  (PosixPath.abspath (cwd fs) (Config.code_dir config)) = false.
Proof.
intros full_path. unfold read_file. cbn [lookup]. subst full_path.
destruct (PosixPath.isabs file_path); cbn [negb];
  match goal with
  | |- context [Py.startswith ?a ?b] => destruct (Py.startswith a b)
  end; cbn [negb fst];
  try match goal with
      | |- context [fs_read ?f ?q] => destruct (fs_read f q)
      end; cbn [fst]; split; intros H; try reflexivity; discriminate.
Qed.

(** C9 on the code: the project is [/work/proj]; a file of the
    directory [/work/proj-secrets] beside it is read and its content
    returned, whether it is asked for by its absolute path or by a relative
    one; paths under other directories are refused. *)
Theorem read_file_accepts_a_sibling_with_a_prefixed_name :
option_map content
  match fst (read_file cfg disk [] "/work/proj-secrets/key.py") with
  | Py.Ok r => r
  | Py.Raise _ => None
  end = Some "TOKEN = 1"
/\ option_map content
     match fst (read_file cfg disk [] "../proj-secrets/key.py") with
     | Py.Ok r => r
     | Py.Raise _ => None
     end = Some "TOKEN = 1"
/\ fst (read_file cfg disk [] "/etc/passwd") = Py.Raise "PermissionError"
/\ fst (read_file cfg disk [] "../../etc/passwd") = Py.Raise "PermissionError".
Proof. vm_compute. repeat split. Qed.

End DetectionFacts.

(* ===================================================================== *)
(** ** Detection and reading: further facts *)
(* ===================================================================== *)

Section DetectionMore.

Import CodeReader Re Examples DetectionSpec.

(** *** Identities *)

Lemma prefix_empty s : String.prefix EmptyString s = true.
Proof. destruct s; reflexivity. Qed.

(** Replacing a one-character [old]. *)
Lemma replace_one_cons d new a s :
  Py.replace (String d EmptyString) new (String a s)
  = if Ascii.eqb d a
    then (new ++ Py.replace (String d EmptyString) new s)%string
    else String a (Py.replace (String d EmptyString) new s).
Proof.
  unfold Py.replace. cbn [Py.replace_from String.prefix String.length Nat.sub].
  destruct (Ascii.ascii_dec d a) as [->|N].
  - rewrite Ascii.eqb_refl, prefix_empty. reflexivity.
  - apply Ascii.eqb_neq in N. rewrite N. reflexivity.
Qed.

Lemma count_app c s t : Py.count c (s ++ t) = Py.count c s + Py.count c t.
Proof. induction s as [|a s IH]; simpl; [reflexivity|]. rewrite IH. lia. Qed.

(** Replacing [d] by a text without [c] leaves no [c] that was not
    there, and none at all when [c] is [d]. *)
Lemma count_replace_one c d new s :
  Py.count c new = 0 ->
  (c = d \/ Py.count c s = 0) ->
  Py.count c (Py.replace (String d EmptyString) new s) = 0.
Proof.
  intros Hn. induction s as [|a s IH]; intros H; [reflexivity|].
  rewrite replace_one_cons.
  destruct (Ascii.eqb d a) eqn:E.
  - rewrite count_app, Hn. apply IH.
    destruct H as [H|H]; [now left|right]. simpl in H. lia.
  - cbn [Py.count].
    destruct (Ascii.eqb a c) eqn:E'.
    + apply Ascii.eqb_eq in E'. subst a.
      destruct H as [->|H]; [rewrite Ascii.eqb_refl in E; discriminate|].
      simpl in H. rewrite Ascii.eqb_refl in H. discriminate.
    + rewrite IH; [reflexivity|].
      destruct H as [H|H]; [now left|right]. simpl in H. rewrite E' in H. exact H.
Qed.

(** The identity of an HTTP candidate holds no slash and no brace,
    whatever its method and path are. *)
Theorem http_identity_has_no_slash_or_brace (ep : EndpointInfo) :
  type ep <> "grpc" ->
  Py.count "/" (unique_id ep) = 0
  /\ Py.count "{" (unique_id ep) = 0
  /\ Py.count "}" (unique_id ep) = 0.
Proof.
  intros N. unfold unique_id.
  destruct (String.eqb_spec (type ep) "grpc") as [E|_]; [contradiction|].
  set (raw := ("http_" ++ Py.fmt (method ep) ++ "_" ++ Py.fmt (path ep))%string).
  assert (S1 : Py.count "/" (Py.replace "/" "_" raw) = 0)
    by (apply count_replace_one; [reflexivity|now left]).
  assert (S2 : Py.count "/" (Py.replace "{" "" (Py.replace "/" "_" raw)) = 0)
    by (apply count_replace_one; [reflexivity|now right]).
  assert (B1 : Py.count "{" (Py.replace "{" "" (Py.replace "/" "_" raw)) = 0)
    by (apply count_replace_one; [reflexivity|now left]).
  repeat split; apply count_replace_one;
    try reflexivity; try (now left); now right.
Qed.


(** *** Line numbers *)

Lemma count_slice_le c k s : Py.count c (Py.slice_to k s) <= Py.count c s.
Proof.
  unfold Py.slice_to. revert k. induction s as [|a s IH]; intros k.
  - destruct k; simpl; lia.
  - destruct k; cbn [substring Py.count]; [lia|].
    specialize (IH k). lia.
Qed.

Lemma split_length c s : length (Py.split c s) = Py.count c s + 1.
Proof.
  induction s as [|a s IH]; [reflexivity|].
  cbn [Py.split Py.count]. destruct (Ascii.eqb a c).
  - simpl. now rewrite IH.
  - destruct (Py.split c s); simpl in *; lia.
Qed.

Lemma line_of_match_in_file code_file k :
  1 <= Py.count Py.nl (Py.slice_to k (content code_file)) + 1
    <= length (Py.split Py.nl (content code_file)).
Proof.
  rewrite split_length. pose proof (count_slice_le Py.nl k (content code_file)). lia.
Qed.

Lemma http_endpoint_fields code_file lines pattern framework m :
  placed_in code_file (http_endpoint code_file lines pattern framework m)
  /\ type (http_endpoint code_file lines pattern framework m) = "http"
  /\ (exists v, method (http_endpoint code_file lines pattern framework m) = Some v)
  /\ service_name (http_endpoint code_file lines pattern framework m) = None
  /\ name (http_endpoint code_file lines pattern framework m) <> EmptyString.
Proof.
  unfold http_endpoint, placed_in.
  destruct (method_and_path framework (groups pattern m)) as [me pa].
  cbn [line_number file_path type method service_name name].
  split; [split; [apply line_of_match_in_file|reflexivity]|].
  split; [reflexivity|]. split; [eauto|]. split; [reflexivity|].
  destruct (_find_function_at_line lines _ (language code_file)) as [[|a f]|];
    cbn [Py.truthy text]; try discriminate;
    destruct me; discriminate.
Qed.

(** What the loops of [_find_grpc_endpoints] keep true of every candidate,
    given that it holds of each one they make. *)
Lemma grpc_loops_all (P : EndpointInfo -> Prop) code_file patterns :
  (forall nm line cur,
      1 <= line <= length (Py.split Py.nl (content code_file)) ->
      P {| name := nm; type := "grpc"; method := None; path := None;
           file_path := relative_path code_file; line_number := line;
           function_name := nm; service_name := cur; description := None |}) ->
  Forall P (snd (grpc_loops code_file patterns)).
Proof.
  intros HP. unfold grpc_loops.
  assert (G : forall ms pt st, Forall P (snd st) ->
                Forall P (snd (fold_left (grpc_step code_file pt) ms st))).
  { induction ms as [|m ms IH]; intros pt st H; [exact H|].
    cbn [fold_left]. apply IH. destruct st as [cur eps]. unfold grpc_step.
    destruct (String.eqb pt "service"); [exact H|].
    destruct (mem pt _); [|exact H].
    cbn [snd] in *. apply Forall_app. split; [exact H|].
    constructor; [|constructor]. apply HP. apply line_of_match_in_file. }
  assert (L : forall ps st, Forall P (snd st) ->
                Forall P (snd (fold_left
                  (fun st '(pattern, pattern_type) =>
                     fold_left (grpc_step code_file pattern_type)
                               (finditer pattern (content code_file)) st) ps st))).
  { induction ps as [|[pat pt] ps IH]; intros st H; [exact H|].
    cbn [fold_left]. apply IH. now apply G. }
  apply L. constructor.
Qed.

Lemma grpc_candidate_fields code_file :
  Forall (fun ep => placed_in code_file ep
                    /\ type ep = "grpc"
                    /\ method ep = None /\ path ep = None
                    /\ function_name ep = name ep)
         (_find_grpc_endpoints code_file).
Proof.
  unfold _find_grpc_endpoints. apply grpc_loops_all.
  intros nm line cur Hl. unfold placed_in. cbn. repeat split; lia.
Qed.

(** Every candidate of a file, HTTP or RPC, carries the file's relative
    path and a line number between 1 and the number of lines of the file;
    an HTTP candidate has a method, no service and a display name that is
    not empty; an RPC candidate has neither method nor path and is named
    after its function. *)
Theorem candidates_point_into_their_file (code_file : CodeFile) :
  Forall (fun ep => placed_in code_file ep
                    /\ type ep = "http"
                    /\ (exists v, method ep = Some v)
                    /\ service_name ep = None
                    /\ name ep <> EmptyString)
         (_find_http_endpoints code_file)
  /\ Forall (fun ep => placed_in code_file ep
                       /\ type ep = "grpc"
                       /\ method ep = None /\ path ep = None
                       /\ function_name ep = name ep)
            (_find_grpc_endpoints code_file).
Proof.
  split.
  - unfold _find_http_endpoints. apply Forall_forall. intros ep H.
    apply in_flat_map in H. destruct H as ([pat fw] & _ & H).
    apply in_map_iff in H. destruct H as (m & <- & _).
    apply http_endpoint_fields.
  - apply grpc_candidate_fields.
Qed.


(** *** De-duplication *)

Lemma mem_In x l : mem x l = true <-> In x l.
Proof.
  unfold mem. rewrite existsb_exists. split.
  - intros (y & H & E). apply String.eqb_eq in E. now subst.
  - intros H. exists x. split; [exact H|apply String.eqb_refl].
Qed.

Lemma add_unseen_app a b st : add_unseen (a ++ b) st = add_unseen b (add_unseen a st).
Proof. unfold add_unseen. apply fold_left_app. Qed.

Lemma find_endpoints_detected files :
  find_endpoints files = snd (add_unseen (detected files) ([], [])).
Proof.
  unfold find_endpoints, detected.
  generalize (@nil string, @nil EndpointInfo).
  induction files as [|cf files IH]; intros st; [reflexivity|].
  cbn [fold_left flat_map]. rewrite IH, !add_unseen_app. reflexivity.
Qed.

(** The loop that keeps the unseen: the identities seen are those of the
    candidates kept, they stay distinct, and a candidate is added exactly
    when nothing before it had its identity. *)
Lemma add_unseen_spec found :
  forall seen eps,
    seen = map unique_id eps -> NoDup seen ->
    exists kept,
      add_unseen found (seen, eps) = (map unique_id (eps ++ kept), eps ++ kept)
      /\ NoDup (map unique_id (eps ++ kept))
      /\ (forall ep, In ep found -> In (unique_id ep) (map unique_id (eps ++ kept)))
      /\ (forall ep, In ep kept ->
            exists before after,
              found = before ++ ep :: after
              /\ ~ In (unique_id ep) (seen ++ map unique_id before)).
Proof.
  induction found as [|e found IH]; intros seen eps -> ND.
  - exists []. rewrite app_nil_r. repeat split; auto; intros ep [].
  - unfold add_unseen. cbn [fold_left]. fold (add_unseen found).
    destruct (mem (unique_id e) (map unique_id eps)) eqn:M.
    + destruct (IH _ eps eq_refl ND) as (kept & E & N & C & F).
      exists kept. split; [exact E|]. split; [exact N|]. split.
      * intros ep [<-|H]; [|now apply C].
        rewrite map_app. apply in_or_app. left. now apply mem_In.
      * intros ep H. destruct (F ep H) as (b & a & -> & NI).
        exists (e :: b), a. split; [reflexivity|].
        intros HI. apply NI. rewrite in_app_iff in *. cbn [map] in HI.
        destruct HI as [HI|[HI|HI]]; auto.
        left. rewrite <- HI. now apply mem_In.
    + assert (NI : ~ In (unique_id e) (map unique_id eps)).
      { intros HI. apply mem_In in HI. congruence. }
      destruct (IH (map unique_id eps ++ [unique_id e]) (eps ++ [e])) as (kept & E & N & C & F).
      * now rewrite map_app.
      * apply NoDup_app; [exact ND|repeat constructor; intros []|].
        intros x Hx [<-|[]]. contradiction.
      * rewrite <- app_assoc in E, N, C. cbn [app] in E, N, C.
        exists (e :: kept). split; [exact E|]. split; [exact N|]. split.
        -- intros ep [<-|H]; [|now apply C].
           rewrite map_app. apply in_or_app. right. now left.
        -- intros ep [<-|H].
           ++ exists [], found. split; [reflexivity|]. now rewrite app_nil_r.
           ++ destruct (F ep H) as (b & a & -> & NI').
              exists (e :: b), a. split; [reflexivity|].
              intros HI. apply NI'. rewrite !in_app_iff in *. cbn [map In] in *.
              tauto.
Qed.

(** [find_endpoints] keeps one candidate per identity: the identities of
    its result are distinct, no identity detected in any file is missing
    from it, and each candidate it keeps is one that was detected with
    nothing of the same identity detected before it. *)
Theorem find_endpoints_keeps_first_of_each_identity (files : list CodeFile) :
  NoDup (map unique_id (find_endpoints files))
  /\ (forall ep, In ep (detected files) ->
        In (unique_id ep) (map unique_id (find_endpoints files)))
  /\ (forall ep, In ep (find_endpoints files) ->
        exists before after,
          detected files = before ++ ep :: after
          /\ ~ In (unique_id ep) (map unique_id before)).
Proof.
  rewrite find_endpoints_detected.
  destruct (add_unseen_spec (detected files) [] [] eq_refl (NoDup_nil _))
    as (kept & E & N & C & F).
  rewrite E. cbn [snd app] in *. repeat split; assumption.
Qed.


(** *** RPC candidates outside protobuf files *)

(** A rule that is not a service declaration leaves [current_service]
    alone. *)
Lemma grpc_step_keeps_service code_file pt st m :
  pt <> "service" -> fst (grpc_step code_file pt st m) = fst st.
Proof.
  intros N. destruct st as [cur eps]. unfold grpc_step.
  destruct (String.eqb_spec pt "service") as [E|_]; [contradiction|].
  destruct (mem pt _); reflexivity.
Qed.

Lemma grpc_rule_without_service code_file pt ms st :
  pt <> "service" -> fst st = None ->
  Forall (fun ep => service_name ep = None) (snd st) ->
  fst (fold_left (grpc_step code_file pt) ms st) = None
  /\ Forall (fun ep => service_name ep = None)
            (snd (fold_left (grpc_step code_file pt) ms st)).
Proof.
  intros N. revert st. induction ms as [|m ms IH]; intros st H0 HF; [now split|].
  cbn [fold_left]. apply IH.
  - now rewrite grpc_step_keeps_service.
  - destruct st as [cur eps]. cbn [fst snd] in *. subst cur. unfold grpc_step.
    destruct (String.eqb_spec pt "service") as [E|_]; [contradiction|].
    destruct (mem pt _); cbn [snd]; [|exact HF].
    apply Forall_app. split; [exact HF|]. repeat constructor.
Qed.

Lemma grpc_table_without_service code_file patterns :
  Forall (fun rule => snd rule <> "service") patterns ->
  Forall (fun ep => service_name ep = None) (snd (grpc_loops code_file patterns)).
Proof.
  intros H. unfold grpc_loops.
  assert (G : forall st, fst st = None ->
                Forall (fun ep => service_name ep = None) (snd st) ->
                Forall (fun ep => service_name ep = None)
                  (snd (fold_left
                     (fun st '(pattern, pattern_type) =>
                        fold_left (grpc_step code_file pattern_type)
                                  (finditer pattern (content code_file)) st)
                     patterns st))).
  { induction H as [|[pat pt] ps Hpt _ IH]; intros st H0 HF; [exact HF|].
    cbn [fold_left]. cbn [snd] in Hpt.
    destruct (grpc_rule_without_service code_file pt
                (finditer pat (content code_file)) st Hpt H0 HF) as [A B].
    now apply IH. }
  apply G; [reflexivity|constructor].
Qed.

(** Only the protobuf table has a service rule. *)
Lemma only_protobuf_declares_services lang patterns :
  lang <> "protobuf" ->
  lookup lang GRPC_PATTERNS = Some patterns ->
  Forall (fun rule => snd rule <> "service") patterns.
Proof.
  intros N. unfold GRPC_PATTERNS. cbn [lookup].
  destruct (String.eqb_spec lang "protobuf") as [E|_]; [contradiction|].
  repeat match goal with
         | |- context [String.eqb lang ?k] => destruct (String.eqb lang k)
         end;
    intros [= <-] || discriminate;
    repeat constructor; cbn [snd]; discriminate.
Qed.

(** In a file of any language but protobuf every RPC candidate has no
    service, and its identity is [grpc_None_] followed by its name: two
    methods of one name in different classes or files share an identity. *)
Theorem rpc_candidates_outside_protobuf_have_no_service (code_file : CodeFile) :
  language code_file <> "protobuf" ->
  Forall (fun ep => service_name ep = None
                    /\ unique_id ep = ("grpc_None_" ++ name ep)%string)
         (_find_grpc_endpoints code_file).
Proof.
  intros N.
  assert (S : Forall (fun ep => service_name ep = None)
                     (_find_grpc_endpoints code_file)).
  { unfold _find_grpc_endpoints.
    destruct (lookup (language code_file) GRPC_PATTERNS) as [patterns|] eqn:L.
    - apply grpc_table_without_service.
      now apply (only_protobuf_declares_services (language code_file)).
    - constructor. }
  pose proof (grpc_candidate_fields code_file) as G.
  rewrite Forall_forall in *. intros ep H.
  split; [now apply S|].
  destruct (G ep H) as (_ & T & _). unfold unique_id.
  rewrite T, (S ep H). reflexivity.
Qed.


(** *** The owning function *)

Lemma first_truthy_is_truthy gs g : first_truthy gs = Some g -> g <> EmptyString.
Proof.
  induction gs as [|[[|a x]|] gs IH]; cbn [first_truthy Py.truthy]; try discriminate; auto.
  intros [= <-]. discriminate.
Qed.

Lemma function_in_not_empty pattern lines idxs g :
  function_in pattern lines idxs = Some g -> g <> EmptyString.
Proof.
  induction idxs as [|i idxs IH]; cbn [function_in]; [discriminate|].
  destruct (search pattern (nth i lines "")) as [m|]; [|exact IH].
  destruct (first_truthy (groups pattern m)) as [g'|] eqn:F; [|exact IH].
  intros [= <-]. now apply (first_truthy_is_truthy _ _ F).
Qed.

Lemma function_in_ext pattern lines lines' idxs :
  (forall i, In i idxs -> nth i lines "" = nth i lines' "") ->
  function_in pattern lines idxs = function_in pattern lines' idxs.
Proof.
  induction idxs as [|i idxs IH]; intros H; [reflexivity|].
  cbn [function_in]. rewrite (H i (or_introl eq_refl)), IH; [reflexivity|].
  intros j Hj. apply H. now right.
Qed.

Lemma window_range line_num lines lines' :
  same_window line_num lines lines' ->
  Py.range (line_num - 1) (Nat.min (line_num + 5) (length lines))
  = Py.range (line_num - 1) (Nat.min (line_num + 5) (length lines')).
Proof.
  intros W. unfold Py.range. f_equal.
  assert (K : forall i, line_num - 1 <= i < line_num + 5 ->
                (i < length lines <-> i < length lines')).
  { intros i Hi. rewrite <- !nth_error_Some, (W i Hi). reflexivity. }
  destruct (Nat.lt_ge_cases (length lines) (line_num + 5)) as [L|L];
    destruct (Nat.lt_ge_cases (length lines') (line_num + 5)) as [L'|L']; try lia.
  - destruct (Nat.le_gt_cases (line_num - 1) (length lines)) as [A|A];
      destruct (Nat.le_gt_cases (line_num - 1) (length lines')) as [A'|A'].
    + pose proof (K (length lines) (conj A L)).
      pose proof (K (length lines') (conj A' L')). lia.
    + pose proof (K (length lines) (conj A L)).
      pose proof (K (line_num - 1)). lia.
    + pose proof (K (length lines') (conj A' L')).
      pose proof (K (line_num - 1)). lia.
    + lia.
  - destruct (Nat.le_gt_cases (line_num - 1) (length lines)) as [A|A].
    + pose proof (K (length lines) (conj A L)). lia.
    + pose proof (K (line_num - 1)). lia.
  - destruct (Nat.le_gt_cases (line_num - 1) (length lines')) as [A'|A'].
    + pose proof (K (length lines') (conj A' L')). lia.
    + pose proof (K (line_num - 1)). lia.
Qed.

(** The owning function of a match is looked for on the line of the match
    and the five lines below it, and nowhere else: two texts that agree on
    these six lines give the same answer.  The answer is never an empty
    name, and a language without a function pattern gives none. *)
Theorem owning_function_depends_on_six_lines
        (line_num : nat) (language : string) (lines lines' : list string) :
  same_window line_num lines lines' ->
  _find_function_at_line lines line_num language
  = _find_function_at_line lines' line_num language
  /\ _find_function_at_line lines line_num language <> Some EmptyString
  /\ (lookup language func_patterns = None ->
      _find_function_at_line lines line_num language = None).
Proof.
  intros W. unfold _find_function_at_line.
  destruct (lookup language func_patterns) as [pattern|]; [|repeat split; discriminate].
  split; [|split; [|discriminate]].
  - rewrite (window_range _ _ _ W). apply function_in_ext.
    intros i Hi. unfold Py.range in Hi. apply in_seq in Hi.
    assert (Hw : line_num - 1 <= i < line_num + 5) by lia.
    pose proof (W i Hw) as E.
    assert (Hl : i < length lines') by lia.
    destruct (nth_error lines' i) as [x|] eqn:N;
      [|apply nth_error_None in N; lia].
    rewrite (nth_error_nth _ _ _ E), (nth_error_nth _ _ _ N). reflexivity.
  - intros E. now apply function_in_not_empty in E.
Qed.


(** *** The file cache *)

Lemma lookup_In {A} k (v : A) table : lookup k table = Some v -> In (k, v) table.
Proof.
  induction table as [|[k' v'] t IH]; cbn [lookup]; [discriminate|].
  destruct (String.eqb_spec k k') as [->|_].
  - intros [= ->]. now left.
  - intros H. right. now apply IH.
Qed.

Lemma lookup_app_new {A} k (v : A) table :
  lookup k table = None -> lookup k (table ++ [(k, v)]) = Some v.
Proof.
  induction table as [|[k' v'] t IH]; cbn [lookup app].
  - now rewrite String.eqb_refl.
  - destruct (String.eqb k k'); [discriminate|exact IH].
Qed.

Lemma isabs_app a x : PosixPath.isabs a = true -> PosixPath.isabs (a ++ x) = true.
Proof. destruct a as [|c a]; [discriminate|]. unfold PosixPath.isabs, Py.startswith.
  cbn [String.append String.prefix]. destruct (Ascii.ascii_dec "/" c); auto.
  now rewrite !prefix_empty.
Qed.

Lemma isabs_join a b : PosixPath.isabs a = true -> PosixPath.isabs (PosixPath.join a b) = true.
Proof.
  intros H. unfold PosixPath.join. destruct (PosixPath.isabs b) eqn:B; [exact B|].
  destruct (_ || _); now apply isabs_app.
Qed.

(** What [read_file] does, case by case. *)
Lemma read_file_cases config fs c file_path :
  let full_path :=
    if negb (PosixPath.isabs file_path)
    then PosixPath.join (Config.code_dir config) file_path else file_path in
  (exists cf, lookup file_path c = Some cf
              /\ read_file config fs c file_path = (Py.Ok (Some cf), c))
  \/ (lookup file_path c = None
      /\ ((Py.startswith (PosixPath.abspath (cwd fs) full_path)
                         (PosixPath.abspath (cwd fs) (Config.code_dir config)) = false
           /\ read_file config fs c file_path = (Py.Raise "PermissionError", c))
          \/ (Py.startswith (PosixPath.abspath (cwd fs) full_path)
                            (PosixPath.abspath (cwd fs) (Config.code_dir config)) = true
              /\ ((fs_read fs full_path = None
                   /\ read_file config fs c file_path = (Py.Ok None, c))
                  \/ (exists cf,
                        cf_path cf = full_path
                        /\ fs_read fs full_path = Some (content cf)
                        /\ read_file config fs c file_path
                           = (Py.Ok (Some cf), c ++ [(file_path, cf)])))))).
Proof.
  intros full_path. unfold read_file. fold full_path.
  destruct (lookup file_path c) as [cf|]; [left; eauto|right; split; [reflexivity|]].
  destruct (Py.startswith _ _); cbn [negb]; [right; split; [reflexivity|]|left; now split].
  destruct (fs_read fs full_path) as [text|]; [right|left; now split].
  eexists. split; [|split; [|reflexivity]]; reflexivity.
Qed.

Lemma built_under_root config c :
  PosixPath.isabs (Config.code_dir config) = true ->
  built config c ->
  Forall (fun entry => under_root config (cf_path (snd entry))) c.
Proof.
  intros A. induction 1 as [|c fs p B IH]; [constructor|].
  destruct (read_file_cases config fs c p)
    as [(cf & _ & ->)|(_ & [(_ & ->)|(S & [(_ & ->)|(cf & P & _ & ->)])])];
    cbn [snd]; try exact IH.
  apply Forall_app. split; [exact IH|]. constructor; [|constructor].
  cbn [snd]. unfold under_root. rewrite P.
  unfold PosixPath.abspath in S. rewrite A in S.
  destruct (PosixPath.isabs p) eqn:E; cbn [negb] in S |- *.
  - now rewrite E in S.
  - now rewrite (isabs_join _ p A) in S.
Qed.

(** A reader whose code directory is absolute never hands out a file
    whose path, in normal form, does not start with the code directory's:
    not from the disk, and not from its cache either, whatever was read
    before and however the disk changed in between. *)
Theorem read_file_stays_under_the_root_prefix
        (config : Config.AnalyzerConfig) (fs : FileSystem) (c : Cache)
        (file_path : string) (cf : CodeFile) :
  PosixPath.isabs (Config.code_dir config) = true ->
  built config c ->
  fst (read_file config fs c file_path) = Py.Ok (Some cf) ->
  under_root config (cf_path cf).
Proof.
  intros A B R.
  pose proof (built_under_root config _ A (built_read config c fs file_path B)) as F.
  pose proof (built_under_root config _ A B) as F0.
  destruct (read_file_cases config fs c file_path)
    as [(cf' & L & E)|(_ & [(_ & E)|(_ & [(_ & E)|(cf' & _ & _ & E)])])];
    rewrite E in R, F; cbn [fst snd] in R, F; try discriminate;
    injection R as <-.
  - rewrite Forall_forall in F0. apply (F0 _ (lookup_In _ _ _ L)).
  - apply Forall_app in F. destruct F as [_ F]. now inversion F.
Qed.


End DetectionMore.

(* ===================================================================== *)
(** ** The store over runs of calls *)
(* ===================================================================== *)

Section ManagerMore.

Import ProgressManager ManagerSpec StoreSpec.
Import Py.

Variable config : Config.AnalyzerConfig.
Variable clock : nat -> string.
Variable from_json : string -> string -> option AnalysisProgress.

Local Abbreviation load_progress := (load_progress config clock from_json).
Local Abbreviation call := (call config clock from_json).
Local Abbreviation run := (run config clock from_json).

(** Every call leaves a store, and its dictionary is one of the six
    things a call can make of the one it found. *)
Lemma call_evolves c st p :
  _progress st = Some p ->
  exists p', _progress (snd (call c st)) = Some p'
             /\ evolves (endpoints p) (endpoints p').
Proof.
  intros H.
  destruct c as [eps|n|i|i doc|i msg| | |]; unfold ProgressManager.call, bind at 1.
  - rewrite (sync_endpoints_loaded config clock from_json _ _ _ H).
    eexists; split; [reflexivity|]. cbn. constructor.
  - rewrite (get_next_endpoints_loaded config clock from_json _ _ _ H).
    eexists; split; [exact H|]. constructor.
  - rewrite (mark_in_progress_loaded config clock from_json _ _ _ H).
    destruct (contains i (endpoints p)).
    + eexists; split; [reflexivity|]. cbn. constructor.
    + eexists; split; [exact H|]. constructor.
  - rewrite (mark_completed_loaded config clock from_json _ _ _ _ H).
    destruct (contains i (endpoints p)).
    + eexists; split; [reflexivity|]. cbn. constructor.
    + eexists; split; [exact H|]. constructor.
  - rewrite (mark_failed_loaded config clock from_json _ _ _ _ H).
    destruct (contains i (endpoints p)).
    + eexists; split; [reflexivity|]. cbn. constructor.
    + eexists; split; [exact H|]. constructor.
  - rewrite (reset_failed_loaded config clock from_json _ _ H).
    eexists; split; [reflexivity|]. cbn. constructor.
  - destruct st as [pr f r c t]; simpl in H; subst pr.
    eexists; split; [reflexivity|]. constructor.
  - destruct st as [pr f r c t]; simpl in H; subst pr.
    eexists; split; [reflexivity|]. cbn. constructor.
Qed.

(** A property of the dictionary that every step keeps is kept by every
    run of a manager that has loaded its store. *)
Lemma run_keeps (I : Endpoints -> Prop) :
  (forall d d', evolves d d' -> I d -> I d') ->
  forall evs st p,
    _progress st = Some p -> I (endpoints p) ->
    exists q, _progress (snd (run evs st)) = Some q /\ I (endpoints q).
Proof.
  intros K. induction evs as [|[c|text] evs IH]; intros st p H HI.
  - exists p. now split.
  - rewrite run_does. cbn [snd].
    destruct (call_evolves c st p H) as (p' & H' & E).
    apply (IH _ p' H'). now apply (K _ _ E).
  - cbn [ProgressManager.run]. apply (IH (overwritten text st) p); assumption.
Qed.


(** *** Keys and statuses *)

Lemma contains_In k d : contains k d = true <-> In k (map fst d).
Proof.
  unfold contains. rewrite existsb_exists, in_map_iff. split.
  - intros (kv & H & E). apply String.eqb_eq in E. exists kv. split; auto.
  - intros (kv & E & H). exists kv. split; [exact H|]. subst k. apply String.eqb_refl.
Qed.

Lemma mutate_keys k f d : map fst (mutate k f d) = map fst d.
Proof.
  induction d as [|[k' v] d IH]; [reflexivity|].
  cbn [mutate]. destruct (String.eqb k k'); cbn [map fst]; [reflexivity|now rewrite IH].
Qed.

Lemma mutate_Forall (Q : string * EndpointProgress -> Prop) k f d :
  (forall k' v, Q (k', v) -> Q (k', f v)) ->
  Forall Q d -> Forall Q (mutate k f d).
Proof.
  intros HQ. induction 1 as [|[k' v] d H Hd IH]; [constructor|].
  cbn [mutate]. destruct (String.eqb k k'); constructor; auto.
Qed.

Lemma reset_keys (d : Endpoints) :
  map fst (map (fun kv => (fst kv, reset (snd kv))) d) = map fst d.
Proof. rewrite map_map. reflexivity. Qed.

Lemma reset_id ep : endpoint_id (reset ep) = endpoint_id ep.
Proof. unfold reset. destruct (String.eqb (status ep) "failed"); reflexivity. Qed.

(** One step of the first loop of [sync_endpoints]: nothing, or one new
    pending record at the end, under an identity that was not there. *)
Lemma add_new_step d ep :
  add_new d ep = d
  \/ (~ In (CodeReader.unique_id ep) (map fst d)
      /\ exists v, add_new d ep = d ++ [(CodeReader.unique_id ep, v)]
                   /\ endpoint_id v = CodeReader.unique_id ep
                   /\ status v = "pending"
                   /\ retry_count v = 0%Z
                   /\ doc_file v = None).
Proof.
  unfold add_new, setitem.
  destruct (contains (CodeReader.unique_id ep) d) eqn:E; cbn [negb]; [now left|right].
  split.
  - intros HI. apply contains_In in HI. congruence.
  - eexists. split; [reflexivity|]. repeat split.
Qed.

Lemma sync_keeps (I : Endpoints -> Prop) eps :
  (forall d k v, I d -> ~ In k (map fst d) -> endpoint_id v = k ->
                 status v = "pending" -> retry_count v = 0%Z ->
                 I (d ++ [(k, v)])) ->
  forall d, I d -> I (fold_left add_new eps d).
Proof.
  intros K. induction eps as [|ep eps IH]; intros d H; [exact H|].
  cbn [fold_left]. apply IH.
  destruct (add_new_step d ep) as [->|(N & v & -> & Hid & Hs & Hr & _)]; [exact H|].
  now apply K.
Qed.

Lemma evolves_keyed d d' : evolves d d' -> keyed_by_id d -> keyed_by_id d'.
Proof.
  intros E [ND F]. unfold keyed_by_id.
  destruct E as [|eps|id t|id doc t|id msg|].
  - now split.
  - apply (sync_keeps keyed_by_id); [|now split].
    intros d0 k v [ND0 F0] N Hid _ _. split.
    + rewrite map_app. apply NoDup_app; [exact ND0|repeat constructor; intros []|].
      intros x Hx [<-|[]]. contradiction.
    + apply Forall_app. split; [exact F0|]. repeat constructor. exact Hid.
  - rewrite mutate_keys. split; [exact ND|]. apply mutate_Forall; auto.
  - rewrite mutate_keys. split; [exact ND|]. apply mutate_Forall; auto.
  - rewrite mutate_keys. split; [exact ND|]. apply mutate_Forall; auto.
  - rewrite reset_keys. split; [exact ND|].
    rewrite Forall_map. revert F. apply Forall_impl. intros [k v]; cbn [fst snd].
    now rewrite reset_id.
Qed.

Lemma known_reset ep : known (status ep) -> known (status (reset ep)).
Proof.
  unfold reset. destruct (String.eqb (status ep) "failed"); [|auto].
  intros _. cbn. unfold known; auto.
Qed.

Lemma evolves_known d d' : evolves d d' -> statuses_known d -> statuses_known d'.
Proof.
  unfold statuses_known, values. intros E F.
  rewrite Forall_map in F |- *.
  destruct E as [|eps|id t|id doc t|id msg|].
  - exact F.
  - apply (sync_keeps (Forall (fun kv => known (status (snd kv))))); [|exact F].
    intros d0 k v F0 _ _ Hs _. apply Forall_app. split; [exact F0|].
    repeat constructor. cbn [snd]. rewrite Hs. unfold known; auto.
  - apply mutate_Forall; [|exact F]. intros; cbn; unfold known; auto.
  - apply mutate_Forall; [|exact F]. intros; cbn; unfold known; auto.
  - apply mutate_Forall; [|exact F]. intros; cbn; unfold known; auto.
  - rewrite Forall_map. revert F. apply Forall_impl. intros [k v]; cbn [snd].
    apply known_reset.
Qed.

(** However a loaded manager is used, its dictionary keeps distinct keys
    and keeps each record under its own [endpoint_id]. *)
Theorem records_stay_keyed_by_their_identity
        (evs : list Event) (st : State) (p : AnalysisProgress) :
  _progress st = Some p ->
  keyed_by_id (endpoints p) ->
  exists q, _progress (snd (run evs st)) = Some q /\ keyed_by_id (endpoints q).
Proof. apply (run_keeps keyed_by_id). exact evolves_keyed. Qed.

Lemma uncounted_when_known d :
  statuses_known d -> uncounted d = count_status "in_progress" d.
Proof.
  unfold statuses_known, uncounted, count_status, values.
  induction d as [|[k ep] d IH]; [reflexivity|].
  cbn [map snd filter]. intros F. inversion F as [|? ? K F']; subst.
  specialize (IH F'). unfold counted at 1.
  destruct K as [K|[K|[K|K]]]; rewrite K;
    cbn [String.eqb Ascii.eqb Bool.eqb orb negb length]; lia.
Qed.

(** However a loaded manager is used, a store whose records are pending,
    in_progress, completed or failed stays such a store; in it the records
    that [update_counts] leaves out of its three counters are exactly the
    records in progress. *)
Theorem statuses_stay_among_the_four
        (evs : list Event) (st : State) (p : AnalysisProgress) :
  _progress st = Some p ->
  statuses_known (endpoints p) ->
  exists q, _progress (snd (run evs st)) = Some q
            /\ statuses_known (endpoints q)
            /\ uncounted (endpoints q) = count_status "in_progress" (endpoints q).
Proof.
  intros H K.
  destruct (run_keeps statuses_known evolves_known evs st p H K) as (q & Hq & Kq).
  exists q. repeat split; try assumption. now apply uncounted_when_known.
Qed.


(** *** Resetting *)

Lemma reset_failed_absorbs_load st :
  reset_failed config clock from_json st
  = reset_failed config clock from_json (snd (load_progress st)).
Proof. unfold ProgressManager.reset_failed. apply load_absorbed. Qed.

Lemma count_after_reset (d : Endpoints) :
  count_status "failed" (map (fun kv => (fst kv, reset (snd kv))) d) = 0%Z
  /\ count_status "pending" (map (fun kv => (fst kv, reset (snd kv))) d)
     = (count_status "pending" d + count_status "failed" d)%Z
  /\ count_status "completed" (map (fun kv => (fst kv, reset (snd kv))) d)
     = count_status "completed" d.
Proof.
  unfold count_status, values.
  induction d as [|[k ep] d (IH1 & IH2 & IH3)]; [repeat split|].
  cbn [map fst snd filter].
  destruct (String.eqb_spec (status ep) "failed") as [E|N].
  - assert (R : status (reset ep) = "pending")
      by (unfold reset; rewrite E; reflexivity).
    rewrite R, E. cbn [String.eqb Ascii.eqb Bool.eqb length]. repeat split; lia.
  - assert (R : reset ep = ep).
    { unfold reset. destruct (String.eqb_spec (status ep) "failed");
        [contradiction|reflexivity]. }
    rewrite R.
    destruct (String.eqb_spec (status ep) "failed") as [|_]; [contradiction|].
    destruct (String.eqb_spec (status ep) "pending");
      destruct (String.eqb_spec (status ep) "completed");
      cbn [length]; repeat split; lia.
Qed.

(** After [reset_failed] no record is failed: the failed count is zero, the
    pending count is what the pending and the failed counts were together,
    the completed count and the total are as before, and a record that was
    not failed is as it was. *)
Theorem reset_failed_moves_the_failed_to_pending (st : State) (p : AnalysisProgress) :
  _progress (snd (load_progress st)) = Some p ->
  exists p',
    _progress (snd (reset_failed config clock from_json st)) = Some p'
    /\ failed_count p' = 0%Z
    /\ pending_count p'
       = (count_status "pending" (endpoints p) + count_status "failed" (endpoints p))%Z
    /\ completed_count p' = count_status "completed" (endpoints p)
    /\ total_endpoints p' = Z.of_nat (length (endpoints p))
    /\ (forall id ep, getitem id (endpoints p) = Some ep -> status ep <> "failed" ->
          getitem id (endpoints p') = Some ep).
Proof.
  intros H. rewrite reset_failed_absorbs_load.
  rewrite (reset_failed_loaded config clock from_json _ p H).
  eexists. split; [reflexivity|].
  destruct (count_after_reset (endpoints p)) as (C1 & C2 & C3).
  cbn [update_counts set_endpoints failed_count pending_count completed_count
       total_endpoints endpoints].
  split; [exact C1|]. split; [exact C2|]. split; [exact C3|].
  split; [now rewrite length_map|].
  intros id ep G N. rewrite getitem_reset, G. cbn [option_map]. unfold reset.
  destruct (String.eqb_spec (status ep) "failed"); [contradiction|reflexivity].
Qed.

(** *** Batches *)

Lemma take_In {A} (n : Z) (l : list A) x : In x (take n l) -> In x l.
Proof.
  unfold take. destruct (0 <=? n)%Z; intros H;
    match type of H with
    | In _ (firstn ?k _) => rewrite <- (firstn_skipn k l)
    end; apply in_or_app; left; exact H.
Qed.

Lemma next_batch_In n p ep :
  In ep (next_batch n p) ->
  In ep (values (endpoints p)) /\ status ep = "pending".
Proof.
  unfold next_batch. intros H. apply take_In in H.
  apply (Permutation_in _ (sort_perm _)) in H. apply filter_In in H.
  destruct H as [H S]. split; [exact H|]. now apply String.eqb_eq.
Qed.

Lemma keyed_getitem d k v :
  NoDup (map fst d) -> In (k, v) d -> getitem k d = Some v.
Proof.
  induction d as [|[k' v'] d IH]; intros ND H; [destruct H|].
  destruct H as [H|H]; cbn [getitem].
  - injection H as -> ->. now rewrite String.eqb_refl.
  - inversion ND as [|? ? NI ND']; subst.
    destruct (String.eqb_spec k k') as [->|_]; [|now apply IH].
    exfalso. apply NI. apply in_map_iff. exists (k', v). now split.
Qed.

Lemma call_absorbs c st : call c st = call c (snd (load_progress st)).
Proof. apply call_absorbs_load. Qed.

Lemma taken_up_status c id st p :
  takes_up c id ->
  _progress st = Some p -> contains id (endpoints p) = true ->
  exists p' f,
    _progress (snd (call c st)) = Some p'
    /\ endpoints p' = mutate id f (endpoints p)
    /\ (forall ep, status (f ep) <> "pending")
    /\ (forall ep, endpoint_id (f ep) = endpoint_id ep).
Proof.
  intros [->|[[doc ->]|[msg ->]]] H C; unfold ProgressManager.call, bind at 1.
  - rewrite (mark_in_progress_loaded config clock from_json _ _ _ H), C.
    eexists; eexists. split; [reflexivity|]. split; [reflexivity|].
    split; intros; [discriminate|reflexivity].
  - rewrite (mark_completed_loaded config clock from_json _ _ _ _ H), C.
    eexists; eexists. split; [reflexivity|]. split; [reflexivity|].
    split; intros; [discriminate|reflexivity].
  - rewrite (mark_failed_loaded config clock from_json _ _ _ _ H), C.
    eexists; eexists. split; [reflexivity|]. split; [reflexivity|].
    split; intros; [discriminate|reflexivity].
Qed.

(** Once a record of a store keyed by identity is claimed, completed or
    failed, no batch of any size contains a record of that identity: a
    record is handed out again only after a reset. *)
Theorem taken_up_record_is_in_no_batch
        (c : Call) (id : string) (n : Z) (st : State) (p : AnalysisProgress) :
  _progress (snd (load_progress st)) = Some p ->
  keyed_by_id (endpoints p) ->
  contains id (endpoints p) = true ->
  takes_up c id ->
  exists batch,
    fst (get_next_endpoints config clock from_json n (snd (call c st))) = Ok batch
    /\ Forall (fun ep => endpoint_id ep <> id) batch.
Proof.
  intros H K C T. rewrite call_absorbs.
  destruct (taken_up_status c id _ p T H C) as (p' & f & H' & E & Fs & Fi).
  rewrite (get_next_endpoints_loaded config clock from_json _ p' n H').
  eexists. split; [reflexivity|].
  apply Forall_forall. intros ep HI Hid.
  apply next_batch_In in HI. destruct HI as [HV HS].
  assert (K' : keyed_by_id (endpoints p')).
  { rewrite E. destruct K as [ND F]. split; [now rewrite mutate_keys|].
    apply mutate_Forall; [|exact F]. intros k' v Hv. cbn [fst snd] in *.
    now rewrite Fi. }
  destruct K' as [ND' F'].
  unfold values in HV. apply in_map_iff in HV. destruct HV as ([k v] & Ev & HIn).
  cbn [snd] in Ev. subst v.
  rewrite Forall_forall in F'. pose proof (F' _ HIn) as Hk. cbn [fst snd] in Hk.
  rewrite Hid in Hk. subst k.
  apply (keyed_getitem _ _ _ ND') in HIn.
  rewrite E, getitem_mutate_same in HIn.
  destruct (getitem id (endpoints p)) as [ep0|]; [|discriminate].
  injection HIn as <-. now apply (Fs ep0).
Qed.


Lemma key_lt_irrefl k : key_lt k k = false.
Proof.
  unfold key_lt.
  assert (R : forall a, String_as_OT.compare a a = Eq).
  { intros a. destruct (String_as_OT.compare_spec a a) as [_|L|L]; [reflexivity| |];
      exfalso; exact (RelationClasses.StrictOrder_Irreflexive a L). }
  now rewrite !R.
Qed.

Lemma has_key_eq k ep : has_key k ep = true <-> key ep = k.
Proof.
  unfold has_key, key. rewrite andb_true_iff, !String.eqb_eq.
  destruct k as [a b]; cbn [fst snd]. split.
  - intros [-> ->]. reflexivity.
  - intros [= -> ->]. now split.
Qed.

Lemma insert_stable k x l :
  filter (has_key k) (insert x l) = filter (has_key k) (x :: l).
Proof.
  induction l as [|y l IH]; [reflexivity|].
  cbn [insert]. destruct (key_lt (key y) (key x)) eqn:L; [|reflexivity].
  cbn [filter] in *. rewrite IH.
  destruct (has_key k x) eqn:X; [|reflexivity].
  destruct (has_key k y) eqn:Y; [|reflexivity].
  apply has_key_eq in X, Y. rewrite X, Y, key_lt_irrefl in L. discriminate.
Qed.

Lemma sort_stable k l : filter (has_key k) (sort l) = filter (has_key k) l.
Proof.
  induction l as [|x l IH]; [reflexivity|].
  cbn [sort]. rewrite insert_stable. cbn [filter]. now rewrite IH.
Qed.

(** The order of a batch among records of one sort key is the order of
    the dictionary, that is the order in which the records were first
    synced, and a larger batch starts with the smaller one. *)
Theorem batches_are_stable_and_nested (p : AnalysisProgress) :
  (forall k, filter (has_key k) (next_batch (Z.of_nat (length (endpoints p))) p)
             = filter (has_key k) (pending_of p))
  /\ (forall n m, (0 <= n <= m)%Z ->
        next_batch n p = firstn (Z.to_nat n) (next_batch m p)).
Proof.
  unfold next_batch, take, pending_of. split.
  - intros k. destruct (Z.leb_spec 0 (Z.of_nat (length (endpoints p)))); [|lia].
    rewrite Nat2Z.id, firstn_all2; [apply sort_stable|].
    rewrite (Permutation_length (sort_perm _)).
    etransitivity; [apply filter_length_le|]. unfold values. now rewrite length_map.
  - intros n m [Hn Hm].
    destruct (Z.leb_spec 0 n); [|lia]. destruct (Z.leb_spec 0 m); [|lia].
    rewrite firstn_firstn. f_equal. lia.
Qed.

(** *** Finished documents *)

Lemma get_completed_docs_loaded st p :
  _progress st = Some p ->
  get_completed_docs config clock from_json st
  = (Ok (flat_map
           (fun ep =>
              if String.eqb (status ep) "completed" && truthy (doc_file ep)
              then [CodeReader.text (doc_file ep)] else [])
           (values (endpoints p))), st).
Proof.
  intros H. destruct st as [pr f r c t]; simpl in H; subst pr. reflexivity.
Qed.

Lemma mark_completed_absorbs_load id doc st :
  mark_completed config clock from_json id doc st
  = mark_completed config clock from_json id doc (snd (load_progress st)).
Proof. unfold ProgressManager.mark_completed. apply load_absorbed. Qed.

Lemma getitem_In k d v : getitem k d = Some v -> In v (values d).
Proof.
  unfold values. induction d as [|[k' v'] d IH]; cbn [getitem map snd]; [discriminate|].
  destruct (String.eqb k k'); [intros [= ->]; now left|intros H; right; now apply IH].
Qed.

(** After a record of the store is marked completed with a document name
    that is not empty, the record is completed, and that name is among the
    completed documents; every name in that list is the document of some
    completed record of the store. *)
Theorem completed_document_is_listed
        (id doc : string) (st : State) (p : AnalysisProgress) :
  _progress (snd (load_progress st)) = Some p ->
  contains id (endpoints p) = true ->
  doc <> EmptyString ->
  let st' := snd (mark_completed config clock from_json id doc st) in
  exists docs p',
    get_completed_docs config clock from_json st' = (Ok docs, st')
    /\ _progress st' = Some p'
    /\ In doc docs
    /\ (exists ep, getitem id (endpoints p') = Some ep
                   /\ status ep = "completed" /\ doc_file ep = Some doc)
    /\ (forall d, In d docs ->
          exists ep, In ep (values (endpoints p'))
                     /\ status ep = "completed" /\ doc_file ep = Some d).
Proof.
  intros H C N st'. subst st'. rewrite mark_completed_absorbs_load.
  rewrite (mark_completed_loaded config clock from_json _ p id doc H), C. cbn [snd].
  set (st1 := persisted _ _ _).
  assert (H1 : _progress st1 = Some (update_counts
            (set_endpoints p (mutate id (complete doc (clock (ticks (snd (load_progress st)))))
                                      (endpoints p))))) by reflexivity.
  rewrite (get_completed_docs_loaded st1 _ H1).
  eexists; eexists. split; [reflexivity|]. split; [exact H1|].
  cbn [update_counts set_endpoints endpoints].
  rewrite contains_getitem in C.
  destruct (getitem id (endpoints p)) as [ep0|] eqn:G; [|discriminate].
  assert (G' : getitem id (mutate id (complete doc (clock (ticks (snd (load_progress st)))))
                                 (endpoints p))
               = Some (complete doc (clock (ticks (snd (load_progress st)))) ep0))
    by (now rewrite getitem_mutate_same, G).
  split; [|split].
  - apply in_flat_map. eexists. split; [apply (getitem_In _ _ _ G')|].
    cbn. destruct doc; [contradiction|]. now left.
  - eexists. split; [exact G'|]. split; reflexivity.
  - intros d Hd. apply in_flat_map in Hd. destruct Hd as (ep & Hin & Hd).
    exists ep. split; [exact Hin|].
    destruct (String.eqb_spec (status ep) "completed") as [E|_]; [|destruct Hd].
    destruct (doc_file ep) as [[|a x]|]; cbn in Hd; [contradiction| |contradiction].
    destruct Hd as [<-|[]]. split; [exact E|reflexivity].
Qed.

(** *** An unreadable progress file *)

Lemma sync_endpoints_absorbs eps st :
  sync_endpoints config clock from_json eps st
  = sync_endpoints config clock from_json eps (snd (load_progress st)).
Proof. unfold ProgressManager.sync_endpoints. apply load_absorbed. Qed.

(** When the progress file cannot be read as a progress document, the
    first sync of a new manager starts from an empty store: afterwards the
    store holds the detected identities only, all pending, and the file has
    been replaced by the document of that store, so whatever progress the
    file recorded is gone. *)
Theorem unreadable_file_is_replaced_by_a_fresh_store
        (eps : list CodeReader.EndpointInfo) (st : State) (text : string) :
  _progress st = None ->
  file st = Some text ->
  from_json text (clock (ticks st)) = None ->
  let st' := snd (sync_endpoints config clock from_json eps st) in
  exists p',
    _progress st' = Some p'
    /\ endpoints p' = fold_left add_new eps []
    /\ Forall (fun ep => status ep = "pending" /\ retry_count ep = 0%Z)
              (values (endpoints p'))
    /\ created_at p' = clock (ticks st)
    /\ file st' = Some (Json.dumps (to_dict p'))
    /\ reads st' = S (reads st).
Proof.
  intros H F J st'. subst st'. rewrite sync_endpoints_absorbs.
  assert (L : load_progress st
              = (Ok {| project_name := PosixPath.basename (Config.code_dir config);
                       code_dir := Config.code_dir config;
                       output_dir := Config.output_dir config;
                       total_endpoints := 0; completed_count := 0; failed_count := 0;
                       pending_count := 0; last_run := None;
                       created_at := clock (ticks st); endpoints := [] |},
                 {| _progress := Some
                      {| project_name := PosixPath.basename (Config.code_dir config);
                         code_dir := Config.code_dir config;
                         output_dir := Config.output_dir config;
                         total_endpoints := 0; completed_count := 0; failed_count := 0;
                         pending_count := 0; last_run := None;
                         created_at := clock (ticks st); endpoints := [] |};
                    file := Some text; reads := S (reads st);
                    contents := contents st; ticks := S (ticks st) |})).
  { destruct st as [pr f r c t]; simpl in H, F, J; subst pr f.
    unfold ProgressManager.load_progress; cbn [_progress file].
    unfold bind, read_document, _create_new_progress, now, ret, set_progress; cbn.
    rewrite J. reflexivity. }
  rewrite L. cbn [snd].
  erewrite sync_endpoints_loaded by reflexivity.
  eexists. split; [reflexivity|].
  cbn [snd persisted _progress update_counts set_endpoints endpoints created_at file reads
       document].
  split; [reflexivity|]. split; [|repeat split].
  apply (sync_keeps (fun d => Forall (fun ep => status ep = "pending" /\ retry_count ep = 0%Z)
                                     (values d))); [|constructor].
  intros d k v Fd _ _ Hs Hr. unfold values in *. rewrite map_app. apply Forall_app.
  split; [exact Fd|]. repeat constructor; cbn [snd]; assumption.
Qed.

End ManagerMore.

(* ===================================================================== *)
(** ** Route rules on a file with one registration *)
(* ===================================================================== *)

Section RouteFacts.

Import CodeReader Re Examples DetectionSpec.

(** *** What the matcher finds is a text of the pattern *)

Lemma run_sound r :
  forall s c k x,
    run r s c k = Some x ->
    exists s1 s2 c', s = (s1 ++ s2)%string /\ matches r s1 /\ k s2 c' = Some x.
Proof.
  induction r as [|p|a IHa b IHb|a IHa b IHb|a IHa|i a IHa]; intros s c k x H;
    cbn [run] in H.
  - exists EmptyString, s, c. repeat split; [constructor|exact H].
  - destruct s as [|ch s']; [discriminate|].
    destruct (p ch) eqn:P; [|discriminate].
    exists (String ch EmptyString), s', c. repeat split; [now constructor|exact H].
  - apply IHa in H. destruct H as (s1 & s2 & c1 & -> & M1 & H).
    apply IHb in H. destruct H as (t1 & t2 & c2 & -> & M2 & H).
    exists (s1 ++ t1)%string, t2, c2. split; [|split; [now constructor|exact H]].
    clear. induction s1 as [|ch s1 IH]; [reflexivity|]. cbn. now rewrite IH.
  - destruct (run a s c k) as [y|] eqn:E.
    + injection H as <-. apply IHa in E. destruct E as (s1 & s2 & c1 & -> & M1 & H).
      exists s1, s2, c1. repeat split; [now constructor|exact H].
    + apply IHb in H. destruct H as (s1 & s2 & c1 & -> & M1 & H).
      exists s1, s2, c1. repeat split; [now apply matches_alt_r|exact H].
  - revert H. generalize (String.length s). intros n. revert s c.
    induction n as [|n IHn]; intros s c H.
    + exists EmptyString, s, c. repeat split; [constructor|exact H].
    + match type of H with
      | match ?t with _ => _ end = _ => destruct t as [y|] eqn:E
      end.
      * injection H as <-. apply IHa in E.
        destruct E as (s1 & s2 & c1 & -> & M1 & H).
        destruct (String.length s2 <? String.length (s1 ++ s2)); [|discriminate].
        apply IHn in H. destruct H as (t1 & t2 & c2 & -> & M2 & H).
        exists (s1 ++ t1)%string, t2, c2.
        split; [|split; [now apply matches_star_more|exact H]].
        clear. induction s1 as [|ch s1 IH]; [reflexivity|]. cbn. now rewrite IH.
      * exists EmptyString, s, c. repeat split; [constructor|exact H].
  - apply IHa in H. destruct H as (s1 & s2 & c1 & -> & M1 & H).
    exists s1, s2. eexists. split; [reflexivity|]. split; [now constructor|exact H].
Qed.


(** *** Strings as lists of characters *)

Local Abbreviation chars := list_ascii_of_string.

Lemma sapp_assoc (a b c : string) : ((a ++ b) ++ c = a ++ b ++ c)%string.
Proof. induction a as [|ch a IH]; [reflexivity|]. cbn. now rewrite IH. Qed.

Lemma sapp_nil_r (a : string) : (a ++ "")%string = a.
Proof. induction a as [|ch a IH]; [reflexivity|]. cbn. now rewrite IH. Qed.

Lemma slen_app (a b : string) :
  String.length (a ++ b) = String.length a + String.length b.
Proof. induction a as [|ch a IH]; [reflexivity|]. cbn. now rewrite IH. Qed.

Lemma chars_app (a b : string) : chars (a ++ b) = chars a ++ chars b.
Proof. induction a as [|ch a IH]; [reflexivity|]. cbn. now rewrite IH. Qed.

Lemma chars_inj (a b : string) : chars a = chars b -> a = b.
Proof.
  intros E. rewrite <- (string_of_list_ascii_of_string a),
              <- (string_of_list_ascii_of_string b).
  now rewrite E.
Qed.

Lemma chars_length (a : string) : length (chars a) = String.length a.
Proof. induction a as [|ch a IH]; [reflexivity|]. cbn. now rewrite IH. Qed.

(** Two prefixes of one text that have the same length are equal, and so
    is what follows them. *)
Lemma sapp_same_length (x x' u u' : string) :
  (x ++ u = x' ++ u')%string -> String.length x = String.length x' ->
  x = x' /\ u = u'.
Proof.
  revert x'. induction x as [|a x IH]; intros [|a' x'] E L;
    try discriminate; cbn in *.
  - now split.
  - injection E as -> E. injection L as L. destruct (IH _ E L) as [-> ->]. now split.
Qed.

Lemma all_app p (a b : string) : all p (a ++ b) = all p a && all p b.
Proof.
  induction a as [|ch a IH]; [reflexivity|]. cbn. now rewrite IH, andb_assoc.
Qed.

Lemma all_Forall p (s : string) :
  all p s = true -> Forall (fun a => p a = true) (chars s).
Proof.
  induction s as [|ch s IH]; cbn; [constructor|].
  intros H. apply andb_prop in H. destruct H as [P H]. constructor; auto.
Qed.

(** *** The texts of the patterns of the Go table *)

Lemma matches_chr_inv p x :
  matches (Chr p) x -> exists a, x = String a EmptyString /\ p a = true.
Proof. intros H. inversion H; subst. eauto. Qed.

Lemma matches_seq_inv a b x :
  matches (Seq a b) x ->
  exists s t, x = (s ++ t)%string /\ matches a s /\ matches b t.
Proof. intros H. inversion H; subst. eauto. Qed.

Lemma matches_group_inv i a x : matches (Group i a) x -> matches a x.
Proof. intros H. now inversion H. Qed.

Lemma matches_star_chr p x : matches (Star (Chr p)) x -> all p x = true.
Proof.
  intros H. remember (Star (Chr p)) as r eqn:R.
  induction H as [| | | | | |a s t Ha _ Ht IH|]; try discriminate; [reflexivity|].
  injection R as ->. apply matches_chr_inv in Ha. destruct Ha as (ch & -> & P).
  cbn. now rewrite P, IH.
Qed.

Lemma matches_plus_chr p x :
  matches (plus (Chr p)) x -> all p x = true /\ x <> EmptyString.
Proof.
  intros H. apply matches_seq_inv in H. destruct H as (s & t & -> & Hs & Ht).
  apply matches_chr_inv in Hs. destruct Hs as (ch & -> & P).
  apply matches_star_chr in Ht. cbn. rewrite P, Ht. split; [reflexivity|discriminate].
Qed.

Lemma matches_lit s x : matches (lit s) x -> x = s.
Proof.
  revert x. induction s as [|a s IH]; intros x H; cbn [lit] in H.
  - now inversion H.
  - destruct s as [|b s].
    + apply matches_chr_inv in H. destruct H as (ch & -> & E).
      apply Ascii.eqb_eq in E. now subst.
    + apply matches_seq_inv in H. destruct H as (u & t & -> & Hu & Ht).
      apply matches_chr_inv in Hu. destruct Hu as (ch & -> & E).
      apply Ascii.eqb_eq in E. subst. apply IH in Ht. now subst.
Qed.

Lemma matches_alts_lit vs x : matches (alts (map lit vs)) x -> In x vs.
Proof.
  induction vs as [|v vs IH]; cbn [map alts]; intros H.
  - apply matches_chr_inv in H. destruct H as (ch & _ & F). discriminate.
  - destruct vs as [|v' vs].
    + left. symmetry. now apply matches_lit.
    + cbn [map] in *. inversion H; subst.
      * left. symmetry. now apply matches_lit.
      * right. now apply IH.
Qed.

Lemma starts_literal_spaces ws q rest :
  all is_space ws = true -> is_quote q = true ->
  starts_literal (ws ++ String q rest) = true.
Proof.
  intros W Q. induction ws as [|a ws IH]; cbn [append starts_literal all] in *.
  - now rewrite Q.
  - apply andb_prop in W. destruct W as [A W]. rewrite A.
    destruct (is_quote a); [reflexivity|now apply IH].
Qed.

Lemma starts_literal_app y rest :
  starts_literal y = true -> starts_literal (y ++ rest) = true.
Proof.
  induction y as [|a y IH]; cbn [append starts_literal]; [discriminate|].
  destruct (is_quote a); [reflexivity|]. destruct (is_space a); [exact IH|discriminate].
Qed.

(** The tail common to the route rules: white space, an opening
    parenthesis, white space, a quoted path. *)
Lemma call_shape i x :
  matches (seqs [Star sp; chr "("; Star sp; quoted_path i]) x ->
  exists ws y, x = (ws ++ String "(" y)%string
               /\ all is_space ws = true /\ starts_literal y = true.
Proof.
  cbn [seqs quoted_path]. intros H.
  apply matches_seq_inv in H. destruct H as (ws & t & -> & W & H).
  apply matches_seq_inv in H. destruct H as (par & t' & -> & P & H).
  apply matches_seq_inv in H. destruct H as (ws2 & t'' & -> & W2 & H).
  apply matches_seq_inv in H. destruct H as (q & t3 & -> & Q & _).
  apply matches_star_chr in W. apply matches_star_chr in W2.
  apply matches_chr_inv in P. destruct P as (ch & -> & E).
  apply Ascii.eqb_eq in E. subst ch.
  apply matches_chr_inv in Q. destruct Q as (qc & -> & Q).
  exists ws, (ws2 ++ String qc t3)%string. split; [reflexivity|].
  split; [exact W|]. now apply starts_literal_spaces.
Qed.

(** A text of a route rule: a receiver, a dot, a verb, and a call on a
    string literal. *)
Lemma go_route_shape verbs x :
  matches (go_route verbs) x ->
  exists wd v ws y,
    x = (wd ++ String "." (v ++ ws ++ String "(" y))%string
    /\ all is_word wd = true /\ wd <> EmptyString
    /\ In v verbs /\ all is_space ws = true /\ starts_literal y = true.
Proof.
  unfold go_route.
  change (seqs [Group 1 (plus w); chr "."; Group 2 (alts (map lit verbs));
                Star sp; chr "("; Star sp; quoted_path 3])
    with (Seq (Group 1 (plus w))
              (Seq (chr ".")
                   (Seq (Group 2 (alts (map lit verbs)))
                        (seqs [Star sp; chr "("; Star sp; quoted_path 3])))).
  intros H.
  apply matches_seq_inv in H. destruct H as (wd & t & -> & W & H).
  apply matches_seq_inv in H. destruct H as (d & t' & -> & D & H).
  apply matches_seq_inv in H. destruct H as (v & t'' & -> & V & H).
  apply matches_group_inv, matches_plus_chr in W. destruct W as [W N].
  apply matches_chr_inv in D. destruct D as (ch & -> & E).
  apply Ascii.eqb_eq in E. subst ch.
  apply matches_group_inv, matches_alts_lit in V.
  apply call_shape in H. destruct H as (ws & y & -> & S & L).
  exists wd, v, ws, y. repeat split; assumption.
Qed.

(** A text of the [net/http] rule. *)
Lemma handle_func_shape x :
  matches (seqs [lit "http.HandleFunc"; Star sp; chr "("; Star sp; quoted_path 1]) x ->
  exists ws y,
    x = ("http.HandleFunc" ++ ws ++ String "(" y)%string
    /\ all is_space ws = true /\ starts_literal y = true.
Proof.
  change (seqs [lit "http.HandleFunc"; Star sp; chr "("; Star sp; quoted_path 1])
    with (Seq (lit "http.HandleFunc")
              (seqs [Star sp; chr "("; Star sp; quoted_path 1])).
  intros H.
  apply matches_seq_inv in H. destruct H as (h & t & -> & L & H).
  apply matches_lit in L. subst h.
  apply call_shape in H. destruct H as (ws & y & -> & S & Q).
  exists ws, y. repeat split; assumption.
Qed.

End RouteFacts.

Section RouteContext.

Import CodeReader Re Examples DetectionSpec.

Local Abbreviation chars := list_ascii_of_string.

(** *** Where a route rule can match *)

Lemma literal_call_listed x y pos :
  starts_literal y = true ->
  In (pos + String.length x) (literal_calls_from pos (x ++ String "(" y)).
Proof.
  revert pos. induction x as [|a x IH]; intros pos L.
  - cbn [append literal_calls_from String.length]. rewrite L, Nat.add_0_r.
    cbn. now left.
  - cbn [append literal_calls_from String.length]. apply in_or_app. right.
    replace (pos + S (String.length x)) with (S pos + String.length x) by lia.
    now apply IH.
Qed.

(** A receiver, a dot, a verb and white space that end where
    [    r.GET] ends are [r], [GET] and no white space, after the four
    blanks. *)
Lemma ends_with_route_head p1 wd v ws before :
  (p1 ++ wd ++ String "." (v ++ ws))%string = (before ++ "    r.GET")%string ->
  all is_word wd = true -> wd <> EmptyString ->
  In v go_verbs -> all is_space ws = true ->
  v = "GET" /\ ws = EmptyString /\ wd = "r" /\ p1 = (before ++ "    ")%string.
Proof.
  intros E W N V S.
  apply (f_equal chars) in E. rewrite !chars_app in E. cbn [chars] in E.
  rewrite chars_app in E. apply (f_equal (@rev ascii)) in E.
  rewrite !rev_app_distr in E. cbn [rev app] in E. rewrite rev_app_distr in E.
  cbn [rev app] in E. rewrite <- !app_assoc in E. cbn [app] in E.
  apply all_Forall, Forall_rev in S. apply all_Forall, Forall_rev in W.
  assert (Ws : ws = EmptyString).
  { destruct (rev (chars ws)) as [|c R] eqn:RW.
    - apply chars_inj. apply (f_equal (@rev ascii)) in RW.
      now rewrite rev_involutive in RW.
    - cbn [app] in E. injection E as -> _. inversion S as [|? ? Sp _]. discriminate. }
  subst ws. cbn [chars rev app] in E.
  assert (Vs : v = "GET").
  { unfold go_verbs in V. cbn [In] in V.
    repeat (destruct V as [<-|V]; [try reflexivity; cbn in E; discriminate|]).
    destruct V. }
  subst v. cbn [chars rev app] in E. injection E as E.
  destruct (rev (chars wd)) as [|c R] eqn:RW.
  { exfalso. apply N, chars_inj. apply (f_equal (@rev ascii)) in RW.
    now rewrite rev_involutive in RW. }
  cbn [app] in E. injection E as -> E.
  destruct R as [|c' R].
  - cbn [app] in E. repeat split.
    + apply chars_inj. apply (f_equal (@rev ascii)) in RW.
      now rewrite rev_involutive in RW.
    + apply chars_inj. rewrite chars_app. apply (f_equal (@rev ascii)) in E.
      rewrite rev_involutive in E. rewrite E. cbn [rev app].
      rewrite rev_involutive, <- !app_assoc. reflexivity.
  - cbn [app] in E. injection E as -> _.
    inversion W as [|? ? _ W']. inversion W' as [|? ? Sp _]. discriminate.
Qed.

(** The [net/http] rule cannot end there. *)
Lemma handle_func_ends_elsewhere p1 ws before :
  (p1 ++ "http.HandleFunc" ++ ws)%string = (before ++ "    r.GET")%string ->
  all is_space ws = true -> False.
Proof.
  intros E S.
  apply (f_equal chars) in E. rewrite !chars_app in E.
  apply (f_equal (@rev ascii)) in E.
  rewrite !rev_app_distr in E. cbn [chars rev app] in E.
  rewrite <- !app_assoc in E. cbn [app] in E.
  apply all_Forall, Forall_rev in S.
  destruct (rev (chars ws)) as [|c R].
  - cbn [app] in E. discriminate.
  - cbn [app] in E. injection E as -> _. inversion S as [|? ? Sp _]. discriminate.
Qed.

Variable before after text : string.

(** The text is a file with the registration of the scenario, and the
    parenthesis of the registration is the only one of the file that is
    followed by a string literal. *)
Hypothesis text_is : text = (before ++ route_line ++ after)%string.
Hypothesis one_call : literal_calls text = [String.length before + 9].

Lemma call_is_the_registration x y :
  text = (x ++ String "(" y)%string -> starts_literal y = true ->
  x = (before ++ "    r.GET")%string.
Proof.
  intros E L.
  pose proof (literal_call_listed x y 0 L) as I.
  fold (literal_calls (x ++ String "(" y)) in I. rewrite <- E, one_call in I.
  destruct I as [I|[]]. cbn [Nat.add] in I.
  assert (T : text = ((before ++ "    r.GET")
                        ++ String "(" (String dquote ("/users/:id" ++ String dquote
                                                       (", getUser)" ++ after))))%string).
  { rewrite text_is, sapp_assoc. reflexivity. }
  rewrite T in E. symmetry in E.
  apply sapp_same_length in E; [apply E|].
  rewrite slen_app. cbn [String.length]. lia.
Qed.

(** A route rule matches at one place of the text only: at the [r] of the
    registration, and with the verb [GET]. *)
Lemma route_rule_matches_once verbs p1 p2 x :
  incl verbs go_verbs ->
  text = (p1 ++ p2)%string ->
  match_here (go_route verbs) p2 = Some x ->
  p1 = (before ++ "    ")%string /\ In "GET" verbs.
Proof.
  intros Sub E M. unfold match_here in M. apply run_sound in M.
  destruct M as (s1 & rest & _ & -> & M & _).
  apply go_route_shape in M.
  destruct M as (wd & v & ws & y & -> & W & N & V & S & L).
  assert (E' : text = ((p1 ++ wd ++ String "." (v ++ ws))
                         ++ String "(" (y ++ rest))%string).
  { rewrite E. rewrite ?sapp_assoc. cbn [append]. rewrite ?sapp_assoc.
    cbn [append]. reflexivity. }
  apply call_is_the_registration in E'; [|now apply starts_literal_app].
  destruct (ends_with_route_head _ _ _ _ _ E' W N (Sub _ V) S) as (-> & _ & _ & P).
  split; [exact P|exact V].
Qed.

Lemma handle_func_matches_nowhere p1 p2 x :
  text = (p1 ++ p2)%string ->
  match_here (seqs [lit "http.HandleFunc"; Star sp; chr "("; Star sp; quoted_path 1]) p2
  = Some x -> False.
Proof.
  intros E M. unfold match_here in M. apply run_sound in M.
  destruct M as (s1 & rest & _ & -> & M & _).
  apply handle_func_shape in M. destruct M as (ws & y & -> & S & L).
  assert (E' : text = ((p1 ++ "http.HandleFunc" ++ ws)
                         ++ String "(" (y ++ rest))%string).
  { rewrite E. rewrite ?sapp_assoc. cbn [append]. rewrite ?sapp_assoc.
    reflexivity. }
  apply call_is_the_registration in E'; [|now apply starts_literal_app].
  exact (handle_func_ends_elsewhere _ _ _ E' S).
Qed.

End RouteContext.

Section RouteMatch.

Import CodeReader Re Examples DetectionSpec.

(** *** The matcher on the registration *)

Lemma run_seq_eq a b s c k :
  run (Seq a b) s c k = run a s c (fun s1 c1 => run b s1 c1 k).
Proof. reflexivity. Qed.

Lemma run_group_eq i a s c k :
  run (Group i a) s c k
  = run a s c
        (fun s1 c1 =>
           k s1 ((i, substring 0 (String.length s - String.length s1) s) :: c1)).
Proof. reflexivity. Qed.

Lemma run_chr_hit p a s c k : p a = true -> run (Chr p) (String a s) c k = k s c.
Proof. intros H. cbn [run]. now rewrite H. Qed.

Lemma run_alt_l a b s c k y : run a s c k = Some y -> run (Alt a b) s c k = Some y.
Proof. intros H. cbn [run]. now rewrite H. Qed.

(** A starred class is greedy: it takes every character of the class
    before it tries what follows. *)
Lemma run_star_chr p x t c k y :
  all p x = true ->
  match t with
  | EmptyString => True
  | String a _ => p a = false
  end ->
  k t c = Some y ->
  run (Star (Chr p)) (x ++ t) c k = Some y.
Proof.
  intros A T K. cbn [run].
  assert (L : String.length x <= String.length (x ++ t)) by (rewrite slen_app; lia).
  revert L. generalize (String.length (x ++ t)). intros n. revert n.
  induction x as [|a x IH]; intros n L.
  - cbn [append]. destruct n as [|n]; [exact K|].
    destruct t as [|b t]; [exact K|]. rewrite T. exact K.
  - cbn [all] in A. apply andb_prop in A. destruct A as [Pa A].
    destruct n as [|n]; [cbn in L; lia|].
    cbn [append]. rewrite Pa.
    assert (Lt : (String.length (x ++ t) <? String.length (String a (x ++ t))) = true)
      by (apply Nat.ltb_lt; cbn; lia).
    rewrite Lt. rewrite (IH A n) by (cbn in L; lia). reflexivity.
Qed.

Lemma substring_prefix x t :
  substring 0 (String.length (x ++ t) - String.length t) (x ++ t) = x.
Proof.
  rewrite slen_app. replace (String.length x + String.length t - String.length t)
    with (String.length x) by lia.
  induction x as [|a x IH]; cbn.
  - now destruct t.
  - now rewrite IH.
Qed.

Lemma registration_matches vs post :
  vs <> [] ->
  match_here (go_route ("GET" :: vs)) (route_call ++ ", getUser)" ++ post)
  = Some ((", getUser)" ++ post)%string, route_groups).
Proof.
  intros N. destruct vs as [|v vs]; [contradiction|].
  unfold match_here, go_route.
  cbn [seqs map alts plus quoted_path lit].
  unfold chr, w, sp, quote, not_quote, one_of, none_of, plus, route_call, dq.
  cbn [append].
  rewrite run_seq_eq, run_group_eq, run_seq_eq.
  rewrite run_chr_hit by reflexivity.
  apply (run_star_chr is_word "" (".GET(" ++ dq ++ "/users/:id" ++ dq ++ ", getUser)" ++ post));
    [reflexivity|reflexivity|]. cbv beta. unfold dq. cbn [append].
  rewrite run_seq_eq, run_chr_hit by reflexivity.
  rewrite run_seq_eq, run_group_eq. apply run_alt_l.
  rewrite run_seq_eq, run_chr_hit by reflexivity.
  rewrite run_seq_eq, run_chr_hit by reflexivity.
  rewrite run_chr_hit by reflexivity.
  rewrite run_seq_eq.
  apply (run_star_chr is_space "" ("(" ++ dq ++ "/users/:id" ++ dq ++ ", getUser)" ++ post));
    [reflexivity|reflexivity|]. cbv beta. unfold dq. cbn [append].
  rewrite run_seq_eq, run_chr_hit by reflexivity.
  rewrite run_seq_eq.
  apply (run_star_chr is_space "" (dq ++ "/users/:id" ++ dq ++ ", getUser)" ++ post));
    [reflexivity|reflexivity|]. cbv beta. unfold dq. cbn [append].
  rewrite run_seq_eq, run_chr_hit by reflexivity.
  rewrite run_seq_eq, run_group_eq, run_seq_eq.
  rewrite run_chr_hit by reflexivity.
  apply (run_star_chr _ "users/:id" (dq ++ ", getUser)" ++ post));
    [reflexivity|reflexivity|]. cbv beta. unfold dq. cbn [append].
  rewrite run_chr_hit by reflexivity.
  unfold route_groups. do 3 f_equal.
  - f_equal. exact (substring_prefix "/users/:id" (dq ++ ", getUser)" ++ post)).
  - f_equal.
    + f_equal.
      exact (substring_prefix "GET" ("(" ++ dq ++ "/users/:id" ++ dq ++ ", getUser)" ++ post)).
    + do 2 f_equal.
      exact (substring_prefix "r" (".GET(" ++ dq ++ "/users/:id" ++ dq ++ ", getUser)" ++ post)).
Qed.

(** *** All matches of a rule that matches at one place *)

Lemma scan_skip r m t pos :
  scan r (m ++ t) pos (String.length m) = scan r t (pos + String.length m) 0.
Proof.
  revert pos. induction m as [|a m IH]; intros pos.
  - cbn [append String.length]. now rewrite Nat.add_0_r.
  - cbn [append String.length scan Nat.pred]. rewrite IH. f_equal. lia.
Qed.

Lemma scan_none r s :
  forall pos,
    (forall t1 t2, s = (t1 ++ t2)%string -> match_here r t2 = None) ->
    scan r s pos 0 = [].
Proof.
  induction s as [|a s IH]; intros pos H.
  - cbn [scan]. now rewrite (H EmptyString EmptyString eq_refl).
  - cbn [scan]. rewrite (H EmptyString (String a s) eq_refl). cbn [Nat.pred].
    apply IH. intros t1 t2 E. apply (H (String a t1) t2). cbn. now rewrite E.
Qed.

(** A rule that matches a text at one place only, and there a text that
    is not empty, is found once by [finditer]. *)
Lemma scan_one r pre m post caps :
  (forall p1 p2 x, (pre ++ m ++ post = p1 ++ p2)%string ->
                   match_here r p2 = Some x -> p1 = pre) ->
  m <> EmptyString ->
  match_here r (m ++ post) = Some (post, caps) ->
  finditer r (pre ++ m ++ post)
  = [mkMatch (String.length pre) (String.length m) caps].
Proof.
  intros U N M. unfold finditer.
  assert (G : forall done rest pos,
             pre = (done ++ rest)%string -> pos = String.length done ->
             scan r (rest ++ m ++ post) pos 0
             = [mkMatch (String.length pre) (String.length m) caps]).
  { intros done rest. revert done. induction rest as [|a rest IH]; intros done pos E P.
    - rewrite sapp_nil_r in E. subst done pos. cbn [append].
      destruct m as [|b m']; [contradiction|].
      cbn [append] in *. cbn [scan]. rewrite M.
      replace (String.length (String b (m' ++ post)) - String.length post)
        with (S (String.length m'))
        by (cbn [String.length]; rewrite slen_app; lia).
      cbn [m_len Nat.pred]. rewrite scan_skip.
      rewrite (scan_none r post); [reflexivity|].
      intros t1 t2 Et. destruct (match_here r t2) as [x|] eqn:Mt; [|reflexivity].
      exfalso.
      assert (Ep : (pre ++ String b m' ++ post
                    = (pre ++ String b m' ++ t1) ++ t2)%string).
      { rewrite Et, ?sapp_assoc. cbn [append]. now rewrite ?sapp_assoc. }
      apply (U _ _ x) in Ep; [|exact Mt].
      apply (f_equal String.length) in Ep. rewrite !slen_app in Ep.
      cbn [String.length] in Ep. lia.
    - cbn [append scan].
      destruct (match_here r (String a (rest ++ m ++ post))) as [x|] eqn:Mh.
      + exfalso.
        assert (Ep : (pre ++ m ++ post = done ++ String a (rest ++ m ++ post))%string).
        { rewrite E, sapp_assoc. reflexivity. }
        apply (U _ _ x) in Ep; [|exact Mh].
        rewrite E in Ep. apply (f_equal String.length) in Ep.
        rewrite slen_app in Ep. cbn [String.length] in Ep. lia.
      + cbn [Nat.pred]. apply (IH (done ++ String a EmptyString)%string).
        * rewrite E, sapp_assoc. reflexivity.
        * rewrite slen_app. cbn [String.length]. lia. }
  apply (G EmptyString pre 0); reflexivity.
Qed.

Lemma finditer_none r s :
  (forall p1 p2 x, s = (p1 ++ p2)%string -> match_here r p2 = Some x -> False) ->
  finditer r s = [].
Proof.
  intros H. apply (scan_none r s). intros t1 t2 E.
  destruct (match_here r t2) as [x|] eqn:M; [|reflexivity].
  exfalso. exact (H _ _ _ E M).
Qed.

End RouteMatch.

Section RouteCandidates.

Import CodeReader Re Examples DetectionSpec.

(** *** The candidates of a Go file with the registration *)

Lemma slice_to_prefix x t : Py.slice_to (String.length x) (x ++ t) = x.
Proof.
  unfold Py.slice_to. induction x as [|a x IH]; cbn.
  - now destruct t.
  - now rewrite IH.
Qed.

Lemma prefix_app x t : String.prefix x (x ++ t) = true.
Proof.
  induction x as [|a x IH]; [apply prefix_empty|].
  cbn [append String.prefix]. destruct (ascii_dec a a); [exact IH|contradiction].
Qed.

Lemma contains_text_app needle t1 t2 :
  String.prefix needle t2 = true -> contains_text needle (t1 ++ t2) = true.
Proof.
  intros P. induction t1 as [|a t1 IH]; cbn [append].
  - destruct t2; cbn [contains_text]; now rewrite P.
  - cbn [contains_text]. rewrite IH. apply orb_true_r.
Qed.

(** The function pattern of Go matches nothing in a line without the
    word [func]. *)
Lemma go_header_needs_func pattern line :
  lookup "go" func_patterns = Some pattern ->
  contains_text "func" line = false ->
  search pattern line = None.
Proof.
  intros P C. injection P as <-. unfold search.
  rewrite finditer_none; [reflexivity|].
  intros p1 p2 x E M. unfold match_here in M. apply run_sound in M.
  destruct M as (s1 & rest & _ & -> & M & _).
  change (seqs [lit "func"; plus sp;
                opt (seqs [chr "("; plus not_rparen; chr ")"; plus sp]);
                Group 1 (plus w); Star sp; chr "("])
    with (Seq (lit "func")
              (seqs [plus sp;
                     opt (seqs [chr "("; plus not_rparen; chr ")"; plus sp]);
                     Group 1 (plus w); Star sp; chr "("])) in M.
  apply matches_seq_inv in M. destruct M as (f & t & -> & F & _).
  apply (matches_lit "func") in F. subst f.
  rewrite E, contains_text_app in C; [discriminate|].
  rewrite sapp_assoc. apply prefix_app.
Qed.

Lemma no_header_no_owner lines :
  (forall i, 9 <= i < 15 -> contains_text "func" (nth i lines "") = false) ->
  _find_function_at_line lines 10 "go" = None.
Proof.
  intros H. unfold _find_function_at_line.
  destruct (lookup "go" func_patterns) as [pattern|] eqn:P; [|reflexivity].
  assert (G : forall idxs, Forall (fun i => 9 <= i < 15) idxs ->
                           function_in pattern lines idxs = None).
  { induction idxs as [|i idxs IH]; intros F; [reflexivity|].
    inversion F as [|? ? Hi F']; subst. cbn [function_in].
    rewrite (go_header_needs_func pattern _ P (H i Hi)). now apply IH. }
  apply G. apply Forall_forall. intros i Hi. unfold Py.range in Hi.
  apply in_seq in Hi. lia.
Qed.

Variable code_file : CodeFile.
Variable before after : string.

Hypothesis is_go : language code_file = "go".
Hypothesis content_is : content code_file = (before ++ route_line ++ after)%string.
Hypothesis nine_lines : Py.count Py.nl before = 9.
Hypothesis one_call : literal_calls (content code_file) = [String.length before + 9].

Local Abbreviation text := (content code_file).
Local Abbreviation pre := (before ++ "    ")%string.
Local Abbreviation post := (", getUser)" ++ after)%string.

Lemma text_parts : text = (pre ++ route_call ++ post)%string.
Proof. rewrite content_is, sapp_assoc. reflexivity. Qed.

Local Abbreviation route_match := (route_match before).

Lemma route_rule_finds_the_registration vs :
  vs <> [] -> incl ("GET" :: vs) go_verbs ->
  finditer (go_route ("GET" :: vs)) text = [route_match].
Proof.
  intros N Sub. rewrite text_parts. apply scan_one.
  - intros p1 p2 x E M. rewrite <- text_parts in E.
    now destruct (route_rule_matches_once before after text content_is one_call
                    _ _ _ _ Sub E M).
  - discriminate.
  - now apply registration_matches.
Qed.

Lemma title_rule_finds_nothing : finditer (go_route title_verbs) text = [].
Proof.
  apply finditer_none. intros p1 p2 x E M.
  assert (Sub : incl title_verbs go_verbs)
    by (intros v V; unfold title_verbs, go_verbs in *; cbn [In] in *; intuition).
  destruct (route_rule_matches_once before after text content_is one_call
              _ _ _ _ Sub E M) as [_ G].
  unfold title_verbs in G. cbn [In] in G.
  repeat (destruct G as [G|G]; [discriminate|]). exact G.
Qed.

Lemma handle_func_finds_nothing :
  finditer (seqs [lit "http.HandleFunc"; Star sp; chr "("; Star sp; quoted_path 1]) text
  = [].
Proof.
  apply finditer_none. intros p1 p2 x E M.
  exact (handle_func_matches_nowhere before after text content_is one_call _ _ _ E M).
Qed.

Lemma route_match_line :
  Py.count Py.nl (Py.slice_to (m_start route_match) text) + 1 = 10.
Proof.
  unfold DetectionSpec.route_match. cbn [m_start]. rewrite text_parts, slice_to_prefix, count_app, nine_lines.
  reflexivity.
Qed.


(** The candidate of the registration, with the owner found for line 10. *)
Local Abbreviation owner :=
  (_find_function_at_line (Py.split Py.nl text) 10 "go").
Local Abbreviation candidate :=
  (users_route (or_else owner "")
               (if Py.truthy owner then CodeReader.text owner else "GET_/users/:id")
               (relative_path code_file)).

Lemma route_endpoint vs framework :
  mem framework ["gin"; "echo"; "chi"; "fiber"] = true ->
  http_endpoint code_file (Py.split Py.nl text) (go_route vs) framework route_match
  = candidate.
Proof.
  intros F. unfold http_endpoint. rewrite route_match_line, is_go.
  unfold method_and_path. rewrite F.
  assert (G : groups (go_route vs) route_match
              = [Some "r"; Some "GET"; Some "/users/:id"]).
  { unfold groups, go_route. cbn [seqs ngroups plus quoted_path].
    replace (ngroups (alts (map lit vs))) with 0; [reflexivity|].
    clear. induction vs as [|v vs IH]; [reflexivity|].
    assert (L : ngroups (lit v) = 0).
    { clear. induction v as [|a v IH]; [reflexivity|].
      cbn [lit]. destruct v; [reflexivity|]. cbn [ngroups chr]. exact IH. }
    cbn [map alts]. destruct (map lit vs); [now rewrite L|].
    cbn [ngroups]. now rewrite L, <- IH. }
  rewrite G. reflexivity.
Qed.

Lemma http_candidates : _find_http_endpoints code_file = [candidate; candidate].
Proof.
  unfold _find_http_endpoints. rewrite is_go.
  change (lookup "go" HTTP_PATTERNS)
    with (Some
            [ (go_route ["GET"; "POST"; "PUT"; "DELETE"; "PATCH"; "HEAD"; "OPTIONS"],
               "gin");
              (go_route ["GET"; "POST"; "PUT"; "DELETE"; "PATCH"], "echo");
              (go_route title_verbs, "chi");
              (seqs [lit "http.HandleFunc"; Star sp; chr "("; Star sp; quoted_path 1],
               "net_http");
              (go_route title_verbs, "fiber") ]).
  cbn [flat_map].
  rewrite !route_rule_finds_the_registration, title_rule_finds_nothing,
    handle_func_finds_nothing;
    try discriminate;
    try (intros v V; unfold go_verbs; cbn [In] in *; intuition).
  cbn [map app]. rewrite !route_endpoint by reflexivity. reflexivity.
Qed.

Lemma kept_candidates :
  exists rpcs,
    find_endpoints [code_file] = candidate :: rpcs
    /\ Forall (fun ep => type ep = "grpc") rpcs.
Proof.
  unfold find_endpoints. cbn [fold_left]. rewrite http_candidates.
  assert (A : add_unseen [candidate; candidate] ([], [])
              = (map unique_id [candidate], [candidate])).
  { unfold add_unseen. cbn [fold_left mem existsb map app].
    rewrite String.eqb_refl. reflexivity. }
  rewrite A.
  destruct (add_unseen_spec (_find_grpc_endpoints code_file)
              (map unique_id [candidate]) [candidate] eq_refl)
    as (kept & E & _ & _ & K).
  { repeat constructor. intros []. }
  rewrite E. cbn [snd app]. exists kept. split; [reflexivity|].
  apply Forall_forall. intros ep I. destruct (K ep I) as (b & a & Ef & _).
  pose proof (grpc_candidate_fields code_file) as G.
  rewrite Forall_forall in G. apply (G ep). rewrite Ef. apply in_elt.
Qed.

End RouteCandidates.

Section RouteScenario.

Import CodeReader Re Examples Samples DetectionSpec.



(** The two files of the scenario: in [main.go] the owner is [getUser],
    declared on line 14; in [routes.go] no header is in reach, the owner is
    empty and the display name is made of the method and the path. *)
Example scenario_files_candidates :
  _find_http_endpoints main_go
  = [users_route "getUser" "getUser" "main.go"; users_route "getUser" "getUser" "main.go"]
  /\ find_endpoints [main_go] = [users_route "getUser" "getUser" "main.go"]
  /\ _find_http_endpoints routes_go
     = [users_route "" "GET_/users/:id" "routes.go";
        users_route "" "GET_/users/:id" "routes.go"]
  /\ find_endpoints [routes_go] = [users_route "" "GET_/users/:id" "routes.go"]
  /\ (forall fn nm file, unique_id (users_route fn nm file) = "http_GET__users_:id").
Proof. vm_compute. repeat split. Qed.

End RouteScenario.

(* ===================================================================== *)
(** ** The driver of a batch *)
(* ===================================================================== *)

Section AnalyzerFacts.

Import ProgressManager ManagerSpec StoreSpec Analyzer.
Import Py.

Variable config : Config.AnalyzerConfig.
Variable clock : nat -> string.
Variable from_json : string -> string -> option AnalysisProgress.
Variable stamp : nat -> string.
Variable fs : CodeReader.FileSystem.
Variable agent :
  nat -> string -> string -> string -> string -> CodeReader.Cache ->
  outcome string * CodeReader.Cache.
Variable write_error : nat -> string -> option (string * option string).

Local Abbreviation load_progress := (load_progress config clock from_json).
Local Abbreviation progress_path := (Config.progress_file_path config).
Local Abbreviation manager := (manager config write_error).
Local Abbreviation analysis :=
  (analysis config clock from_json stamp fs agent write_error).
Local Abbreviation on_error := (on_error config clock from_json write_error).
Local Abbreviation analyze_endpoint :=
  (analyze_endpoint config clock from_json stamp fs agent write_error).
Local Abbreviation run_batch :=
  (run_batch config clock from_json stamp fs agent write_error).
Local Abbreviation analyze_all :=
  (analyze_all config clock from_json stamp fs agent write_error).

(** A writing of the progress file failed, with message [msg]. *)
Local Abbreviation unwritable msg :=
  (exists n partial, write_error n progress_path = Some (msg, partial)).

(** The agent was interrupted, with message [msg]. *)
Local Abbreviation interrupted msg :=
  (exists n name type details path cache,
      fst (agent n name type details path cache) = Exits msg).

Lemma mutate_mutate id f g (d : Endpoints) :
  mutate id f (mutate id g d) = mutate id (fun x => f (g x)) d.
Proof.
  induction d as [|[k v] d IH]; [reflexivity|].
  cbn [mutate]. destruct (String.eqb id k) eqn:E; cbn [mutate]; rewrite E;
    [reflexivity|now rewrite IH].
Qed.

Lemma contains_mutate k id f d : contains k (mutate id f d) = contains k d.
Proof.
  induction d as [|[k' v] d IH]; [reflexivity|].
  cbn [mutate]. destruct (String.eqb id k'); [reflexivity|].
  unfold contains in *. cbn [existsb fst]. now rewrite IH.
Qed.

(** A method of the manager that returns: called by the agent, it leaves
    the store it leaves, and it returns unless it saved and the progress
    file could not be written. *)
Lemma manager_run {A} (m : M A) w (r : A) st' :
  m (progress_manager w) = (Ok r, st') ->
  exists w',
    _progress (progress_manager w') = _progress st'
    /\ (manager m w = (Returns r, w')
        \/ exists msg, manager m w = (Fails msg, w') /\ unwritable msg).
Proof.
  intros E. unfold Analyzer.manager. rewrite E. cbn [of_result].
  destruct (saved _ _).
  - destruct (write_error _ _) as [[msg partial]|] eqn:O.
    + eexists. split; [|right; exists msg; split; [reflexivity|do 2 eexists; exact O]].
      reflexivity.
    + eexists. split; [|left; reflexivity]. reflexivity.
  - eexists. split; [|left; reflexivity]. reflexivity.
Qed.

(** A method that does not save returns. *)
Lemma manager_quiet {A} (m : M A) w (r : A) st' :
  m (progress_manager w) = (Ok r, st') ->
  contents st' = contents (progress_manager w) ->
  manager m w
  = (Returns r,
     {| progress_manager := st'; code_reader := code_reader w;
        documents := documents w; runs := runs w; writes := writes w |}).
Proof.
  intros E C. unfold Analyzer.manager, saved. rewrite E, C, Nat.eqb_refl. reflexivity.
Qed.

(** The claim, on a store that has the record. *)
Lemma claim_step id w p :
  _progress (progress_manager w) = Some p ->
  contains id (endpoints p) = true ->
  exists w' p1,
    _progress (progress_manager w') = Some p1
    /\ endpoints p1
       = mutate id (claim (clock (ticks (progress_manager w)))) (endpoints p)
    /\ (manager (mark_in_progress config clock from_json id) w = (Returns tt, w')
        \/ exists msg,
            manager (mark_in_progress config clock from_json id) w = (Fails msg, w')
            /\ unwritable msg).
Proof.
  intros H C.
  pose proof (mark_in_progress_loaded config clock from_json _ p id H) as E.
  rewrite C in E. destruct (manager_run _ w tt _ E) as (w' & P & O).
  exists w'. eexists. split; [exact P|]. split; [reflexivity|exact O].
Qed.

Lemma complete_step id doc w p :
  _progress (progress_manager w) = Some p ->
  contains id (endpoints p) = true ->
  exists w' p1,
    _progress (progress_manager w') = Some p1
    /\ endpoints p1
       = mutate id (complete doc (clock (ticks (progress_manager w)))) (endpoints p)
    /\ (manager (mark_completed config clock from_json id doc) w = (Returns tt, w')
        \/ exists msg,
            manager (mark_completed config clock from_json id doc) w = (Fails msg, w')
            /\ unwritable msg).
Proof.
  intros H C.
  pose proof (mark_completed_loaded config clock from_json _ p id doc H) as E.
  rewrite C in E. destruct (manager_run _ w tt _ E) as (w' & P & O).
  exists w'. eexists. split; [exact P|]. split; [reflexivity|exact O].
Qed.

Lemma fail_step id msg w p :
  _progress (progress_manager w) = Some p ->
  contains id (endpoints p) = true ->
  exists w' p1,
    _progress (progress_manager w') = Some p1
    /\ endpoints p1 = mutate id (fail msg) (endpoints p)
    /\ (manager (mark_failed config clock from_json id msg) w = (Returns tt, w')
        \/ exists msg',
            manager (mark_failed config clock from_json id msg) w = (Fails msg', w')
            /\ unwritable msg').
Proof.
  intros H C.
  pose proof (mark_failed_loaded config clock from_json _ p id msg H) as E.
  rewrite C in E. destruct (manager_run _ w tt _ E) as (w' & P & O).
  exists w'. eexists. split; [exact P|]. split; [reflexivity|exact O].
Qed.

(** The handler: the record is failed in the store, and the handler
    returns [None] unless the progress file could not be written. *)
Lemma on_error_effect endpoint msg w p :
  _progress (progress_manager w) = Some p ->
  contains (endpoint_id endpoint) (endpoints p) = true ->
  exists p',
    _progress (progress_manager (snd (on_error endpoint msg w))) = Some p'
    /\ endpoints p' = mutate (endpoint_id endpoint) (fail msg) (endpoints p)
    /\ (fst (on_error endpoint msg w) = Returns None
        \/ exists msg', fst (on_error endpoint msg w) = Fails msg' /\ unwritable msg').
Proof.
  intros H C. unfold Analyzer.on_error, bind.
  destruct (fail_step _ msg w p H C) as (w' & p1 & P & E & [O|(m & O & U)]); rewrite O.
  - exists p1. cbn. split; [exact P|]. split; [exact E|]. now left.
  - exists p1. cbn. split; [exact P|]. split; [exact E|]. right. now exists m.
Qed.

(** The body of the [try]: either it leaves the store alone and raises,
    an [Exception] or the interrupt of the agent, or it has completed the
    record, and returns the document unless the progress file could not be
    written. *)
Lemma analysis_effect endpoint w p :
  _progress (progress_manager w) = Some p ->
  contains (endpoint_id endpoint) (endpoints p) = true ->
  (_progress (progress_manager (snd (analysis endpoint w))) = Some p
   /\ ((exists msg, fst (analysis endpoint w) = Fails msg)
       \/ exists msg, fst (analysis endpoint w) = Exits msg /\ interrupted msg))
  \/ exists doc t p',
      _progress (progress_manager (snd (analysis endpoint w))) = Some p'
      /\ endpoints p' = mutate (endpoint_id endpoint) (complete doc t) (endpoints p)
      /\ (fst (analysis endpoint w) = Returns (Some doc)
          \/ exists msg, fst (analysis endpoint w) = Fails msg /\ unwritable msg).
Proof.
  intros H C.
  unfold Analyzer.analysis, bind, Analyzer.read_file, run_agent,
    Analyzer._save_document, raise, ret.
  cbv beta zeta.
  destruct (CodeReader.read_file config fs (code_reader w) (file_path endpoint))
    as [[[cf|]|e] cache]; cbv beta iota.
  2: { left. split; [exact H|]. left. eexists. reflexivity. }
  2: { left. split; [exact H|]. left. eexists. reflexivity. }
  cbn [runs code_reader progress_manager documents writes].
  destruct (agent _ _ _ _ _ _) as [[text|msg|msg] cache'] eqn:A; cbv beta iota.
  2: { left. split; [exact H|]. left. eexists. reflexivity. }
  2: { left. split; [exact H|]. right. exists msg. split; [reflexivity|].
       do 6 eexists. rewrite A. reflexivity. }
  cbn [runs code_reader progress_manager documents writes].
  destruct (write_error (writes w) _) as [[msg partial]|]; cbv beta iota.
  { left. split; [exact H|]. left. eexists. reflexivity. }
  match goal with
  | |- context [Analyzer.manager _ _ (mark_completed _ _ _ _ ?doc) ?w1] =>
      destruct (complete_step (endpoint_id endpoint) doc w1 p H C)
        as (w' & p1 & P & E & [O|(m' & O & U)])
  end; right; do 2 eexists; exists p1; rewrite O; cbn [fst snd].
  - split; [exact P|]. split; [exact E|]. left. reflexivity.
  - split; [exact P|]. split; [exact E|]. right. exists m'. now split.
Qed.

(** What [analyze_endpoint] does to a loaded store that has the record:
    the record went through [g], which is the claim, followed by a
    completion, a failure, both or neither, according to how the call
    ends. *)
Lemma analyze_endpoint_effect endpoint w p :
  _progress (progress_manager w) = Some p ->
  contains (endpoint_id endpoint) (endpoints p) = true ->
  exists g p',
    _progress (progress_manager (snd (analyze_endpoint endpoint w))) = Some p'
    /\ endpoints p' = mutate (endpoint_id endpoint) g (endpoints p)
    /\ match fst (analyze_endpoint endpoint w) with
       | Returns (Some doc) =>
           forall ep, status (g ep) = "completed" /\ doc_file (g ep) = Some doc
                      /\ retry_count (g ep) = retry_count ep
       | Returns None =>
           exists msg,
           forall ep, status (g ep) = "failed" /\ error_message (g ep) = Some msg
                      /\ retry_count (g ep) = (retry_count ep + 1)%Z
       | Exits msg =>
           interrupted msg
           /\ forall ep, status (g ep) = "in_progress"
                         /\ retry_count (g ep) = retry_count ep
       | Fails msg =>
           unwritable msg
           /\ ((forall ep, status (g ep) = "in_progress"
                           /\ retry_count (g ep) = retry_count ep)
               \/ (forall ep, status (g ep) = "failed"
                              /\ retry_count (g ep) = (retry_count ep + 1)%Z))
       end.
Proof.
  intros H C. unfold Analyzer.analyze_endpoint, bind, try_except.
  destruct (claim_step (endpoint_id endpoint) w p H C)
    as (w1 & p1 & P1 & E1 & [O|(m & O & U)]); rewrite O.
  2: { eexists. exists p1. cbn [fst snd]. split; [exact P1|]. split; [exact E1|].
       split; [exact U|]. left. intros ep. split; reflexivity. }
  assert (C1 : contains (endpoint_id endpoint) (endpoints p1) = true)
    by (now rewrite E1, contains_mutate).
  destruct (analysis_effect endpoint w1 p1 P1 C1)
    as [[K [(msg & F)|(msg & F & I)]] | (doc & t & p2 & P2 & E2 & [R|(msg & F & U)])];
    destruct (analysis endpoint w1) as [o w2]; cbn [fst snd] in *; subst o.
  - destruct (on_error_effect endpoint msg w2 p1 K C1) as (p' & P & E & [R|(m & R & U)]);
      destruct (on_error endpoint msg w2) as [o w3]; cbn [fst snd] in *; subst o;
      eexists; exists p'; (split; [exact P|]);
      (split; [rewrite E, E1, mutate_mutate; reflexivity|]).
    + exists msg. intros ep. repeat split.
    + split; [exact U|]. right. intros ep. split; reflexivity.
  - eexists. exists p1. split; [exact K|]. split; [exact E1|].
    split; [exact I|]. intros ep. split; reflexivity.
  - eexists. exists p2. split; [exact P2|].
    split; [rewrite E2, E1, mutate_mutate; reflexivity|].
    intros ep. repeat split.
  - assert (C2 : contains (endpoint_id endpoint) (endpoints p2) = true)
      by (now rewrite E2, contains_mutate).
    destruct (on_error_effect endpoint msg w2 p2 P2 C2) as (p' & P & E & [R|(m & R & U')]);
      destruct (on_error endpoint msg w2) as [o w3]; cbn [fst snd] in *; subst o;
      eexists; exists p'; (split; [exact P|]);
      (split; [rewrite E, E2, E1, !mutate_mutate; reflexivity|]).
    + exists msg. intros ep. repeat split.
    + split; [exact U'|]. right. intros ep. split; reflexivity.
Qed.

(** The agent's call of a method that starts with a load is the call of
    it on the manager that has loaded. *)
Lemma manager_absorbs_load {A} (m : M A) w :
  m (progress_manager w) = m (snd (load_progress (progress_manager w))) ->
  manager m w
  = manager m
      {| progress_manager := snd (load_progress (progress_manager w));
         code_reader := code_reader w; documents := documents w;
         runs := runs w; writes := writes w |}.
Proof.
  intros E. destruct (loaded_after_load config clock from_json (progress_manager w))
    as (p & _ & Hc & Hf).
  unfold Analyzer.manager, saved.
  cbn [progress_manager code_reader documents runs writes].
  rewrite <- E, Hc, Hf. reflexivity.
Qed.

Lemma analyze_endpoint_absorbs_load endpoint w :
  analyze_endpoint endpoint w
  = analyze_endpoint endpoint
      {| progress_manager := snd (load_progress (progress_manager w));
         code_reader := code_reader w; documents := documents w;
         runs := runs w; writes := writes w |}.
Proof.
  unfold Analyzer.analyze_endpoint, bind.
  rewrite manager_absorbs_load; [reflexivity|].
  apply mark_in_progress_absorbs_load.
Qed.


(** *** A batch *)

Lemma count_pending_mutate id g (d : Endpoints) ep :
  getitem id d = Some ep -> status ep = "pending" -> status (g ep) <> "pending" ->
  count_status "pending" (mutate id g d) = (count_status "pending" d - 1)%Z.
Proof.
  unfold count_status, values.
  induction d as [|[k v] d IH]; cbn [getitem mutate]; [discriminate|].
  destruct (String.eqb id k).
  - intros [= ->] S N. cbn [map snd filter]. rewrite S.
    destruct (String.eqb_spec (status (g ep)) "pending"); [contradiction|].
    cbn [String.eqb Ascii.eqb Bool.eqb length]. lia.
  - intros G S N. cbn [map snd filter]. specialize (IH G S N).
    destruct (String.eqb (status v) "pending"); cbn [length]; lia.
Qed.

Lemma NoDup_firstn {A} k (l : list A) : NoDup l -> NoDup (firstn k l).
Proof.
  intros H. rewrite <- (firstn_skipn k l) in H. now apply NoDup_app_remove_r in H.
Qed.

Lemma NoDup_map_filter {A B} (f : A -> B) P (l : list A) :
  NoDup (map f l) -> NoDup (map f (filter P l)).
Proof.
  induction l as [|x l IH]; [auto|]. cbn [map filter]. intros H.
  inversion H as [|? ? NI ND]; subst. destruct (P x); [|auto].
  cbn [map]. constructor; [|auto].
  intros HI. apply NI. apply in_map_iff in HI. destruct HI as (y & E & Hy).
  apply in_map_iff. exists y. split; [exact E|]. now apply filter_In in Hy.
Qed.

Lemma keyed_values_ids d :
  keyed_by_id d -> map endpoint_id (values d) = map fst d.
Proof.
  intros [_ F]. unfold values. rewrite map_map.
  induction F as [|[k v] d H _ IH]; [reflexivity|]. cbn [map fst snd] in *. now f_equal.
Qed.

(** A batch of a store keyed by identity: its records have distinct
    identities, and each is the pending record stored under its own. *)
Lemma batch_of_keyed n p :
  keyed_by_id (endpoints p) ->
  NoDup (map endpoint_id (next_batch n p))
  /\ Forall (fun e => getitem (endpoint_id e) (endpoints p) = Some e
                      /\ status e = "pending") (next_batch n p).
Proof.
  intros K. split.
  - unfold next_batch, take.
    assert (N : NoDup (map endpoint_id (sort (filter is_pending (values (endpoints p)))))).
    { apply (Permutation_NoDup (Permutation_map _ (Permutation_sym (sort_perm _)))).
      apply NoDup_map_filter. rewrite (keyed_values_ids _ K). apply K. }
    destruct (0 <=? n)%Z; rewrite <- firstn_map; now apply NoDup_firstn.
  - apply Forall_forall. intros e H. apply next_batch_In in H. destruct H as [HV HS].
    split; [|exact HS]. destruct K as [ND F].
    unfold values in HV. apply in_map_iff in HV. destruct HV as ([k v] & <- & HI).
    rewrite Forall_forall in F. pose proof (F _ HI) as Hk. cbn [fst snd] in *.
    rewrite Hk. now apply keyed_getitem.
Qed.

(** The loop over a batch whose records are pending records of the store
    with distinct identities. *)
Lemma analyze_all_effect batch :
  forall results w p,
    _progress (progress_manager w) = Some p ->
    NoDup (map endpoint_id batch) ->
    Forall (fun e => exists ep, getitem (endpoint_id e) (endpoints p) = Some ep
                                /\ status ep = "pending") batch ->
    exists p',
      _progress (progress_manager (snd (analyze_all batch results w))) = Some p'
      /\ map fst (endpoints p') = map fst (endpoints p)
      /\ (forall id, ~ In id (map endpoint_id batch) ->
            getitem id (endpoints p') = getitem id (endpoints p))
      /\ match fst (analyze_all batch results w) with
         | Returns results' =>
             length results' = length results + length batch
             /\ count_status "pending" (endpoints p')
                = (count_status "pending" (endpoints p) - Z.of_nat (length batch))%Z
             /\ Forall (fun e => exists ep',
                            getitem (endpoint_id e) (endpoints p') = Some ep'
                            /\ (status ep' = "completed" \/ status ep' = "failed"))
                       batch
             /\ map (fun r => fst (fst r)) results'
                = map (fun r => fst (fst r)) results ++ map endpoint_name batch
         | Fails msg => unwritable msg
         | Exits msg =>
             interrupted msg
             /\ Exists (fun e => exists ep',
                            getitem (endpoint_id e) (endpoints p') = Some ep'
                            /\ status ep' = "in_progress")
                       batch
         end.
Proof.
  induction batch as [|e batch IH]; intros results w p H ND F.
  - exists p. cbn. rewrite app_nil_r. repeat split; auto; lia.
  - cbn [Analyzer.analyze_all]. unfold bind.
    inversion ND as [|? ? NI ND']; subst.
    inversion F as [|? ? (ep & G & S) F']; subst.
    assert (C : contains (endpoint_id e) (endpoints p) = true)
      by (now rewrite contains_getitem, G).
    destruct (analyze_endpoint_effect e w p H C) as (g & p1 & P & E & St).
    assert (Ge : getitem (endpoint_id e) (endpoints p1) = Some (g ep))
      by (now rewrite E, getitem_mutate_same, G).
    assert (Others : forall id, ~ In id (map endpoint_id (e :: batch)) ->
                       getitem id (endpoints p1) = getitem id (endpoints p)).
    { intros id N. rewrite E. apply getitem_mutate_other.
      intros Eq. apply N. left. now rewrite Eq. }
    destruct (analyze_endpoint e w) as [[r|msg|msg] w1]; cbn [fst snd] in St, P.
    2: { exists p1. cbn [fst snd]. split; [exact P|].
         split; [now rewrite E, mutate_keys|]. split; [exact Others|]. apply St. }
    2: { exists p1. cbn [fst snd]. split; [exact P|].
         split; [now rewrite E, mutate_keys|]. split; [exact Others|].
         destruct St as [I St]. split; [exact I|].
         apply Exists_cons_hd. exists (g ep). split; [exact Ge|apply (St ep)]. }
    assert (Done : status (g ep) = "completed" \/ status (g ep) = "failed").
    { destruct r; [left; apply (St ep)|right; destruct St as [m St]; apply (St ep)]. }
    assert (F1 : Forall (fun e0 => exists ep0,
                           getitem (endpoint_id e0) (endpoints p1) = Some ep0
                           /\ status ep0 = "pending") batch).
    { rewrite Forall_forall in *. intros e0 H0. destruct (F' e0 H0) as (ep0 & G0 & S0).
      exists ep0. split; [|exact S0]. rewrite E, getitem_mutate_other; [exact G0|].
      intros Eq. apply NI. rewrite <- Eq. now apply in_map. }
    destruct (IH (results ++ [(endpoint_name e,
                               match r with Some _ => true | None => false end, r)])
                 w1 p1 P ND' F1) as (p' & A1 & A2 & A3 & A4).
    exists p'. split; [exact A1|]. split; [now rewrite A2, E, mutate_keys|].
    split.
    { intros id N. rewrite A3 by (intros HI; apply N; now right). now apply Others. }
    destruct (fst (analyze_all batch _ w1)) as [results'|msg|msg].
    + destruct A4 as (B1 & B2 & B3 & B4). split.
      { rewrite B1, length_app. cbn. lia. }
      split.
      { rewrite B2, E, (count_pending_mutate _ g _ ep G S); [cbn [length]; lia|].
        destruct Done as [D|D]; rewrite D; discriminate. }
      split.
      { constructor; [|exact B3]. exists (g ep). split; [|exact Done].
        now rewrite (A3 _ NI). }
      rewrite B4, map_app, <- app_assoc. reflexivity.
    + exact A4.
    + destruct A4 as [I X]. split; [exact I|]. now apply Exists_cons_tl.
Qed.

Lemma get_summary_loaded st p :
  _progress st = Some p ->
  exists s st',
    get_summary config clock from_json st = (Ok s, st')
    /\ contents st' = contents st
    /\ s_pending s = count_status "pending" (endpoints p)
    /\ exists p', _progress st' = Some p' /\ endpoints p' = endpoints p.
Proof.
  intros H. destruct st as [pr f r c t]. cbn [_progress] in H. subst pr.
  do 2 eexists. split; [reflexivity|]. cbn. split; [reflexivity|].
  split; [reflexivity|]. eexists. split; reflexivity.
Qed.

Lemma run_batch_absorbs_load n w :
  run_batch n w
  = run_batch n
      {| progress_manager := snd (load_progress (progress_manager w));
         code_reader := code_reader w; documents := documents w;
         runs := runs w; writes := writes w |}.
Proof.
  unfold Analyzer.run_batch, bind.
  rewrite manager_absorbs_load; [reflexivity|].
  unfold ProgressManager.get_next_endpoints. apply load_absorbed.
Qed.


End AnalyzerFacts.
(* ===================================================================== *)
(** ** The properties on the values of the scenarios *)
(* ===================================================================== *)

Section MoreScenarios.

Import ProgressManager ManagerSpec StoreSpec DetectionSpec Analyzer Examples Samples.

Local Abbreviation load_progress := (load_progress cfg clk unreadable).
Local Abbreviation call := (call cfg clk unreadable).
Local Abbreviation run := (run cfg clk unreadable).

Lemma keyed_one_pending : keyed_by_id (endpoints one_pending).
Proof.
  split; cbn.
  - repeat constructor. intros [].
  - repeat constructor.
Qed.

Lemma keyed_backlog : keyed_by_id (endpoints backlog).
Proof.
  split; cbn.
  - repeat (constructor; [cbn; intuition discriminate|]). constructor.
  - repeat constructor.
Qed.

Lemma keyed_two_pending : keyed_by_id (endpoints two_pending).
Proof.
  split; cbn.
  - repeat (constructor; [cbn; intuition discriminate|]). constructor.
  - repeat constructor.
Qed.

(** The identity of the route [GET /items/{id}]. *)
Lemma http_identity_has_no_slash_or_brace_witness :
  CodeReader.type item_route <> "grpc"
  /\ (Py.count "/" (CodeReader.unique_id item_route) = 0
      /\ Py.count "{" (CodeReader.unique_id item_route) = 0
      /\ Py.count "}" (CodeReader.unique_id item_route) = 0).
Proof.
  split.
  - discriminate.
  - apply (http_identity_has_no_slash_or_brace item_route). discriminate.
Defined.

(** The method of the Python servicer. *)
Lemma rpc_candidates_outside_protobuf_have_no_service_witness :
  CodeReader.language users_py <> "protobuf"
  /\ Forall (fun ep => CodeReader.service_name ep = None
                       /\ CodeReader.unique_id ep
                          = ("grpc_None_" ++ CodeReader.name ep)%string)
            (CodeReader._find_grpc_endpoints users_py).
Proof.
  split.
  - discriminate.
  - apply (rpc_candidates_outside_protobuf_have_no_service users_py). discriminate.
Defined.

(** The registration on line 10 of [main.go], under another first line. *)
Lemma owning_function_depends_on_six_lines_witness :
  same_window 10 main_lines main_lines'
  /\ (CodeReader._find_function_at_line main_lines 10 "go"
      = CodeReader._find_function_at_line main_lines' 10 "go"
      /\ CodeReader._find_function_at_line main_lines 10 "go" <> Some EmptyString
      /\ (CodeReader.lookup "go" CodeReader.func_patterns = None ->
          CodeReader._find_function_at_line main_lines 10 "go" = None)).
Proof.
  assert (W : same_window 10 main_lines main_lines').
  { intros i Hi. destruct i as [|i]; [lia|reflexivity]. }
  split.
  - exact W.
  - apply (owning_function_depends_on_six_lines 10 "go" main_lines main_lines' W).
Defined.

(** The first read of [main.go] by a new reader. *)
Lemma read_file_stays_under_the_root_prefix_witness :
  PosixPath.isabs (Config.code_dir cfg) = true
  /\ built cfg []
  /\ fst (CodeReader.read_file cfg disk [] "main.go")
     = Py.Ok (Some {| CodeReader.cf_path := "/work/proj/main.go";
                      CodeReader.relative_path := "main.go";
                      CodeReader.content := "package main";
                      CodeReader.language := "go";
                      CodeReader.size := 12 |})
  /\ under_root cfg "/work/proj/main.go".
Proof.
  split; [reflexivity|]. split; [constructor|]. split; [reflexivity|].
  apply (read_file_stays_under_the_root_prefix cfg disk [] "main.go"
           {| CodeReader.cf_path := "/work/proj/main.go";
              CodeReader.relative_path := "main.go";
              CodeReader.content := "package main";
              CodeReader.language := "go";
              CodeReader.size := 12 |});
    [reflexivity|constructor|reflexivity].
Defined.

(** A sync of two routes and a claim on the store with one record. *)
Lemma records_stay_keyed_by_their_identity_witness :
  let evs := [Does (Sync [item_route; users_route "getUser" "getUser" "main.go"]);
              Does (Claim "X")] in
  _progress (loaded one_pending None) = Some one_pending
  /\ keyed_by_id (endpoints one_pending)
  /\ exists q, _progress (snd (run evs (loaded one_pending None))) = Some q
               /\ keyed_by_id (endpoints q).
Proof.
  split; [reflexivity|]. split; [exact keyed_one_pending|].
  apply (records_stay_keyed_by_their_identity cfg clk unreadable
           [Does (Sync [item_route; users_route "getUser" "getUser" "main.go"]);
            Does (Claim "X")]
           (loaded one_pending None) one_pending);
    [reflexivity|exact keyed_one_pending].
Defined.

Lemma known_backlog : statuses_known (endpoints backlog).
Proof.
  unfold statuses_known. cbn.
  repeat (apply Forall_cons; [unfold known; cbn; auto|]). apply Forall_nil.
Qed.

(** The backlog, worked on and reset. *)
Lemma statuses_stay_among_the_four_witness :
  let evs := [Does (Claim "A"); Does (Fail "C" "timeout"); Does ResetFailed;
              Does (Complete "E" "e.md")] in
  _progress (loaded backlog None) = Some backlog
  /\ statuses_known (endpoints backlog)
  /\ exists q, _progress (snd (run evs (loaded backlog None))) = Some q
               /\ statuses_known (endpoints q)
               /\ uncounted (endpoints q) = count_status "in_progress" (endpoints q).
Proof.
  split; [reflexivity|]. split; [exact known_backlog|].
  apply (statuses_stay_among_the_four cfg clk unreadable
           [Does (Claim "A"); Does (Fail "C" "timeout"); Does ResetFailed;
            Does (Complete "E" "e.md")]
           (loaded backlog None) backlog);
    [reflexivity|exact known_backlog].
Defined.

(** The backlog, whose record [B] is failed. *)
Lemma reset_failed_moves_the_failed_to_pending_witness :
  _progress (snd (load_progress (loaded backlog None))) = Some backlog
  /\ exists p',
      _progress (snd (reset_failed cfg clk unreadable (loaded backlog None))) = Some p'
      /\ failed_count p' = 0%Z
      /\ pending_count p'
         = (count_status "pending" (endpoints backlog)
            + count_status "failed" (endpoints backlog))%Z
      /\ completed_count p' = count_status "completed" (endpoints backlog)
      /\ total_endpoints p' = Z.of_nat (length (endpoints backlog))
      /\ (forall id ep, getitem id (endpoints backlog) = Some ep ->
            status ep <> "failed" -> getitem id (endpoints p') = Some ep).
Proof.
  split; [reflexivity|].
  apply (reset_failed_moves_the_failed_to_pending cfg clk unreadable
           (loaded backlog None) backlog).
  reflexivity.
Defined.

(** Record [A] of the backlog, claimed. *)
Lemma taken_up_record_is_in_no_batch_witness :
  _progress (snd (load_progress (loaded backlog None))) = Some backlog
  /\ keyed_by_id (endpoints backlog)
  /\ contains "A" (endpoints backlog) = true
  /\ takes_up (Claim "A") "A"
  /\ exists batch,
      fst (get_next_endpoints cfg clk unreadable 5
             (snd (call (Claim "A") (loaded backlog None)))) = Py.Ok batch
      /\ Forall (fun ep => endpoint_id ep <> "A") batch.
Proof.
  split; [reflexivity|]. split; [exact keyed_backlog|]. split; [reflexivity|].
  split; [left; reflexivity|].
  apply (taken_up_record_is_in_no_batch cfg clk unreadable (Claim "A") "A" 5
           (loaded backlog None) backlog);
    [reflexivity|exact keyed_backlog|reflexivity|left; reflexivity].
Defined.

(** The one pending record, completed with [x.md]. *)
Lemma completed_document_is_listed_witness :
  let st' := snd (mark_completed cfg clk unreadable "X" "x.md" (loaded one_pending None)) in
  _progress (snd (load_progress (loaded one_pending None))) = Some one_pending
  /\ contains "X" (endpoints one_pending) = true
  /\ "x.md" <> EmptyString
  /\ exists docs p',
      get_completed_docs cfg clk unreadable st' = (Py.Ok docs, st')
      /\ _progress st' = Some p'
      /\ In "x.md" docs
      /\ (exists ep, getitem "X" (endpoints p') = Some ep
                     /\ status ep = "completed" /\ doc_file ep = Some "x.md")
      /\ (forall d, In d docs ->
            exists ep, In ep (values (endpoints p'))
                       /\ status ep = "completed" /\ doc_file ep = Some d).
Proof.
  split; [reflexivity|]. split; [reflexivity|]. split; [discriminate|].
  apply (completed_document_is_listed cfg clk unreadable "X" "x.md"
           (loaded one_pending None) one_pending);
    [reflexivity|reflexivity|discriminate].
Defined.

(** A first sync beside half a document. *)
Lemma unreadable_file_is_replaced_by_a_fresh_store_witness :
  let st' := snd (sync_endpoints cfg clk unreadable [item_route] beside_torn_file) in
  _progress beside_torn_file = None
  /\ file beside_torn_file = Some "{"
  /\ unreadable "{" (clk (ticks beside_torn_file)) = None
  /\ exists p',
      _progress st' = Some p'
      /\ endpoints p' = fold_left add_new [item_route] []
      /\ Forall (fun ep => status ep = "pending" /\ retry_count ep = 0%Z)
                (values (endpoints p'))
      /\ created_at p' = clk (ticks beside_torn_file)
      /\ file st' = Some (Json.dumps (to_dict p'))
      /\ reads st' = S (reads beside_torn_file).
Proof.
  split; [reflexivity|]. split; [reflexivity|]. split; [reflexivity|].
  apply (unreadable_file_is_replaced_by_a_fresh_store cfg clk unreadable
           [item_route] beside_torn_file "{");
    reflexivity.
Defined.



(** The three ways a batch of the two pending records ends.  With nothing
    in the way, [N], whose file is missing, is failed and [M] is completed.
    When the agent is interrupted on [M], the interrupt leaves [run_batch],
    [M] stays in_progress, and no later batch contains it.  When the
    disk is full as the failure of [N] is saved, the error leaves
    [run_batch], [N] is failed in memory, the progress file is left with an
    opening brace, and [M] is not analysed. *)
Example two_pending_batches :
  let w := world (loaded two_pending None) in
  let statuses (out : outcome BatchResult * World) :=
    option_map (fun p => map (fun kv => (fst kv, status (snd kv))) (endpoints p))
               (_progress (progress_manager (snd out))) in
  let good := run_batch cfg clk unreadable clk disk laconic writable 5 w in
  let stopped := run_batch cfg clk unreadable clk disk interrupted writable 5 w in
  let full := run_batch cfg clk unreadable clk disk laconic full_once 5 w in
  (statuses good = Some [("M", "completed"); ("N", "failed")]
   /\ map fst (documents (snd good)) = ["/work/out/http_main_T5.md"])
  /\ (fst stopped = Exits "KeyboardInterrupt"
      /\ statuses stopped = Some [("M", "in_progress"); ("N", "failed")]
      /\ fst (run_batch cfg clk unreadable clk disk laconic writable 5 (snd stopped))
         = Returns {| b_status := "completed"; b_analyzed := 0;
                      b_results := None; b_summary := None |})
  /\ (fst full = Fails "No space left on device"
      /\ statuses full = Some [("M", "pending"); ("N", "failed")]
      /\ file (progress_manager (snd full)) = Some "{"
      /\ documents (snd full) = []).
Proof. vm_compute. repeat split. Qed.

End MoreScenarios.
